(** * AI voice interview front end: session channel, audio transport and
      violation signal sources

    A shallow embedding of [frontend/src/services/api.js]
    ([createInterviewWebSocket]) and [frontend/src/pages/InterviewPage.jsx]
    (audio capture and playback, the cheating signal sources and the
    teardown path), followed by the properties established about them. *)

From Stdlib Require Import ZArith QArith Qminmax List String Ascii Bool Lia.
From Stdlib Require Import Strings.Byte RelationClasses DecimalString.
Import ListNotations.

Local Open Scope string_scope.
#[local] Set Warnings "-register-all".

(* ------------------------------------------------------------------ *)
(** * JavaScript values that cross the wire *)

(** The result of [JSON.parse] / [response.json()].  Numbers are kept as
    rationals; an object is the list of its own properties. *)
Inductive Json : Type :=
| JNull
| JBool (b : bool)
| JNum (q : Q)
| JStr (s : string)
| JArr (items : list Json)
| JObj (fields : list (string * Json)).

(** A JavaScript value that may be [undefined]. *)
Definition JsVal : Type := option Json.

Inductive Exn : Type :=
| SyntaxError          (* JSON.parse on malformed text *)
| TypeError            (* property read on null *)
| RangeError           (* typed-array view over a buffer of the wrong size *)
| NotSupportedError    (* createBuffer with zero frames *)
| InvalidStateError    (* WebSocket.send while CONNECTING *)
| IndexSizeError       (* getChannelData on a missing channel *)
| DetectionError       (* FaceDetector.detect rejected *)
| NetworkError.        (* rejected fetch, or a response that is not ok *)

Fixpoint lookup (k : string) (fields : list (string * Json)) : JsVal :=
  match fields with
  | [] => None
  | (k', v) :: rest => if String.eqb k k' then Some v else lookup k rest
  end.

(** [v.k] for the property names this program reads ([type], [text],
    [strikes], [message], [terminated], [warning_message]): reading a
    property of [null] throws, primitives and arrays have no such property. *)
Definition get_prop (v : Json) (k : string) : Exn + JsVal :=
  match v with
  | JNull => inl TypeError
  | JObj fields => inr (lookup k fields)
  | _ => inr None
  end.

(** JavaScript truthiness, as used by [if (result.strikes)] and [a || b]. *)
Definition truthy (v : JsVal) : bool :=
  match v with
  | None => false
  | Some JNull => false
  | Some (JBool b) => b
  | Some (JNum q) => negb (Qeq_bool q 0)
  | Some (JStr s) => negb (String.eqb s "")
  | Some (JArr _) => true
  | Some (JObj _) => true
  end.

(* ------------------------------------------------------------------ *)
(** * State-and-exception monad

    Handlers mutate a store and may throw; effects performed before a
    throw are kept, as in JavaScript. *)

Definition M (S A : Type) : Type := S -> S * (Exn + A).

Definition ret {S A} (a : A) : M S A := fun s => (s, inr a).

Definition bind {S A B} (m : M S A) (k : A -> M S B) : M S B :=
  fun s => match m s with
           | (s', inr a) => k a s'
           | (s', inl e) => (s', inl e)
           end.

Definition throw {S A} (e : Exn) : M S A := fun s => (s, inl e).

Definition lift {S A} (r : Exn + A) : M S A := fun s => (s, r).

Definition modify {S} (f : S -> S) : M S unit := fun s => (f s, inr tt).

Definition gets {S A} (f : S -> A) : M S A := fun s => (s, inr (f s)).

Definition try_catch {S A} (body : M S A) (handler : Exn -> M S A) : M S A :=
  fun s => match body s with
           | (s', inl e) => handler e s'
           | r => r
           end.

Declare Scope js_scope.
Delimit Scope js_scope with js.
Notation "x <- m ;; k" := (bind m (fun x => k))
  (at level 61, m at next level, right associativity) : js_scope.
Notation "m ;;; k" := (bind m (fun _ => k))
  (at level 61, right associativity) : js_scope.

Inductive Level : Type := LLog | LWarn | LError | LDebug.

Record LogEntry : Type := Console { level : Level; text : string }.


(* ------------------------------------------------------------------ *)
(** * The session channel: [createInterviewWebSocket] (api.js) *)

Module Channel.

Inductive ReadyState : Type := CONNECTING | OPEN | CLOSING | CLOSED.

Definition is_open (r : ReadyState) : bool :=
  match r with OPEN => true | _ => false end.

(** A WebSocket message: text, or binary (a [Blob] inbound, an
    [ArrayBuffer] outbound). *)
Inductive WsData : Type :=
| Text (s : string)
| Binary (b : list byte).

(** One call of a callback, with its argument. *)
Inductive Invocation : Type :=
| OnConnected (data : JsVal)
| OnAudio (blob : list byte)
| OnTranscript (text : JsVal)
| OnWarning (data : Json)
| OnTerminated (data : Json)
| OnError (message : JsVal)
| OnDisconnected (code : Z).

(** The socket together with what it has done so far: the frames handed
    to the network and the lines its handlers wrote to the console. *)
Record Chan : Type := {
  readyState : ReadyState;
  wire : list WsData;
  console : list LogEntry
}.

Definition connect : Chan :=
  {| readyState := CONNECTING; wire := []; console := [] |}.

Definition set_readyState (r : ReadyState) (c : Chan) : Chan :=
  {| readyState := r; wire := wire c; console := console c |}.

Definition transmit (d : WsData) (c : Chan) : Chan :=
  {| readyState := readyState c; wire := wire c ++ [d];
     console := console c |}.

Definition print (e : LogEntry) (c : Chan) : Chan :=
  {| readyState := readyState c; wire := wire c;
     console := console c ++ [e] |}.

Local Open Scope js_scope.

Definition log (l : Level) (msg : string) : M Chan unit :=
  modify (print (Console l msg)).

(** The platform's [WebSocket.prototype.send]: throws while CONNECTING,
    transmits when OPEN, and discards the data once closing or closed. *)
Definition ws_send (d : WsData) : M Chan unit :=
  fun c => match readyState c with
           | CONNECTING => (c, inl InvalidStateError)
           | OPEN => (transmit d c, inr tt)
           | CLOSING | CLOSED => (c, inr tt)
           end.

(** The platform's [WebSocket.prototype.close]. *)
Definition ws_close : M Chan unit :=
  fun c => match readyState c with
           | CONNECTING | OPEN => (set_readyState CLOSING c, inr tt)
           | CLOSING | CLOSED => (c, inr tt)
           end.

Definition known_types : list string :=
  ["connected"; "transcript"; "warning"; "terminated"; "error"].

(** The state of the program that created the socket: the callbacks run
    in it, and the socket is part of it, so that a callback can use the
    socket (the page's [onTerminated] closes it). *)
Class World (S : Type) : Type := {
  socket_of : S -> option Chan;
  put_socket : Chan -> S -> S
}.

(** A socket on its own. *)
#[export] Instance bare_socket : World Chan :=
  {| socket_of := Some; put_socket := fun c _ => c |}.

(** What a handler does to its own socket. *)
Definition on_socket {S} `{World S} (op : M Chan unit) : M S unit :=
  fun w => match socket_of w with
           | None => (w, inr tt)
           | Some c => let (c', r) := op c in (put_socket c' w, r)
           end.

(** The [callbacks] object: every callback is optional, is called
    synchronously by the handler, and may throw. *)
Record Callbacks (S : Type) : Type := {
  onConnected : option (JsVal -> M S unit);
  onAudio : option (list byte -> M S unit);
  onTranscript : option (JsVal -> M S unit);
  onWarning : option (Json -> M S unit);
  onTerminated : option (Json -> M S unit);
  onError : option (JsVal -> M S unit);
  onDisconnected : option (Z -> M S unit)
}.

Arguments onConnected {S} _.
Arguments onAudio {S} _.
Arguments onTranscript {S} _.
Arguments onWarning {S} _.
Arguments onTerminated {S} _.
Arguments onError {S} _.
Arguments onDisconnected {S} _.

(** [callbacks.onX?.(arg)] *)
Definition invoke {S A} (f : option (A -> M S unit)) (a : A) : M S unit :=
  match f with
  | Some g => g a
  | None => ret tt
  end.

(** The call that an [Invocation] stands for. *)
Definition call {S} (callbacks : Callbacks S) (i : Invocation) : M S unit :=
  match i with
  | OnConnected data => invoke (onConnected callbacks) data
  | OnAudio blob => invoke (onAudio callbacks) blob
  | OnTranscript text => invoke (onTranscript callbacks) text
  | OnWarning data => invoke (onWarning callbacks) data
  | OnTerminated data => invoke (onTerminated callbacks) data
  | OnError message => invoke (onError callbacks) message
  | OnDisconnected code => invoke (onDisconnected callbacks) code
  end.

(** Events the platform delivers to the socket.  The platform moves
    [readyState] before it runs the handler, delivers messages only
    while OPEN, and fires [open] and [close] at most once. *)
Inductive WsEvent : Type :=
| EvOpen
| EvMessage (data : WsData)
| EvError
| EvClose (code : Z).

Section Handlers.

Context {S : Type} `{World S}.

(** [JSON.parse]; [None] when it throws [SyntaxError]. *)
Variable JSON_parse : string -> option Json.
Variable callbacks : Callbacks S.

Definition parse (s : string) : M S Json :=
  match JSON_parse s with
  | Some v => ret v
  | None => throw SyntaxError
  end.

(** [ws.onopen] *)
Definition onopen : M S unit :=
  on_socket (log LLog "WebSocket connected") ;;;
  invoke (onConnected callbacks) None.

(** The [switch (data.type)] of [ws.onmessage]. *)
Definition dispatch (data : Json) (ty : JsVal) : M S unit :=
  match ty with
  | Some (JStr t) =>
      if String.eqb t "connected" then
        invoke (onConnected callbacks) (Some data)
      else if String.eqb t "transcript" then
        txt <- lift (get_prop data "text") ;;
        invoke (onTranscript callbacks) txt
      else if String.eqb t "warning" then
        invoke (onWarning callbacks) data
      else if String.eqb t "terminated" then
        invoke (onTerminated callbacks) data
      else if String.eqb t "error" then
        msg <- lift (get_prop data "message") ;;
        invoke (onError callbacks) msg
      else on_socket (log LLog "Unknown message type:")
  | _ => on_socket (log LLog "Unknown message type:")
  end.

(** [ws.onmessage]: the [try] encloses the parse, the [switch] and the
    callback it calls; the [Blob] branch is outside it. *)
Definition onmessage (data : WsData) : M S unit :=
  match data with
  | Binary blob => invoke (onAudio callbacks) blob
  | Text s =>
      try_catch
        (data <- parse s ;;
         ty <- lift (get_prop data "type") ;;
         dispatch data ty)
        (fun _ => on_socket (log LError "Failed to parse message:"))
  end.

(** [ws.onerror] *)
Definition onerror : M S unit :=
  on_socket (log LError "WebSocket error:") ;;;
  invoke (onError callbacks) (Some (JStr "Connection error")).

(** [ws.onclose] *)
Definition onclose (code : Z) : M S unit :=
  on_socket (log LLog "WebSocket closed:") ;;;
  invoke (onDisconnected callbacks) code.

(** The platform delivering an event to the socket. *)
Definition fire (ev : WsEvent) : M S unit :=
  st <- gets (fun w => option_map readyState (socket_of w)) ;;
  match ev, st with
  | EvOpen, Some CONNECTING =>
      on_socket (modify (set_readyState OPEN)) ;;; onopen
  | EvMessage d, Some OPEN => onmessage d
  | EvError, Some _ => onerror
  | EvClose _, Some CLOSED => ret tt
  | EvClose code, Some _ =>
      on_socket (modify (set_readyState CLOSED)) ;;; onclose code
  | _, _ => ret tt
  end.

End Handlers.

Section Handle.

(** [JSON.stringify] on a value that is not a string. *)
Variable JSON_stringify : Json -> string.

(** The returned [send]: [typeof data === 'string' ? data :
    JSON.stringify(data)], guarded by the OPEN check. *)
Definition send (data : Json) : M Chan unit :=
  fun c =>
    if is_open (readyState c) then
      ws_send (Text (match data with
                     | JStr s => s
                     | _ => JSON_stringify data
                     end)) c
    else (c, inr tt).

(** The returned [sendAudio]. *)
Definition sendAudio (audioData : list byte) : M Chan unit :=
  fun c =>
    if is_open (readyState c) then ws_send (Binary audioData) c
    else (c, inr tt).

(** The returned [close]. *)
Definition close : M Chan unit := ws_close.

End Handle.

End Channel.



(* ------------------------------------------------------------------ *)
(** * Playback conversion: the PCM16 view and the Int16 to Float32 loop
      of [playAudio] (InterviewPage.jsx) *)

Module Playback.

Local Open Scope Z_scope.

Definition byte_val (b : byte) : Z := Z.of_N (Byte.to_N b).

(** One element of an [Int16Array] view: two bytes, little endian, two's
    complement. *)
Definition int16_of_bytes (lo hi : byte) : Z :=
  let u := byte_val lo + 256 * byte_val hi in
  if u <? 32768 then u else u - 65536.

(** [new Int16Array(arrayBuffer)]: throws [RangeError] when the byte
    length is not a multiple of 2. *)
Fixpoint Int16Array (arrayBuffer : list byte) : Exn + list Z :=
  match arrayBuffer with
  | [] => inr []
  | [_] => inl RangeError
  | lo :: hi :: rest =>
      match Int16Array rest with
      | inr l => inr (int16_of_bytes lo hi :: l)
      | inl e => inl e
      end
  end.

(** [a[i] = v] on a typed array: a store past the end is ignored. *)
Fixpoint store (i : nat) (v : Q) (a : list Q) : list Q :=
  match a, i with
  | [], _ => []
  | _ :: rest, O => v :: rest
  | x :: rest, S i' => x :: store i' v rest
  end.

(** [new Float32Array(n)]: [n] zeros. *)
Definition Float32Array_new (n : nat) : list Q := repeat 0%Q n.

(** The loop [for (let i = 0; i < pcm16Data.length; i++)
    float32Data[i] = pcm16Data[i] / 32768], with [fuel] iterations left.
    The quotient of a 16-bit integer by 2^15 is representable as a
    32-bit float, so the store does not round. *)
Fixpoint convert_loop (fuel i : nat) (pcm16Data : list Z) (float32Data : list Q)
  : list Q :=
  match fuel with
  | O => float32Data
  | S fuel' =>
      convert_loop fuel' (S i) pcm16Data
        (store i (inject_Z (nth i pcm16Data 0%Z) / 32768)%Q float32Data)
  end.

Definition to_float32 (pcm16Data : list Z) : list Q :=
  convert_loop (List.length pcm16Data) 0 pcm16Data
    (Float32Array_new (List.length pcm16Data)).

(** Lines 142-148 of [playAudio]: raw bytes to the Float32 samples. *)
Definition pcm16_to_float32 (arrayBuffer : list byte) : Exn + list Q :=
  match Int16Array arrayBuffer with
  | inr pcm16Data => inr (to_float32 pcm16Data)
  | inl e => inl e
  end.

(** The [i]-th signed 16-bit sample of a payload, read off the bytes. *)
Definition sample16 (arrayBuffer : list byte) (i : nat) : Z :=
  int16_of_bytes (nth (2 * i) arrayBuffer x00) (nth (2 * i + 1) arrayBuffer x00).

(** A single-channel [AudioBuffer]. *)
Record AudioBuffer : Type := {
  channelData : list Q;
  bufferRate : Z
}.

(** [audioContext.createBuffer(1, length, sampleRate)] followed by
    [getChannelData(0).set(data)]: a buffer of zero frames is refused. *)
Definition createBuffer (data : list Q) (rate : Z) : Exn + AudioBuffer :=
  match data with
  | [] => inl NotSupportedError
  | _ => inr {| channelData := data; bufferRate := rate |}
  end.

(** [audioBuffer.duration], in seconds. *)
Definition duration (b : AudioBuffer) : Q :=
  (inject_Z (Z.of_nat (List.length (channelData b))) / inject_Z (bufferRate b))%Q.

End Playback.


(* ------------------------------------------------------------------ *)
(** * The interview page: state, handlers and signal sources
      (InterviewPage.jsx) *)

Module Page.

Import Channel.
Import Playback.

Local Open Scope js_scope.

(** The [status] strings. *)
Inductive Status : Type :=
| StConnecting | StConnected | StDisconnected | StError.

(** What [setWarning] was given: the server's text, or the
    [Strike n/2: kind] template. *)
Inductive WarningText : Type :=
| FromServer (message : JsVal)
| StrikeOf (strikes : JsVal) (eventType : string).

Record MediaStream : Type := { live : bool }.

Record AudioContext : Type := { sampleRate : Z }.

(** A [ScriptProcessorNode] and whether it is still connected in the
    audio graph. *)
Record Processor : Type := {
  bufferSize : nat;
  inputChannels : nat;
  outputChannels : nat;
  contextRate : Z;
  wired : bool
}.

(** A 32-bit float as stored in memory, and typed arrays of them. *)
Definition float32 : Type := (byte * byte * byte * byte)%type.

Definition Float32Array : Type := list float32.

(** [float32Array.buffer]: the underlying bytes, four per sample. *)
Definition buffer_of (a : Float32Array) : list byte :=
  flat_map (fun s => let '(b0, b1, b2, b3) := s in [b0; b1; b2; b3]) a.

(** What [onComplete] is called with.  [handleInterviewEnd] builds
    [{...result, wasTerminated, strikes}], or
    [{interview, wasTerminated, strikes}] when the request failed; the
    button of the terminated modal builds [{terminated: true, strikes}].
    [strikes] is the variable of the render that created the function. *)
Inductive Completion : Type :=
| Ended (result : Exn + Json) (wasTerminated : bool) (strikes : JsVal)
| Dismissed (strikes : JsVal).

(** What the page does to the outside world, in order. *)
Inductive Effect : Type :=
| Log (l : Level) (msg : string)
| ReportCheating (eventType : string) (confidence : Q)
| EndInterview
| Complete (data : Completion)
| SourceStart (startTime : Q) (buffer : AudioBuffer)
| PreventDefault
| ProcessorDisconnect
| TracksStop
| ContextClose
| WarningTimer.

(** React state ([useState]) and refs ([useRef]) of the component, the
    script processors it created, and the trace of its effects.

    A function of the component sees the state as it was in the render
    that created it, not as it is when the function runs.  Three groups
    of functions are alive at any time:
    - the socket callbacks, [startAudioCapture] and [playAudio] were
      created by the first render (the mount effect never runs again);
    - the listeners and the face-poll timer belong to the render whose
      effects installed them; those effects depend on [terminated]
      alone, so they are replaced only after a render in which it has
      changed.  [seenTerminated] is the [terminated] they see;
    - the handlers of the buttons belong to the last render:
      [shownStrikes] and [shownTerminated] are its [strikes] and
      [terminated].
    [detecting] counts the face detections in flight ([detect(canvas)]
    called and not yet settled) and [ending] lists the end-interview
    requests in flight, each with the argument and the [strikes] of the
    [handleInterviewEnd] call that awaits it.

    [mediaRecorderRef] holds the index in [graph] of the processor it
    refers to.  Times are milliseconds ([Date.now()]) or seconds of the
    audio clock; the audio clock and the playback cursor are rationals:
    only comparison, [max] and the addition of a positive duration are
    applied to them. *)
Record Page : Type := {
  status : Status;
  strikes : JsVal;
  warning : option WarningText;
  transcript : list JsVal;
  isRecording : bool;
  terminated : bool;
  videoRef : bool;
  wsRef : option Chan;
  streamRef : option MediaStream;
  audioContextRef : option AudioContext;
  graph : list Processor;
  mediaRecorderRef : option nat;
  nextStartTimeRef : Q;
  tabSwitchCountRef : nat;
  lastFaceDetectedRef : Z;
  faceDetectorRef : bool;
  trace : list Effect;
  shownStrikes : JsVal;
  shownTerminated : bool;
  seenTerminated : bool;
  detecting : nat;
  ending : list (bool * JsVal)
}.

Definition set_status (v : Status) (p : Page) : Page :=
  {| status := v; strikes := strikes p; warning := warning p;
     transcript := transcript p; isRecording := isRecording p;
     terminated := terminated p; videoRef := videoRef p; wsRef := wsRef p;
     streamRef := streamRef p; audioContextRef := audioContextRef p;
     graph := graph p; mediaRecorderRef := mediaRecorderRef p;
     nextStartTimeRef := nextStartTimeRef p;
     tabSwitchCountRef := tabSwitchCountRef p;
     lastFaceDetectedRef := lastFaceDetectedRef p;
     faceDetectorRef := faceDetectorRef p; trace := trace p;
     shownStrikes := shownStrikes p; shownTerminated := shownTerminated p;
     seenTerminated := seenTerminated p; detecting := detecting p;
     ending := ending p |}.

Definition set_strikes (v : JsVal) (p : Page) : Page :=
  {| status := status p; strikes := v; warning := warning p;
     transcript := transcript p; isRecording := isRecording p;
     terminated := terminated p; videoRef := videoRef p; wsRef := wsRef p;
     streamRef := streamRef p; audioContextRef := audioContextRef p;
     graph := graph p; mediaRecorderRef := mediaRecorderRef p;
     nextStartTimeRef := nextStartTimeRef p;
     tabSwitchCountRef := tabSwitchCountRef p;
     lastFaceDetectedRef := lastFaceDetectedRef p;
     faceDetectorRef := faceDetectorRef p; trace := trace p;
     shownStrikes := shownStrikes p; shownTerminated := shownTerminated p;
     seenTerminated := seenTerminated p; detecting := detecting p;
     ending := ending p |}.

Definition set_warning (v : option WarningText) (p : Page) : Page :=
  {| status := status p; strikes := strikes p; warning := v;
     transcript := transcript p; isRecording := isRecording p;
     terminated := terminated p; videoRef := videoRef p; wsRef := wsRef p;
     streamRef := streamRef p; audioContextRef := audioContextRef p;
     graph := graph p; mediaRecorderRef := mediaRecorderRef p;
     nextStartTimeRef := nextStartTimeRef p;
     tabSwitchCountRef := tabSwitchCountRef p;
     lastFaceDetectedRef := lastFaceDetectedRef p;
     faceDetectorRef := faceDetectorRef p; trace := trace p;
     shownStrikes := shownStrikes p; shownTerminated := shownTerminated p;
     seenTerminated := seenTerminated p; detecting := detecting p;
     ending := ending p |}.

Definition set_transcript (v : list JsVal) (p : Page) : Page :=
  {| status := status p; strikes := strikes p; warning := warning p;
     transcript := v; isRecording := isRecording p;
     terminated := terminated p; videoRef := videoRef p; wsRef := wsRef p;
     streamRef := streamRef p; audioContextRef := audioContextRef p;
     graph := graph p; mediaRecorderRef := mediaRecorderRef p;
     nextStartTimeRef := nextStartTimeRef p;
     tabSwitchCountRef := tabSwitchCountRef p;
     lastFaceDetectedRef := lastFaceDetectedRef p;
     faceDetectorRef := faceDetectorRef p; trace := trace p;
     shownStrikes := shownStrikes p; shownTerminated := shownTerminated p;
     seenTerminated := seenTerminated p; detecting := detecting p;
     ending := ending p |}.

Definition set_isRecording (v : bool) (p : Page) : Page :=
  {| status := status p; strikes := strikes p; warning := warning p;
     transcript := transcript p; isRecording := v;
     terminated := terminated p; videoRef := videoRef p; wsRef := wsRef p;
     streamRef := streamRef p; audioContextRef := audioContextRef p;
     graph := graph p; mediaRecorderRef := mediaRecorderRef p;
     nextStartTimeRef := nextStartTimeRef p;
     tabSwitchCountRef := tabSwitchCountRef p;
     lastFaceDetectedRef := lastFaceDetectedRef p;
     faceDetectorRef := faceDetectorRef p; trace := trace p;
     shownStrikes := shownStrikes p; shownTerminated := shownTerminated p;
     seenTerminated := seenTerminated p; detecting := detecting p;
     ending := ending p |}.

Definition set_terminated (v : bool) (p : Page) : Page :=
  {| status := status p; strikes := strikes p; warning := warning p;
     transcript := transcript p; isRecording := isRecording p;
     terminated := v; videoRef := videoRef p; wsRef := wsRef p;
     streamRef := streamRef p; audioContextRef := audioContextRef p;
     graph := graph p; mediaRecorderRef := mediaRecorderRef p;
     nextStartTimeRef := nextStartTimeRef p;
     tabSwitchCountRef := tabSwitchCountRef p;
     lastFaceDetectedRef := lastFaceDetectedRef p;
     faceDetectorRef := faceDetectorRef p; trace := trace p;
     shownStrikes := shownStrikes p; shownTerminated := shownTerminated p;
     seenTerminated := seenTerminated p; detecting := detecting p;
     ending := ending p |}.

Definition set_wsRef (v : option Chan) (p : Page) : Page :=
  {| status := status p; strikes := strikes p; warning := warning p;
     transcript := transcript p; isRecording := isRecording p;
     terminated := terminated p; videoRef := videoRef p; wsRef := v;
     streamRef := streamRef p; audioContextRef := audioContextRef p;
     graph := graph p; mediaRecorderRef := mediaRecorderRef p;
     nextStartTimeRef := nextStartTimeRef p;
     tabSwitchCountRef := tabSwitchCountRef p;
     lastFaceDetectedRef := lastFaceDetectedRef p;
     faceDetectorRef := faceDetectorRef p; trace := trace p;
     shownStrikes := shownStrikes p; shownTerminated := shownTerminated p;
     seenTerminated := seenTerminated p; detecting := detecting p;
     ending := ending p |}.

Definition set_streamRef (v : option MediaStream) (p : Page) : Page :=
  {| status := status p; strikes := strikes p; warning := warning p;
     transcript := transcript p; isRecording := isRecording p;
     terminated := terminated p; videoRef := videoRef p; wsRef := wsRef p;
     streamRef := v; audioContextRef := audioContextRef p;
     graph := graph p; mediaRecorderRef := mediaRecorderRef p;
     nextStartTimeRef := nextStartTimeRef p;
     tabSwitchCountRef := tabSwitchCountRef p;
     lastFaceDetectedRef := lastFaceDetectedRef p;
     faceDetectorRef := faceDetectorRef p; trace := trace p;
     shownStrikes := shownStrikes p; shownTerminated := shownTerminated p;
     seenTerminated := seenTerminated p; detecting := detecting p;
     ending := ending p |}.

Definition set_audioContextRef (v : option AudioContext) (p : Page) : Page :=
  {| status := status p; strikes := strikes p; warning := warning p;
     transcript := transcript p; isRecording := isRecording p;
     terminated := terminated p; videoRef := videoRef p; wsRef := wsRef p;
     streamRef := streamRef p; audioContextRef := v; graph := graph p;
     mediaRecorderRef := mediaRecorderRef p;
     nextStartTimeRef := nextStartTimeRef p;
     tabSwitchCountRef := tabSwitchCountRef p;
     lastFaceDetectedRef := lastFaceDetectedRef p;
     faceDetectorRef := faceDetectorRef p; trace := trace p;
     shownStrikes := shownStrikes p; shownTerminated := shownTerminated p;
     seenTerminated := seenTerminated p; detecting := detecting p;
     ending := ending p |}.

Definition set_graph (v : list Processor) (p : Page) : Page :=
  {| status := status p; strikes := strikes p; warning := warning p;
     transcript := transcript p; isRecording := isRecording p;
     terminated := terminated p; videoRef := videoRef p; wsRef := wsRef p;
     streamRef := streamRef p; audioContextRef := audioContextRef p;
     graph := v; mediaRecorderRef := mediaRecorderRef p;
     nextStartTimeRef := nextStartTimeRef p;
     tabSwitchCountRef := tabSwitchCountRef p;
     lastFaceDetectedRef := lastFaceDetectedRef p;
     faceDetectorRef := faceDetectorRef p; trace := trace p;
     shownStrikes := shownStrikes p; shownTerminated := shownTerminated p;
     seenTerminated := seenTerminated p; detecting := detecting p;
     ending := ending p |}.

Definition set_mediaRecorderRef (v : option nat) (p : Page) : Page :=
  {| status := status p; strikes := strikes p; warning := warning p;
     transcript := transcript p; isRecording := isRecording p;
     terminated := terminated p; videoRef := videoRef p; wsRef := wsRef p;
     streamRef := streamRef p; audioContextRef := audioContextRef p;
     graph := graph p; mediaRecorderRef := v;
     nextStartTimeRef := nextStartTimeRef p;
     tabSwitchCountRef := tabSwitchCountRef p;
     lastFaceDetectedRef := lastFaceDetectedRef p;
     faceDetectorRef := faceDetectorRef p; trace := trace p;
     shownStrikes := shownStrikes p; shownTerminated := shownTerminated p;
     seenTerminated := seenTerminated p; detecting := detecting p;
     ending := ending p |}.

Definition set_nextStartTimeRef (v : Q) (p : Page) : Page :=
  {| status := status p; strikes := strikes p; warning := warning p;
     transcript := transcript p; isRecording := isRecording p;
     terminated := terminated p; videoRef := videoRef p; wsRef := wsRef p;
     streamRef := streamRef p; audioContextRef := audioContextRef p;
     graph := graph p; mediaRecorderRef := mediaRecorderRef p;
     nextStartTimeRef := v; tabSwitchCountRef := tabSwitchCountRef p;
     lastFaceDetectedRef := lastFaceDetectedRef p;
     faceDetectorRef := faceDetectorRef p; trace := trace p;
     shownStrikes := shownStrikes p; shownTerminated := shownTerminated p;
     seenTerminated := seenTerminated p; detecting := detecting p;
     ending := ending p |}.

Definition set_tabSwitchCountRef (v : nat) (p : Page) : Page :=
  {| status := status p; strikes := strikes p; warning := warning p;
     transcript := transcript p; isRecording := isRecording p;
     terminated := terminated p; videoRef := videoRef p; wsRef := wsRef p;
     streamRef := streamRef p; audioContextRef := audioContextRef p;
     graph := graph p; mediaRecorderRef := mediaRecorderRef p;
     nextStartTimeRef := nextStartTimeRef p; tabSwitchCountRef := v;
     lastFaceDetectedRef := lastFaceDetectedRef p;
     faceDetectorRef := faceDetectorRef p; trace := trace p;
     shownStrikes := shownStrikes p; shownTerminated := shownTerminated p;
     seenTerminated := seenTerminated p; detecting := detecting p;
     ending := ending p |}.

Definition set_lastFaceDetectedRef (v : Z) (p : Page) : Page :=
  {| status := status p; strikes := strikes p; warning := warning p;
     transcript := transcript p; isRecording := isRecording p;
     terminated := terminated p; videoRef := videoRef p; wsRef := wsRef p;
     streamRef := streamRef p; audioContextRef := audioContextRef p;
     graph := graph p; mediaRecorderRef := mediaRecorderRef p;
     nextStartTimeRef := nextStartTimeRef p;
     tabSwitchCountRef := tabSwitchCountRef p; lastFaceDetectedRef := v;
     faceDetectorRef := faceDetectorRef p; trace := trace p;
     shownStrikes := shownStrikes p; shownTerminated := shownTerminated p;
     seenTerminated := seenTerminated p; detecting := detecting p;
     ending := ending p |}.

Definition set_trace (v : list Effect) (p : Page) : Page :=
  {| status := status p; strikes := strikes p; warning := warning p;
     transcript := transcript p; isRecording := isRecording p;
     terminated := terminated p; videoRef := videoRef p; wsRef := wsRef p;
     streamRef := streamRef p; audioContextRef := audioContextRef p;
     graph := graph p; mediaRecorderRef := mediaRecorderRef p;
     nextStartTimeRef := nextStartTimeRef p;
     tabSwitchCountRef := tabSwitchCountRef p;
     lastFaceDetectedRef := lastFaceDetectedRef p;
     faceDetectorRef := faceDetectorRef p; trace := v;
     shownStrikes := shownStrikes p; shownTerminated := shownTerminated p;
     seenTerminated := seenTerminated p; detecting := detecting p;
     ending := ending p |}.

Definition set_shownStrikes (v : JsVal) (p : Page) : Page :=
  {| status := status p; strikes := strikes p; warning := warning p;
     transcript := transcript p; isRecording := isRecording p;
     terminated := terminated p; videoRef := videoRef p; wsRef := wsRef p;
     streamRef := streamRef p; audioContextRef := audioContextRef p;
     graph := graph p; mediaRecorderRef := mediaRecorderRef p;
     nextStartTimeRef := nextStartTimeRef p;
     tabSwitchCountRef := tabSwitchCountRef p;
     lastFaceDetectedRef := lastFaceDetectedRef p;
     faceDetectorRef := faceDetectorRef p; trace := trace p;
     shownStrikes := v; shownTerminated := shownTerminated p;
     seenTerminated := seenTerminated p; detecting := detecting p;
     ending := ending p |}.

Definition set_shownTerminated (v : bool) (p : Page) : Page :=
  {| status := status p; strikes := strikes p; warning := warning p;
     transcript := transcript p; isRecording := isRecording p;
     terminated := terminated p; videoRef := videoRef p; wsRef := wsRef p;
     streamRef := streamRef p; audioContextRef := audioContextRef p;
     graph := graph p; mediaRecorderRef := mediaRecorderRef p;
     nextStartTimeRef := nextStartTimeRef p;
     tabSwitchCountRef := tabSwitchCountRef p;
     lastFaceDetectedRef := lastFaceDetectedRef p;
     faceDetectorRef := faceDetectorRef p; trace := trace p;
     shownStrikes := shownStrikes p; shownTerminated := v;
     seenTerminated := seenTerminated p; detecting := detecting p;
     ending := ending p |}.

Definition set_seenTerminated (v : bool) (p : Page) : Page :=
  {| status := status p; strikes := strikes p; warning := warning p;
     transcript := transcript p; isRecording := isRecording p;
     terminated := terminated p; videoRef := videoRef p; wsRef := wsRef p;
     streamRef := streamRef p; audioContextRef := audioContextRef p;
     graph := graph p; mediaRecorderRef := mediaRecorderRef p;
     nextStartTimeRef := nextStartTimeRef p;
     tabSwitchCountRef := tabSwitchCountRef p;
     lastFaceDetectedRef := lastFaceDetectedRef p;
     faceDetectorRef := faceDetectorRef p; trace := trace p;
     shownStrikes := shownStrikes p; shownTerminated := shownTerminated p;
     seenTerminated := v; detecting := detecting p; ending := ending p |}.

Definition set_detecting (v : nat) (p : Page) : Page :=
  {| status := status p; strikes := strikes p; warning := warning p;
     transcript := transcript p; isRecording := isRecording p;
     terminated := terminated p; videoRef := videoRef p; wsRef := wsRef p;
     streamRef := streamRef p; audioContextRef := audioContextRef p;
     graph := graph p; mediaRecorderRef := mediaRecorderRef p;
     nextStartTimeRef := nextStartTimeRef p;
     tabSwitchCountRef := tabSwitchCountRef p;
     lastFaceDetectedRef := lastFaceDetectedRef p;
     faceDetectorRef := faceDetectorRef p; trace := trace p;
     shownStrikes := shownStrikes p; shownTerminated := shownTerminated p;
     seenTerminated := seenTerminated p; detecting := v; ending := ending p |}.

Definition set_ending (v : list (bool * JsVal)) (p : Page) : Page :=
  {| status := status p; strikes := strikes p; warning := warning p;
     transcript := transcript p; isRecording := isRecording p;
     terminated := terminated p; videoRef := videoRef p; wsRef := wsRef p;
     streamRef := streamRef p; audioContextRef := audioContextRef p;
     graph := graph p; mediaRecorderRef := mediaRecorderRef p;
     nextStartTimeRef := nextStartTimeRef p;
     tabSwitchCountRef := tabSwitchCountRef p;
     lastFaceDetectedRef := lastFaceDetectedRef p;
     faceDetectorRef := faceDetectorRef p; trace := trace p;
     shownStrikes := shownStrikes p; shownTerminated := shownTerminated p;
     seenTerminated := seenTerminated p; detecting := detecting p;
     ending := v |}.

Definition read {A} (f : Page -> A) : M Page A := fun p => (p, inr (f p)).

Definition emit (e : Effect) : M Page unit :=
  modify (fun p => set_trace (trace p ++ [e]) p).

Definition say (l : Level) (msg : string) : M Page unit := emit (Log l msg).

(** Run a channel operation on [wsRef.current], when there is one. *)
Definition on_ws (op : M Chan unit) : M Page unit :=
  fun p => match wsRef p with
           | None => (p, inr tt)
           | Some c => let (c', r) := op c in (set_wsRef (Some c') p, r)
           end.

(** The page as the owner of its socket. *)
#[export] Instance page_world : World Page :=
  {| socket_of := wsRef; put_socket := fun c => set_wsRef (Some c) |}.

Definition Qlt_bool (a b : Q) : bool := negb (Qle_bool b a).

(** [useState(0)]: the [strikes] of the first render. *)
Definition initial_strikes : JsVal := Some (JNum 0).

(** The component's first render and its mount effects:
    [initializeMedia()] is started (it settles later), [connectWebSocket()]
    opens the socket, and the face detector is created when the runtime
    has one. *)
Definition mount (now : Z) (hasFaceDetector : bool) : Page :=
  {| status := StConnecting; strikes := initial_strikes; warning := None;
     transcript := []; isRecording := false; terminated := false;
     videoRef := true; wsRef := Some connect; streamRef := None;
     audioContextRef := None; graph := []; mediaRecorderRef := None;
     nextStartTimeRef := 0; tabSwitchCountRef := 0;
     lastFaceDetectedRef := now; faceDetectorRef := hasFaceDetector;
     trace := [if hasFaceDetector
               then Log LLog "Face detection initialized"
               else Log LWarn "FaceDetector API not available in this browser"];
     shownStrikes := initial_strikes; shownTerminated := false;
     seenTerminated := false; detecting := 0; ending := []
  |}.

(** ** Audio capture *)

Definition startAudioCapture : M Page unit :=
  st <- read streamRef ;;
  ac <- read audioContextRef ;;
  match st, ac with
  | Some _, Some audioContext =>
      g <- read graph ;;
      modify (set_graph
                (g ++ [{| bufferSize := 4096; inputChannels := 1;
                          outputChannels := 1;
                          contextRate := sampleRate audioContext;
                          wired := true |}])) ;;;
      modify (set_mediaRecorderRef (Some (List.length g))) ;;;
      modify (set_isRecording true) ;;;
      say LLog "Audio capture started successfully"
  | _, _ => say LError "Cannot start audio capture: missing stream or context"
  end.

(** [scriptProcessor.onaudioprocess]: channel 0 of the input buffer is
    copied into a fresh [Float32Array] whose bytes go to [sendAudio]. *)
Definition onaudioprocess (inputBuffer : list Float32Array) : M Page unit :=
  ws <- read wsRef ;;
  match ws with
  | None => ret tt
  | Some _ =>
      inputData <- lift (match inputBuffer with
                         | ch0 :: _ => inr ch0
                         | [] => inl IndexSizeError
                         end) ;;
      on_ws (sendAudio (buffer_of inputData))
  end.

(** The platform calls [onaudioprocess] of a connected processor with a
    buffer of [inputChannels] channels of [bufferSize] samples each. *)
Definition delivers (pr : Processor) (inputBuffer : list Float32Array) : bool :=
  wired pr
  && Nat.eqb (List.length inputBuffer) (inputChannels pr)
  && forallb (fun ch => Nat.eqb (List.length ch) (bufferSize pr)) inputBuffer.

(** ** Playback *)

Definition playAudio (arrayBuffer : list byte) (currentTime : Q) : M Page unit :=
  try_catch
    (ac <- read audioContextRef ;;
     let audioContext :=
       match ac with Some c => c | None => {| sampleRate := 24000 |} end in
     modify (set_audioContextRef (Some audioContext)) ;;;
     float32Data <- lift (pcm16_to_float32 arrayBuffer) ;;
     audioBuffer <- lift (createBuffer float32Data 24000) ;;
     next <- read nextStartTimeRef ;;
     let startTime := Qmax currentTime next in
     emit (SourceStart startTime audioBuffer) ;;;
     modify (set_nextStartTimeRef (startTime + duration audioBuffer)%Q) ;;;
     next' <- read nextStartTimeRef ;;
     if Qlt_bool next' currentTime
     then modify (set_nextStartTimeRef currentTime)
     else ret tt)
    (fun _ => say LError "Failed to play audio:").

(** ** Teardown *)

Fixpoint unwire (i : nat) (g : list Processor) : list Processor :=
  match g, i with
  | [], _ => []
  | pr :: rest, O =>
      {| bufferSize := bufferSize pr; inputChannels := inputChannels pr;
         outputChannels := outputChannels pr; contextRate := contextRate pr;
         wired := false |} :: rest
  | pr :: rest, S i' => pr :: unwire i' rest
  end.

Definition cleanup : M Page unit :=
  (mr <- read mediaRecorderRef ;;
   match mr with
   | Some i =>
       modify (fun p => set_graph (unwire i (graph p)) p) ;;;
       emit ProcessorDisconnect
   | None => ret tt
   end) ;;;
  on_ws close ;;;
  (st <- read streamRef ;;
   match st with
   | Some _ => modify (set_streamRef (Some {| live := false |})) ;;; emit TracksStop
   | None => ret tt
   end) ;;;
  (ac <- read audioContextRef ;;
   match ac with
   | Some _ => emit ContextClose
   | None => ret tt
   end).

(** [handleInterviewEnd] up to its [await]: teardown, then the
    end-interview request.  [strikes] is the variable the function closes
    over, the [strikes] of the render that created it; the rest of the
    function runs when the request settles. *)
Definition handleInterviewEnd (strikes : JsVal) (wasTerminated : bool)
  : M Page unit :=
  cleanup ;;;
  emit EndInterview ;;;
  modify (fun p => set_ending (ending p ++ [(wasTerminated, strikes)]) p).

(** [handleInterviewEnd] after [await endInterview(...)]: [onComplete] is
    called on both the success and the failure path. *)
Definition endInterview_settled (strikes : JsVal) (wasTerminated : bool)
  (r : Exn + Json) : M Page unit :=
  match r with
  | inr _ => emit (Complete (Ended r wasTerminated strikes))
  | inl _ =>
      say LError "Failed to end interview:" ;;;
      emit (Complete (Ended r wasTerminated strikes))
  end.

(** ** Signal sources *)

(** [handleCheatingDetection] up to its [await]: the report request. *)
Definition handleCheatingDetection (eventType : string) (confidence : Q)
  : M Page unit :=
  say LLog "Reporting cheating:" ;;; emit (ReportCheating eventType confidence).

(** [handleCheatingDetection] after [await reportCheating(...)].

    Only a listener or a poll that sees [terminated] as false calls
    [handleCheatingDetection], and the only render with such listeners
    is the first one (the flag is never reset and the listeners are
    replaced only when it changes).  So this is always the first
    render's function, and the [handleInterviewEnd] it calls is the one
    that closes over the first render's [strikes]. *)
Definition reportCheating_settled (eventType : string) (r : Exn + Json)
  : M Page unit :=
  try_catch
    (result <- lift r ;;
     s <- lift (get_prop result "strikes") ;;
     (if truthy s then
        modify (set_strikes s) ;;;
        wm <- lift (get_prop result "warning_message") ;;
        modify (set_warning
                  (Some (if truthy wm then FromServer wm
                         else StrikeOf s eventType))) ;;;
        emit WarningTimer
      else ret tt) ;;;
     t <- lift (get_prop result "terminated") ;;
     if truthy t
     then modify (set_terminated true) ;;; handleInterviewEnd initial_strikes true
     else ret tt)
    (fun _ => say LError "Cheating report error:").

(** The listeners read the [terminated] of their own render. *)
Definition handleVisibilityChange (hidden : bool) : M Page unit :=
  t <- read seenTerminated ;;
  if hidden && negb t then
    say LWarn "CHEATING: Tab switched or window minimized" ;;;
    modify (fun p => set_tabSwitchCountRef (S (tabSwitchCountRef p)) p) ;;;
    handleCheatingDetection "tab_switch" 1
  else ret tt.

Definition handleBlur : M Page unit :=
  t <- read seenTerminated ;;
  if negb t then
    say LWarn "CHEATING: Window lost focus" ;;;
    handleCheatingDetection "window_blur" 0.85
  else ret tt.

(** What [faceDetectorRef.current.detect(canvas)] settled with. *)
Inductive Detection : Type :=
| Faces (n : nat)
| DetectionFailed.

(** The guard at the top of [detectFace]: true when it returns at once.
    It is evaluated when the timer fires, before the detection is
    started. *)
Definition detectFace_returns : M Page bool :=
  v <- read videoRef ;;
  f <- read faceDetectorRef ;;
  t <- read seenTerminated ;;
  ret (negb v || negb f || t).

(** [detectFace] after [await faceDetectorRef.current.detect(canvas)];
    nothing is checked again.  [now] is the first [Date.now()] it reads
    and [now'] the second one, read after a no-face report. *)
Definition detectFace_settled (d : Detection) (now now' : Z) : M Page unit :=
  try_catch
    (faces <- lift (match d with
                    | Faces n => inr n
                    | DetectionFailed => inl DetectionError
                    end) ;;
     match faces with
     | O =>
         last <- read lastFaceDetectedRef ;;
         let timeSinceLastFace := (now - last)%Z in
         if (timeSinceLastFace >? 3000)%Z then
           say LWarn "CHEATING: No face detected" ;;;
           handleCheatingDetection "no_face" 0.8 ;;;
           modify (set_lastFaceDetectedRef now')
         else ret tt
     | S O => modify (set_lastFaceDetectedRef now)
     | S (S _) =>
         say LWarn "CHEATING: Multiple faces detected" ;;;
         handleCheatingDetection "multiple_faces" 0.9
     end)
    (fun _ => say LDebug "Face detection error:").

(** [detectFace] when the detection settles before anything else
    happens. *)
Definition detectFace (d : Detection) (now now' : Z) : M Page unit :=
  returns <- detectFace_returns ;;
  if returns then ret tt else detectFace_settled d now now'.

(** [detectFace] up to its [await]: the detection is left in flight. *)
Definition detectFace_started : M Page unit :=
  returns <- detectFace_returns ;;
  if returns then ret tt
  else modify (fun p => set_detecting (S (detecting p)) p).

(** A detection in flight settles. *)
Definition detectFace_resumed (d : Detection) (now now' : Z) : M Page unit :=
  n <- read detecting ;;
  match n with
  | O => ret tt
  | S n' => modify (set_detecting n') ;;; detectFace_settled d now now'
  end.

Definition handleContextMenu : M Page unit :=
  t <- read seenTerminated ;;
  if negb t then
    emit PreventDefault ;;;
    say LWarn "CHEATING: Right-click attempt" ;;;
    handleCheatingDetection "right_click" 0.65
  else ret tt.

Definition handleCopy : M Page unit :=
  t <- read seenTerminated ;;
  if negb t then
    emit PreventDefault ;;;
    say LWarn "CHEATING: Copy attempt" ;;;
    handleCheatingDetection "copy_attempt" 0.7
  else ret tt.

(** ** Rendering *)

(** [line.text.substring(0, 20)] in the transcript list: anything but a
    string throws. *)
Definition text_renders (text : JsVal) : bool :=
  match text with
  | Some (JStr _) => true
  | _ => false
  end.

(** A value as a React child: an object is refused, an array is rendered
    element by element. *)
Fixpoint child_renders (v : Json) : bool :=
  match v with
  | JObj _ => false
  | JArr items => forallb child_renders items
  | _ => true
  end.

(** [{warning && <div ...>{warning}</div>}] *)
Definition warning_renders (w : option WarningText) : bool :=
  match w with
  | Some (FromServer (Some v)) => child_renders v
  | _ => true
  end.

(** The component function returns without throwing. *)
Definition renders (p : Page) : bool :=
  forallb text_renders (transcript p) && warning_renders (warning p).

(** The effects that depend on [terminated] run again after a render in
    which it has changed: the listeners and the timer of the render
    before are removed and those of the last render installed. *)
Definition effects : M Page unit :=
  modify (fun p => set_seenTerminated (shownTerminated p) p).

(** The component is unmounted: the mount effect's cleanup runs. *)
Definition unmount : M Page unit := cleanup.

(** React renders the component again.  The effects of the render before
    are run first if they are still due.  A render that throws is not
    shown: there is no error boundary, so React unmounts the component. *)
Definition render : M Page unit :=
  effects ;;;
  ok <- read renders ;;
  if ok then
    modify (fun p => set_shownStrikes (strikes p) p) ;;;
    modify (fun p => set_shownTerminated (terminated p) p)
  else unmount.

(** ** The socket callbacks of [connectWebSocket] and the event loop *)

(** The body of each callback handed to [createInterviewWebSocket]; they
    are the first render's.  [onAudio] only starts reading the blob;
    [playAudio] runs when the read settles. *)
Definition callback (i : Invocation) : M Page unit :=
  match i with
  | OnConnected _ => modify (set_status StConnected) ;;; startAudioCapture
  | OnTranscript text =>
      modify (fun p => set_transcript (transcript p ++ [text]) p)
  | OnAudio _ => ret tt
  | OnWarning data =>
      s <- lift (get_prop data "strikes") ;;
      modify (set_strikes s) ;;;
      m <- lift (get_prop data "message") ;;
      modify (set_warning (Some (FromServer m))) ;;;
      emit WarningTimer
  | OnTerminated data =>
      modify (set_terminated true) ;;;
      s <- lift (get_prop data "strikes") ;;
      modify (set_strikes s) ;;;
      handleInterviewEnd initial_strikes true
  | OnError _ => say LError "WebSocket error:"
  | OnDisconnected _ => modify (set_status StDisconnected)
  end.

(** The object literal of [connectWebSocket]. *)
Definition connectWebSocket : Callbacks Page :=
  {| onConnected := Some (fun data => callback (OnConnected data));
     onAudio := Some (fun blob => callback (OnAudio blob));
     onTranscript := Some (fun text => callback (OnTranscript text));
     onWarning := Some (fun data => callback (OnWarning data));
     onTerminated := Some (fun data => callback (OnTerminated data));
     onError := Some (fun message => callback (OnError message));
     onDisconnected := Some (fun code => callback (OnDisconnected code)) |}.

(** Everything that can happen to the mounted page. *)
Inductive Event : Type :=
| MediaGranted                       (* getUserMedia resolved *)
| MediaDenied                        (* getUserMedia rejected *)
| Socket (ev : WsEvent)
| AudioReady (arrayBuffer : list byte) (currentTime : Q)
| AudioProcess (i : nat) (inputBuffer : list Float32Array)
| VisibilityChange (hidden : bool)
| Blur
| ContextMenu
| Copy
| FacePoll (d : Detection) (now now' : Z)   (* a poll that settles at once *)
| FaceTick                           (* the poll timer fires *)
| FaceSettled (d : Detection) (now now' : Z) (* a detection in flight settles *)
| ReportSettled (eventType : string) (r : Exn + Json)
| EndSettled (i : nat) (r : Exn + Json)  (* the i-th request in flight *)
| EndButton                          (* the End Interview button *)
| ReturnHome                         (* the button of the terminated modal *)
| WarningExpired                     (* a 5 s warning timer fired *)
| Render                             (* React renders the component again *)
| Effects                            (* the effects of the last render run *)
| Unmount.

Section EventLoop.

(** [JSON.parse]; [None] when it throws. *)
Variable JSON_parse : string -> option Json.

(** A socket event: the channel's handler runs, with the page's
    callbacks, on [wsRef.current]. *)
Definition socket_event (ev : WsEvent) : M Page unit :=
  fire JSON_parse connectWebSocket ev.

Definition step (e : Event) : M Page unit :=
  match e with
  | MediaGranted =>
      (* the rest of [initializeMedia]; [new AudioContext] succeeds *)
      modify (set_streamRef (Some {| live := true |})) ;;;
      modify (set_audioContextRef (Some {| sampleRate := 16000 |}))
  | MediaDenied =>
      say LError "Failed to access media devices:" ;;;
      modify (set_status StError)
  | Socket ev => socket_event ev
  | AudioReady arrayBuffer currentTime => playAudio arrayBuffer currentTime
  | AudioProcess i inputBuffer =>
      g <- read graph ;;
      match nth_error g i with
      | Some pr =>
          if delivers pr inputBuffer then onaudioprocess inputBuffer else ret tt
      | None => ret tt
      end
  | VisibilityChange hidden => handleVisibilityChange hidden
  | Blur => handleBlur
  | ContextMenu => handleContextMenu
  | Copy => handleCopy
  | FacePoll d now now' => detectFace d now now'
  | FaceTick => detectFace_started
  | FaceSettled d now now' => detectFace_resumed d now now'
  | ReportSettled eventType r => reportCheating_settled eventType r
  | EndSettled i r =>
      pending <- read ending ;;
      match nth_error pending i with
      | Some (wasTerminated, strikes) =>
          modify (set_ending (firstn i pending ++ skipn (S i) pending)) ;;;
          endInterview_settled strikes wasTerminated r
      | None => ret tt
      end
  | EndButton =>
      (* [onClick={() => handleInterviewEnd(false)}] of the last render *)
      s <- read shownStrikes ;;
      handleInterviewEnd s false
  | ReturnHome =>
      (* the modal exists when the last render saw [terminated] *)
      t <- read shownTerminated ;;
      if t then
        s <- read shownStrikes ;;
        emit (Complete (Dismissed s))
      else ret tt
  | WarningExpired => modify (set_warning None)
  | Render => render
  | Effects => effects
  | Unmount => unmount
  end.

(** One turn of the event loop; an exception that escapes a handler is
    reported by the runtime and the page carries on. *)
Definition exec (e : Event) (p : Page) : Page := fst (step e p).

Definition run (evs : list Event) (p : Page) : Page :=
  fold_left (fun q e => exec e q) evs p.

End EventLoop.

(** ** Observations on a trace *)

Definition is_report (e : Effect) : bool :=
  match e with ReportCheating _ _ => true | _ => false end.

Definition is_end_request (e : Effect) : bool :=
  match e with EndInterview => true | _ => false end.

Definition reports (t : list Effect) : list Effect := filter is_report t.

Definition end_requests (t : list Effect) : nat :=
  List.length (filter is_end_request t).

Fixpoint scheduled (t : list Effect) : list (Q * Q) :=
  match t with
  | [] => []
  | SourceStart startTime b :: rest =>
      (startTime, (startTime + duration b)%Q) :: scheduled rest
  | _ :: rest => scheduled rest
  end.

(** What reaches the five signal sources: the four listeners and the
    poll timer. *)
Definition is_signal (e : Event) : bool :=
  match e with
  | VisibilityChange _ | Blur | ContextMenu | Copy
  | FacePoll _ _ _ | FaceTick => true
  | _ => false
  end.

End Page.



(* ------------------------------------------------------------------ *)
(** * Vocabulary of the statements *)

Import Channel Playback Page.

(** The [type] of a parsed control message, when it has a string one. *)
Definition parsed_type (data : Json) : option string :=
  match get_prop data "type" with
  | inr (Some (JStr t)) => Some t
  | _ => None
  end.

(** A text message that is not valid JSON, or whose parsed type is not
    one of the five control types. *)
Definition unrecognised (JSON_parse : string -> option Json) (s : string)
  : Prop :=
  match JSON_parse s with
  | None => True
  | Some data =>
      match parsed_type data with
      | Some t => ~ In t known_types
      | None => True
      end
  end.

Definition quote : string := String (ascii_of_nat 34) EmptyString.

(** The text [{"type":"ping"}]. *)
Definition ping_text : string :=
  "{" ++ quote ++ "type" ++ quote ++ ":" ++ quote ++ "ping" ++ quote ++ "}".

(** The text [{"type":"terminated","strikes":2}]. *)
Definition terminated_text : string :=
  "{" ++ quote ++ "type" ++ quote ++ ":" ++ quote ++ "terminated" ++ quote
      ++ "," ++ quote ++ "strikes" ++ quote ++ ":2}".

(** [JSON.parse] restricted to the two texts above; everything else is
    rejected.  Used to run the handlers on concrete messages. *)
Definition sample_parse (s : string) : option Json :=
  if String.eqb s ping_text then Some (JObj [("type", JStr "ping")])
  else if String.eqb s terminated_text then
    Some (JObj [("type", JStr "terminated"); ("strikes", JNum 2)])
  else None.

Definition sample_stringify (v : Json) : string := "{}".

(** Callbacks for a socket on its own, all of them supplied: each one
    closes the socket, so a callback that has run leaves its mark. *)
Definition all_callbacks : Callbacks Chan :=
  {| onConnected := Some (fun _ => close);
     onAudio := Some (fun _ => close);
     onTranscript := Some (fun _ => close);
     onWarning := Some (fun _ => close);
     onTerminated := Some (fun _ => close);
     onError := Some (fun _ => close);
     onDisconnected := Some (fun _ => close) |}.

(** Callbacks for a socket on its own that all throw [e]. *)
Definition throwing (e : Exn) : Callbacks Chan :=
  {| onConnected := Some (fun _ => throw e);
     onAudio := Some (fun _ => throw e);
     onTranscript := Some (fun _ => throw e);
     onWarning := Some (fun _ => throw e);
     onTerminated := Some (fun _ => throw e);
     onError := Some (fun _ => throw e);
     onDisconnected := Some (fun _ => throw e) |}.

(** A frame offered to the channel is accounted for when it was handed to
    the network or the console gained an entry.  (The channel keeps no
    queue of its own: [Chan] has nowhere else to hold a frame.) *)
Definition accounted_for (frame : list byte) (before after : Chan) : Prop :=
  In (Binary frame) (wire after)
  \/ (List.length (console before) < List.length (console after))%nat.

(** Some script processor is still connected, so [onaudioprocess] keeps
    being called. *)
Definition capturing (p : Page) : bool := existsb wired (graph p).

(** The frames handed to the network so far. *)
Definition sent (p : Page) : list WsData :=
  match wsRef p with
  | Some c => wire c
  | None => []
  end.

Definition socket_state (p : Page) : option ReadyState :=
  option_map readyState (wsRef p).

(** An outbound frame of 4096 32-bit samples. *)
Definition pcm_frame (d : WsData) : Prop :=
  exists samples : Float32Array,
    d = Binary (buffer_of samples) /\ List.length samples = 4096%nat.

(** A script processor as [startAudioCapture] must have created it for
    the wire format: 4096 frames, one input channel, a 16 kHz context. *)
Definition capture_format (pr : Processor) : Prop :=
  bufferSize pr = 4096%nat /\ inputChannels pr = 1%nat
  /\ contextRate pr = 16000%Z.

(** A report response that asks for termination. *)
Definition terminal_report (result : Json) : bool :=
  match get_prop result "terminated" with
  | inr t => truthy t
  | inl _ => false
  end.

(** The teardown triggers that do not depend on the socket: the End
    Interview button and a cheating report answered with [terminated]. *)
Definition direct_trigger (e : Event) : bool :=
  match e with
  | EndButton => true
  | ReportSettled _ (inr result) => terminal_report result
  | _ => false
  end.

Definition terminal_trigger (e : Event) : bool :=
  match e with
  | ReportSettled _ (inr result) => terminal_report result
  | _ => false
  end.

(** The response [{strikes: 2, terminated: true}]. *)
Definition second_strike : Json :=
  JObj [("strikes", JNum 2); ("terminated", JBool true)].

(** Two scheduled frames, the first of which ends no later than the
    second starts. *)
Definition before (f g : Q * Q) : Prop := snd f <= fst g.

(** A recording page whose socket is open: the state after media access
    was granted and the socket opened. *)
Definition recording_page : Page :=
  run sample_parse [MediaGranted; Socket EvOpen] (mount 0 true).

(** A handler keeps a relation between the store before and after it,
    whether it returns or throws. *)
Definition keeps {S A : Type} (R : S -> S -> Prop) (m : M S A) (s : S)
  : Prop :=
  R s (fst (m s)).

Definition preserves {S A : Type} (R : S -> S -> Prop) (m : M S A) : Prop :=
  forall s, keeps R m s.

(** The relations that are tracked along the event loop. *)

(** A set [terminated] flag stays set. *)
Definition stays_terminated (p q : Page) : Prop :=
  terminated p = true -> terminated q = true.

(** The terminated state has been rendered and the effects of that
    render have run: the listeners and the poll timer are those of a
    render that saw [terminated] set. *)
Definition rebound (p : Page) : Prop :=
  terminated p = true /\ shownTerminated p = true /\ seenTerminated p = true.

Definition stays_rebound (p q : Page) : Prop := rebound p -> rebound q.

(** The response [{strikes: 3, terminated: true}]. *)
Definition third_strike : Json :=
  JObj [("strikes", JNum 3); ("terminated", JBool true)].

(** The playback schedule and its cursor are left alone. *)
Definition same_schedule (p q : Page) : Prop :=
  scheduled (trace q) = scheduled (trace p)
  /\ nextStartTimeRef q = nextStartTimeRef p.

(** A socket that has closed stays closed and transmits nothing more. *)
Definition stays_closed (p q : Page) : Prop :=
  socket_state p = Some CLOSED ->
  socket_state q = Some CLOSED /\ sent q = sent p.

(** The capture side is left as it is. *)
Definition same_capture (p q : Page) : Prop :=
  graph q = graph p /\ isRecording q = isRecording p.

Definition is_audio_ready (e : Event) : bool :=
  match e with AudioReady _ _ => true | _ => false end.

Definition not_audio_ready (e : Event) : bool := negb (is_audio_ready e).

(** The state of the playback schedule that every reachable page has:
    scheduled frames do not overlap, and all of them end by the cursor. *)
Definition schedule_ok (p : Page) : Prop :=
  ForallOrdPairs before (scheduled (trace p))
  /\ Forall (fun f => snd f <= nextStartTimeRef p) (scheduled (trace p)).

(** The state of the capture side that every reachable page has: a media
    stream only ever exists next to the 16 kHz context, every script
    processor has the capture format, and only PCM frames were sent. *)
Definition capture_ok (p : Page) : Prop :=
  (streamRef p = None \/ audioContextRef p = Some {| sampleRate := 16000 |})
  /\ Forall capture_format (graph p)
  /\ Forall pcm_frame (sent p).

Definition keeps_capture_ok (p q : Page) : Prop :=
  capture_ok p -> capture_ok q.

(** A handler that always returns normally, issues no end-interview
    request and leaves the [terminated] flag alone. *)
Definition quiet (m : M Page unit) : Prop :=
  forall p, exists q,
    m p = (q, inr tt)
    /\ end_requests (trace q) = end_requests (trace p)
    /\ terminated q = terminated p.


(* ------------------------------------------------------------------ *)
(** * Further vocabulary: the event loop *)

Local Open Scope list_scope.

(** The socket has been closed from this side or has closed. *)
Definition shut (p : Page) : bool :=
  match socket_state p with
  | Some CLOSING | Some CLOSED => true
  | _ => false
  end.

Definition stays_shut (p q : Page) : Prop :=
  shut p = true -> shut q = true /\ sent q = sent p.

(** The calls [cleanup] makes on the audio graph, the tracks and the
    audio context. *)
Definition is_teardown (e : Effect) : bool :=
  match e with
  | ProcessorDisconnect | TracksStop | ContextClose => true
  | _ => false
  end.

Definition teardown_effects (t : list Effect) : list Effect :=
  filter is_teardown t.

(** What one run of [cleanup] does to the outside world on this page. *)
Definition cleanup_effects (p : Page) : list Effect :=
  (match mediaRecorderRef p with Some _ => [ProcessorDisconnect] | None => [] end)
  ++ (match streamRef p with Some _ => [TracksStop] | None => [] end)
  ++ (match audioContextRef p with Some _ => [ContextClose] | None => [] end).

(** The state [cleanup] leaves behind: the socket closing or closed, the
    processor that [mediaRecorderRef] points to disconnected, the tracks
    stopped. *)
Definition torn_down (p : Page) : Prop :=
  (wsRef p = None \/ shut p = true)
  /\ (forall i pr,
        mediaRecorderRef p = Some i -> nth_error (graph p) i = Some pr ->
        wired pr = false)
  /\ (streamRef p = None \/ streamRef p = Some {| live := false |}).

(** The request a teardown trigger leaves in flight: its [wasTerminated]
    argument and the [strikes] its [handleInterviewEnd] closes over. *)
Definition request_of (p : Page) (e : Event) : bool * JsVal :=
  if terminal_trigger e then (true, initial_strikes)
  else (false, shownStrikes p).

(** The kinds the signal sources report, each with the confidence its
    source hard-codes. *)
Definition report_table : list (string * Q) :=
  [("tab_switch", 1); ("window_blur", 0.85); ("no_face", 0.8);
   ("multiple_faces", 0.9); ("right_click", 0.65); ("copy_attempt", 0.7)].

Definition tabled (e : Effect) : Prop :=
  match e with
  | ReportCheating k c => In (k, c) report_table
  | _ => True
  end.

Definition reports_tabled (p q : Page) : Prop :=
  Forall tabled (trace p) -> Forall tabled (trace q).

Definition is_face_report (e : Effect) : bool :=
  match e with
  | ReportCheating k _ => String.eqb k "no_face" || String.eqb k "multiple_faces"
  | _ => false
  end.

(** Without a face detector no detection is in flight and no face report
    has been made. *)
Definition faceless (p : Page) : Prop :=
  faceDetectorRef p = false
  /\ detecting p = 0%nat
  /\ Forall (fun e => is_face_report e = false) (trace p).

Definition stays_faceless (p q : Page) : Prop := faceless p -> faceless q.

Definition is_kind (k : string) (e : Effect) : bool :=
  match e with
  | ReportCheating k' _ => String.eqb k' k
  | _ => false
  end.

Definition count_kind (k : string) (t : list Effect) : nat :=
  List.length (filter (is_kind k) t).

Definition is_prevented (e : Effect) : bool :=
  match e with PreventDefault => true | _ => false end.

Definition count_prevented (t : list Effect) : nat :=
  List.length (filter is_prevented t).

(** The bookkeeping of the sources matches what they have reported: the
    tab-switch counter is the number of [tab_switch] reports, and the
    default action was cancelled once per [right_click] or [copy_attempt]
    report. *)
Definition books_balanced (p : Page) : Prop :=
  tabSwitchCountRef p = count_kind "tab_switch" (trace p)
  /\ count_prevented (trace p)
     = (count_kind "right_click" (trace p)
        + count_kind "copy_attempt" (trace p))%nat.

(** Neither the counters of the sources nor the reports and cancelled
    actions in the trace change. *)
Definition same_books (p q : Page) : Prop :=
  tabSwitchCountRef q = tabSwitchCountRef p
  /\ (forall k, count_kind k (trace q) = count_kind k (trace p))
  /\ count_prevented (trace q) = count_prevented (trace p).

Definition is_tally_source (e : Event) : bool :=
  match e with
  | VisibilityChange _ | Blur | ContextMenu | Copy
  | FacePoll _ _ _ | FaceSettled _ _ _ => true
  | _ => false
  end.


(** The callback an inbound message is for, with the argument it is
    called with; [None] for a text that is not valid JSON or whose type
    is none of the five. *)
Definition recipient (JSON_parse : string -> option Json) (d : WsData)
  : option Invocation :=
  match d with
  | Binary blob => Some (OnAudio blob)
  | Text s =>
      match JSON_parse s with
      | Some data =>
          match get_prop data "type" with
          | inr (Some (JStr t)) =>
              if String.eqb t "connected" then Some (OnConnected (Some data))
              else if String.eqb t "transcript" then
                match get_prop data "text" with
                | inr txt => Some (OnTranscript txt)
                | inl _ => None
                end
              else if String.eqb t "warning" then Some (OnWarning data)
              else if String.eqb t "terminated" then Some (OnTerminated data)
              else if String.eqb t "error" then
                match get_prop data "message" with
                | inr msg => Some (OnError msg)
                | inl _ => None
                end
              else None
          | _ => None
          end
      | None => None
      end
  end.

(** The callback a socket event is for. *)
Definition addressee (JSON_parse : string -> option Json) (ev : WsEvent)
  : option Invocation :=
  match ev with
  | EvOpen => Some (OnConnected None)
  | EvMessage d => recipient JSON_parse d
  | EvError => Some (OnError (Some (JStr "Connection error")))
  | EvClose code => Some (OnDisconnected code)
  end.

(** The socket events that call [onConnected]: the socket opening, and a
    [connected] control message. *)
Definition connects (JSON_parse : string -> option Json) (e : Event) : bool :=
  match e with
  | Socket EvOpen => true
  | Socket (EvMessage (Text s)) =>
      match JSON_parse s with
      | Some data =>
          match parsed_type data with
          | Some t => String.eqb t "connected"
          | None => false
          end
      | None => false
      end
  | _ => false
  end.

Definition is_onConnected (i : Invocation) : bool :=
  match i with OnConnected _ => true | _ => false end.

Definition is_media_granted (e : Event) : bool :=
  match e with MediaGranted => true | _ => false end.

(** No script processor is created, and with none in the graph nothing
    is transmitted. *)
Definition no_new_capture (p q : Page) : Prop :=
  List.length (graph q) = List.length (graph p)
  /\ (graph p = [] -> sent q = sent p).

(** Before media access is granted: no stream, no script processor,
    nothing sent. *)
Definition awaiting_media (p : Page) : Prop :=
  streamRef p = None /\ graph p = [] /\ sent p = [].

Definition still_awaiting_media (p q : Page) : Prop :=
  awaiting_media p -> awaiting_media q.

(** The end of the buffer scheduled last, 0 when none has been. *)
Definition last_end (frames : list (Q * Q)) : Q :=
  fold_left (fun _ f => snd f) frames 0.

(** The playback cursor is the end of the buffer scheduled last. *)
Definition cursor_at_end (p : Page) : Prop :=
  nextStartTimeRef p = last_end (scheduled (trace p)).

(** What [playAudio] leaves in [audioContextRef]: the context that was
    there, or a new 24 kHz one. *)
Definition playback_context (p : Page) : AudioContext :=
  match audioContextRef p with
  | Some c => c
  | None => {| sampleRate := 24000 |}
  end.

(** The text carried by a [transcript] control message, [None] for any
    other message. *)
Definition transcript_of (JSON_parse : string -> option Json) (s : string)
  : option JsVal :=
  match JSON_parse s with
  | Some data =>
      match parsed_type data, get_prop data "text" with
      | Some t, inr txt =>
          if String.eqb t "transcript" then Some txt else None
      | _, _ => None
      end
  | None => None
  end.

Definition text_message (s : string) : Event := Socket (EvMessage (Text s)).

(** The socket of the page is open. *)
Definition socket_open (p : Page) : Prop := socket_state p = Some OPEN.

(** The transcript entry of a spoken line. *)
Definition spoken (t : string) : JsVal := Some (JStr t).






(** Nothing new is handed over: every request in flight was in flight
    before or is a strike teardown's, every [onComplete] call of
    [handleInterviewEnd] was made before or settles such a request, and
    the modal's button has not called [onComplete]. *)
Definition no_new_handover (p q : Page) : Prop :=
  (forall w s, In (w, s) (ending q) ->
               In (w, s) (ending p) \/ (w = true /\ s = initial_strikes))
  /\ (forall r w s, In (Complete (Ended r w s)) (trace q) ->
                    In (Complete (Ended r w s)) (trace p)
                    \/ In (w, s) (ending p)
                    \/ (w = true /\ s = initial_strikes))
  /\ (forall s, In (Complete (Dismissed s)) (trace q) ->
                In (Complete (Dismissed s)) (trace p)).


(** Three transcript messages and a parser that knows them:
    [{"type":"transcript","text":"Hello"}], the same with the text
    [Tell me about yourself], and [{"type":"transcript"}], which has no
    text. *)
Definition line_text (t : string) : string :=
  ("{" ++ quote ++ "type" ++ quote ++ ":" ++ quote ++ "transcript" ++ quote
       ++ "," ++ quote ++ "text" ++ quote ++ ":" ++ quote ++ t ++ quote
       ++ "}")%string.

Definition bare_line : string :=
  ("{" ++ quote ++ "type" ++ quote ++ ":" ++ quote ++ "transcript" ++ quote
       ++ "}")%string.

Definition line_parse (s : string) : option Json :=
  if String.eqb s (line_text "Hello") then
    Some (JObj [("type", JStr "transcript"); ("text", JStr "Hello")])
  else if String.eqb s (line_text "Tell me about yourself") then
    Some (JObj [("type", JStr "transcript");
                ("text", JStr "Tell me about yourself")])
  else if String.eqb s bare_line then
    Some (JObj [("type", JStr "transcript")])
  else None.


(* ------------------------------------------------------------------ *)
(** * The REST helpers (api.js) *)

Module Api.

(** What [fetch] resolved with: the [ok] flag and what [response.json()]
    gives, [None] when the body is not JSON. *)
Record Response : Type := { ok : bool; body : option Json }.

(** A request as handed to [fetch]: method, path under [API_BASE] and the
    JSON body, if any. *)
Record Request : Type := {
  method : string;
  path : string;
  payload : option Json
}.

(** How an [async] helper ends when it does not return: [throw new
    Error(message)] (the value given to [Error] is kept as it is), or an
    exception raised underneath it. *)
Inductive Failure : Type :=
| Failed (message : Json)
| Raised (e : Exn).

Definition Outcome : Type := (Failure + Json)%type.

(** [await response.json()] *)
Definition json (r : Response) : Outcome :=
  match body r with
  | Some v => inr v
  | None => inl (Raised SyntaxError)
  end.

(** [error.error || fallback] *)
Definition error_or (fallback : string) (error : Json) : Failure :=
  match get_prop error "error" with
  | inl e => Raised e
  | inr (Some v) => Failed (if truthy (Some v) then v else JStr fallback)
  | inr None => Failed (JStr fallback)
  end.

(** The helpers that read the error body of a response that is not ok:
    [if (!response.ok) { const error = await response.json(); throw new
    Error(error.error || fallback); } return response.json();] *)
Definition guarded (fallback : string) (fetched : Exn + Response) : Outcome :=
  match fetched with
  | inl e => inl (Raised e)
  | inr response =>
      if negb (ok response) then
        match json response with
        | inr error => inl (error_or fallback error)
        | inl f => inl f
        end
      else json response
  end.

(** The helpers that throw a fixed message without reading the body. *)
Definition plain (message : string) (fetched : Exn + Response) : Outcome :=
  match fetched with
  | inl e => inl (Raised e)
  | inr response =>
      if negb (ok response) then inl (Failed (JStr message))
      else json response
  end.

Definition uploadResume_request : Request :=
  {| method := "POST"; path := "/resume/upload/"; payload := None |}.

Definition uploadResume : Exn + Response -> Outcome :=
  guarded "Failed to upload resume".

Definition getResume_request (resumeId : string) : Request :=
  {| method := "GET"; path := "/resume/" ++ resumeId ++ "/";
     payload := None |}.

Definition getResume : Exn + Response -> Outcome := plain "Resume not found".

Definition startInterview_request (resumeId experienceLevel : Json) : Request :=
  {| method := "POST"; path := "/interview/start/";
     payload := Some (JObj [("resume_id", resumeId);
                            ("experience_level", experienceLevel)]) |}.

Definition startInterview : Exn + Response -> Outcome :=
  guarded "Failed to start interview".

Definition getInterviewStatus_request (interviewId : string) : Request :=
  {| method := "GET"; path := "/interview/" ++ interviewId ++ "/status/";
     payload := None |}.

Definition getInterviewStatus : Exn + Response -> Outcome :=
  plain "Interview not found".

Definition endInterview_request (interviewId : string) : Request :=
  {| method := "POST"; path := "/interview/" ++ interviewId ++ "/end/";
     payload := None |}.

Definition endInterview : Exn + Response -> Outcome :=
  guarded "Failed to end interview".

Definition reportCheating_request (interviewId : string) (eventType : string)
  (confidence : Q) (details : Json) : Request :=
  {| method := "POST"; path := "/cheating/report/";
     payload := Some (JObj [("interview_id", JStr interviewId);
                            ("event_type", JStr eventType);
                            ("confidence", JNum confidence);
                            ("details", details)]) |}.

Definition reportCheating : Exn + Response -> Outcome :=
  guarded "Failed to report cheating".

Definition healthCheck_request : Request :=
  {| method := "GET"; path := "/health/"; payload := None |}.

(** [healthCheck] does not look at [response.ok]. *)
Definition healthCheck (fetched : Exn + Response) : Outcome :=
  match fetched with
  | inl e => inl (Raised e)
  | inr response => json response
  end.

(** The helpers that check [response.ok]. *)
Definition checking_helpers : list (Exn + Response -> Outcome) :=
  [uploadResume; getResume; startInterview; getInterviewStatus;
   endInterview; reportCheating].

(** What the caller's [await] sees: the value, or an exception. *)
Definition settle (o : Outcome) : Exn + Json :=
  match o with
  | inr v => inr v
  | inl (Raised e) => inl e
  | inl (Failed _) => inl NetworkError
  end.

End Api.

(** A fetch outcome from which the report helper cannot return a usable
    body: the fetch was rejected, the response is not ok, or the body is
    not JSON or is [null]. *)
Definition unusable (fetched : Exn + Api.Response) : Prop :=
  match fetched with
  | inl _ => True
  | inr response =>
      Api.ok response = false
      \/ Api.body response = None
      \/ Api.body response = Some JNull
  end.


(* ------------------------------------------------------------------ *)
(** * What is handed to [onComplete] and how the results page reads it
      (InterviewPage.jsx, ResultsPage) *)

Module Results.

(** The own properties of an object built by an object literal; a
    property may hold [undefined]. *)
Definition Props : Type := list (string * JsVal).

(** [data.k] on such an object. *)
Fixpoint prop (k : string) (props : Props) : JsVal :=
  match props with
  | [] => None
  | (k', v) :: rest => if String.eqb k k' then v else prop k rest
  end.









(** [a || b] *)
Definition js_or (a b : JsVal) : JsVal := if truthy a then a else b.

(** [data.status === 'terminated'] *)
Definition status_is_terminated (data : Props) : bool :=
  match prop "status" data with
  | Some (JStr s) => String.eqb s "terminated"
  | _ => false
  end.

(** The three values the results page derives from [data]. *)
Definition wasTerminated (data : Props) : JsVal :=
  js_or (js_or (prop "wasTerminated" data) (prop "terminated" data))
    (Some (JBool (status_is_terminated data))).





End Results.


(* ------------------------------------------------------------------ *)
(** * The application shell (App) *)

Module App.

(** The [page] strings. *)
Inductive PageName : Type := PHome | PUpload | PInterview | PResults.

Record State : Type := {
  page : PageName;
  resumeData : option Results.Props;
  interviewData : option Results.Props
}.

Definition init : State :=
  {| page := PHome; resumeData := None; interviewData := None |}.



Inductive Event : Type :=
| GetStarted                                 (* the button of the home page *)
| ResumeUploaded (data : Results.Props)      (* onResumeUploaded *)
| InterviewComplete (data : Results.Props)   (* onComplete *)
| StartOver.                                 (* nav bar or results page *)

Definition handleResumeUploaded (data : Results.Props) (s : State) : State :=
  {| page := PInterview; resumeData := Some data;
     interviewData := interviewData s |}.

Definition handleInterviewComplete (data : Results.Props) (s : State) : State :=
  {| page := PResults; resumeData := resumeData s;
     interviewData := Some data |}.

Definition handleStartOver (s : State) : State := init.

(** The Get Started button exists on the home page only and the Start
    Over buttons everywhere else; the two callbacks belong to child
    pages and may still be called after the child has gone. *)
Definition step (e : Event) (s : State) : State :=
  match e with
  | GetStarted =>
      match page s with
      | PHome => {| page := PUpload; resumeData := resumeData s;
                    interviewData := interviewData s |}
      | _ => s
      end
  | ResumeUploaded data => handleResumeUploaded data s
  | InterviewComplete data => handleInterviewComplete data s
  | StartOver =>
      match page s with
      | PHome => s
      | _ => handleStartOver s
      end
  end.

Definition run (evs : list Event) (s : State) : State :=
  fold_left (fun q e => step e q) evs s.


End App.


(* ------------------------------------------------------------------ *)
(** * The upload page (UploadPage) *)

Module UploadPage.

(** The [error] string: empty, the page's own message, or the message of
    what a helper threw. *)
Inductive ErrorText : Type :=
| NoError
| PleaseSelect
| Thrown (f : Api.Failure).

(** An awaited helper call, with what its continuation has captured. *)
Inductive Pending : Type :=
| PendingUpload
| PendingStart (parsedResume : Json) (experienceLevel : string).

(** What the page has asked for and handed on. *)
Inductive Effect : Type :=
| UploadCall (file : string)
| StartCall (resumeId : JsVal) (experienceLevel : string)
| Uploaded (resume interview : Json).        (* onResumeUploaded *)

Record State : Type := {
  file : option string;
  experienceLevel : string;
  loading : bool;
  error : ErrorText;
  parsedResume : Json;          (* null until a resume was parsed *)
  inflight : list Pending;
  trace : list Effect
}.

Definition init : State :=
  {| file := None; experienceLevel := "fresher"; loading := false;
     error := NoError; parsedResume := JNull; inflight := []; trace := [] |}.

Inductive Event : Type :=
| FileChosen (selectedFile : option string)
| LevelChosen (value : string)
| ClickAnalyze
| ClickStart
| ClickUploadDifferent
| Settled (i : nat) (fetched : Exn + Api.Response).

(** [handleFileChange] *)
Definition handleFileChange (selectedFile : option string) (s : State) : State :=
  match selectedFile with
  | Some f =>
      {| file := Some f; experienceLevel := experienceLevel s;
         loading := loading s; error := NoError;
         parsedResume := parsedResume s; inflight := inflight s;
         trace := trace s |}
  | None => s
  end.

(** [handleUpload] up to its [await]. *)
Definition handleUpload (s : State) : State :=
  match file s with
  | None =>
      {| file := file s; experienceLevel := experienceLevel s;
         loading := loading s; error := PleaseSelect;
         parsedResume := parsedResume s; inflight := inflight s;
         trace := trace s |}
  | Some f =>
      {| file := file s; experienceLevel := experienceLevel s;
         loading := true; error := NoError;
         parsedResume := parsedResume s;
         inflight := inflight s ++ [PendingUpload];
         trace := trace s ++ [UploadCall f] |}
  end.

(** [parsedResume.id] *)
Definition resume_id (parsedResume : Json) : JsVal :=
  match get_prop parsedResume "id" with
  | inr v => v
  | inl _ => None
  end.

(** [handleStartInterview] up to its [await]. *)
Definition handleStartInterview (s : State) : State :=
  if negb (truthy (Some (parsedResume s))) then s
  else
    {| file := file s; experienceLevel := experienceLevel s;
       loading := true; error := NoError;
       parsedResume := parsedResume s;
       inflight := inflight s
                   ++ [PendingStart (parsedResume s) (experienceLevel s)];
       trace := trace s
                ++ [StartCall (resume_id (parsedResume s))
                      (experienceLevel s)] |}.

Fixpoint remove_nth {A} (i : nat) (l : list A) : list A :=
  match l, i with
  | [], _ => []
  | _ :: rest, O => rest
  | x :: rest, S i' => x :: remove_nth i' rest
  end.

(** The rest of [handleUpload] or [handleStartInterview]: the [try]
    body after the [await], the [catch], and the [finally]. *)
Definition settled (what : Pending) (fetched : Exn + Api.Response)
  (s : State) : State :=
  match what with
  | PendingUpload =>
      match Api.uploadResume fetched with
      | inr resumeData =>
          {| file := file s; experienceLevel := experienceLevel s;
             loading := false; error := error s;
             parsedResume := resumeData; inflight := inflight s;
             trace := trace s |}
      | inl f =>
          {| file := file s; experienceLevel := experienceLevel s;
             loading := false; error := Thrown f;
             parsedResume := parsedResume s; inflight := inflight s;
             trace := trace s |}
      end
  | PendingStart resume level =>
      match Api.startInterview fetched with
      | inr interviewData =>
          {| file := file s; experienceLevel := experienceLevel s;
             loading := false; error := error s;
             parsedResume := parsedResume s; inflight := inflight s;
             trace := trace s ++ [Uploaded resume interviewData] |}
      | inl f =>
          {| file := file s; experienceLevel := experienceLevel s;
             loading := false; error := Thrown f;
             parsedResume := parsedResume s; inflight := inflight s;
             trace := trace s |}
      end
  end.

Definition set_inflight (l : list Pending) (s : State) : State :=
  {| file := file s; experienceLevel := experienceLevel s;
     loading := loading s; error := error s;
     parsedResume := parsedResume s; inflight := l; trace := trace s |}.

(** Which card is rendered, and which of its buttons can be pressed:
    Analyze Resume is [disabled={!file || loading}], Start Interview is
    [disabled={loading}]. *)
Definition resume_card (s : State) : bool := truthy (Some (parsedResume s)).

Definition step (e : Event) (s : State) : State :=
  match e with
  | FileChosen selectedFile =>
      if resume_card s then s else handleFileChange selectedFile s
  | LevelChosen value =>
      {| file := file s; experienceLevel := value; loading := loading s;
         error := error s; parsedResume := parsedResume s;
         inflight := inflight s; trace := trace s |}
  | ClickAnalyze =>
      if resume_card s then s
      else match file s with
           | None => s
           | Some _ => if loading s then s else handleUpload s
           end
  | ClickStart =>
      if resume_card s
      then (if loading s then s else handleStartInterview s)
      else s
  | ClickUploadDifferent =>
      if resume_card s then
        {| file := None; experienceLevel := experienceLevel s;
           loading := loading s; error := error s; parsedResume := JNull;
           inflight := inflight s; trace := trace s |}
      else s
  | Settled i fetched =>
      match nth_error (inflight s) i with
      | Some what =>
          settled what fetched (set_inflight (remove_nth i (inflight s)) s)
      | None => s
      end
  end.

Definition run (evs : list Event) (s : State) : State :=
  fold_left (fun q e => step e q) evs s.

Definition is_truthy_start (e : Effect) : Prop :=
  match e with
  | Uploaded resume _ => truthy (Some resume) = true
  | _ => True
  end.

Definition pending_truthy (w : Pending) : Prop :=
  match w with
  | PendingStart resume _ => truthy (Some resume) = true
  | PendingUpload => True
  end.

(** At most one helper call is awaited, the spinner shows exactly while
    one is, and an interview is only started for a parsed resume. *)
Definition orderly (s : State) : Prop :=
  (List.length (inflight s) <= 1)%nat
  /\ (loading s = true <-> inflight s <> [])
  /\ Forall pending_truthy (inflight s)
  /\ Forall is_truthy_start (trace s).

End UploadPage.


(* ------------------------------------------------------------------ *)
(** * Properties of the session channel *)

Local Open Scope list_scope.

Section ChannelFacts.

Variable JSON_parse : string -> option Json.
Variable JSON_stringify : Json -> string.
Variable cb : Callbacks Chan.

Lemma not_known_eqb (t : string) :
  ~ In t known_types ->
  String.eqb t "connected" = false
  /\ String.eqb t "transcript" = false
  /\ String.eqb t "warning" = false
  /\ String.eqb t "terminated" = false
  /\ String.eqb t "error" = false.
Proof.
  intro H.
  repeat split; apply String.eqb_neq; intro E; apply H; subst; simpl; tauto.
Qed.

Lemma dispatch_unknown (data : Json) (ty : JsVal) (c : Chan) :
  (forall t, ty = Some (JStr t) -> ~ In t known_types) ->
  dispatch cb data ty c = (print (Console LLog "Unknown message type:") c, inr tt).
Proof.
  intro H. unfold dispatch.
  destruct ty as [[| | |t| |]|]; try reflexivity.
  destruct (not_known_eqb t (H t eq_refl)) as (E1 & E2 & E3 & E4 & E5).
  rewrite E1, E2, E3, E4, E5. reflexivity.
Qed.

Lemma sendAudio_not_open (audioData : list byte) (c : Chan) :
  readyState c <> OPEN -> sendAudio audioData c = (c, inr tt).
Proof.
  intro H. unfold sendAudio. destruct (readyState c); try reflexivity.
  contradiction.
Qed.

(** C7. A text message that is not valid JSON, or whose parsed type is
    none of connected, transcript, warning, terminated, error, only adds
    one console entry: no callback is invoked, the handler returns
    normally, and the socket is left as it was. *)
Theorem unrecognised_message_is_logged_and_ignored (s : string) (c : Chan) :
  unrecognised JSON_parse s ->
  exists entry : LogEntry,
    onmessage JSON_parse cb (Text s) c = (print entry c, inr tt).
Proof.
  unfold unrecognised, onmessage, try_catch, bind, parse, lift, ret, throw.
  destruct (JSON_parse s) as [data|]; intro H; cbn.
  - unfold parsed_type in H.
    destruct (get_prop data "type") as [e|ty]; cbn.
    + eexists. reflexivity.
    + rewrite dispatch_unknown.
      * eexists. reflexivity.
      * intros t ->. exact H.
  - eexists. reflexivity.
Qed.

(** C10. [send] and [sendAudio] never throw; on a socket that is not OPEN
    they leave the channel untouched (nothing transmitted), and on an
    OPEN socket [send] transmits a string as it is and the JSON
    serialisation of anything else. *)
Theorem send_and_sendAudio_are_total (data : Json) (audioData : list byte)
  (c : Chan) :
  (snd (send JSON_stringify data c) = inr tt
   /\ snd (sendAudio audioData c) = inr tt)
  /\ (readyState c <> OPEN ->
      send JSON_stringify data c = (c, inr tt)
      /\ sendAudio audioData c = (c, inr tt))
  /\ (readyState c = OPEN ->
      (forall s, data <> JStr s) ->
      send JSON_stringify data c
      = (transmit (Text (JSON_stringify data)) c, inr tt)).
Proof.
  split; [split | split].
  - unfold send, ws_send. destruct (readyState c); reflexivity.
  - unfold sendAudio, ws_send. destruct (readyState c); reflexivity.
  - intro Hclosed. split.
    + unfold send. destruct (readyState c); try reflexivity. contradiction.
    + apply sendAudio_not_open. assumption.
  - intros Hopen Hdata. unfold send, ws_send. rewrite Hopen. simpl.
    destruct data; try reflexivity. exfalso. eapply Hdata. reflexivity.
Qed.

End ChannelFacts.

(** A message of unknown type and a malformed one, run through the
    handler. *)
Lemma unrecognised_message_witness :
  (exists entry,
      onmessage sample_parse all_callbacks (Text ping_text) connect
      = (print entry connect, inr tt))
  /\ (exists entry,
      onmessage sample_parse all_callbacks (Text "not json") connect
      = (print entry connect, inr tt)).
Proof.
  split.
  - apply (unrecognised_message_is_logged_and_ignored sample_parse all_callbacks
             ping_text connect).
    vm_compute. intros [H|[H|[H|[H|[H|[]]]]]]; discriminate H.
  - apply (unrecognised_message_is_logged_and_ignored sample_parse all_callbacks
             "not json" connect).
    vm_compute. exact I.
Defined.

Lemma send_and_sendAudio_witness :
  send sample_stringify (JObj []) connect = (connect, inr tt)
  /\ sendAudio [x00; x01] connect = (connect, inr tt)
  /\ send sample_stringify (JObj []) (set_readyState OPEN connect)
     = (transmit (Text "{}") (set_readyState OPEN connect), inr tt).
Proof.
  pose proof (send_and_sendAudio_are_total sample_stringify (JObj [])
                [x00; x01] connect) as (_ & Hclosed & _).
  pose proof (send_and_sendAudio_are_total sample_stringify (JObj [])
                [x00; x01] (set_readyState OPEN connect)) as (_ & _ & Hopen).
  assert (Hne : readyState connect <> OPEN) by discriminate.
  destruct (Hclosed Hne) as [H1 H2].
  split; [exact H1 | split; [exact H2 |]].
  apply Hopen; [reflexivity | discriminate].
Defined.


(* ------------------------------------------------------------------ *)
(** * Reasoning about handlers *)

Section Preservation.

Context {S : Type} (R : S -> S -> Prop) `{!PreOrder R}.

Lemma keeps_ret {A} (a : A) (s : S) : keeps R (ret a) s.
Proof. unfold keeps. simpl. reflexivity. Qed.

Lemma keeps_throw {A} (e : Exn) (s : S) : keeps R (@throw S A e) s.
Proof. unfold keeps. simpl. reflexivity. Qed.

Lemma keeps_lift {A} (r : Exn + A) (s : S) : keeps R (lift r) s.
Proof. unfold keeps. simpl. reflexivity. Qed.

Lemma keeps_modify (f : S -> S) (s : S) : R s (f s) -> keeps R (modify f) s.
Proof. intro H. exact H. Qed.

Lemma keeps_bind {A B} (m : M S A) (k : A -> M S B) (s : S) :
  keeps R m s -> (forall a s', keeps R (k a) s') -> keeps R (bind m k) s.
Proof.
  unfold keeps, bind. intros Hm Hk.
  destruct (m s) as [s' [e|a]]; simpl in *.
  - exact Hm.
  - transitivity s'; [exact Hm | apply Hk].
Qed.

Lemma keeps_try_catch {A} (m : M S A) (h : Exn -> M S A) (s : S) :
  keeps R m s -> (forall e s', keeps R (h e) s') -> keeps R (try_catch m h) s.
Proof.
  unfold keeps, try_catch. intros Hm Hh.
  destruct (m s) as [s' [e|a]]; simpl in *.
  - transitivity s'; [exact Hm | apply Hh].
  - exact Hm.
Qed.

(** What a handler reads from the store is known while the rest of it is
    examined in that same store. *)
Lemma keeps_gets_bind {A B} (f : S -> A) (k : A -> M S B) (s : S) :
  keeps R (k (f s)) s -> keeps R (bind (gets f) k) s.
Proof. intro H. exact H. Qed.

(** A value that is returned or thrown on the spot is known to the rest
    of the handler. *)
Lemma keeps_lift_bind {A B} (r : Exn + A) (k : A -> M S B) (s : S) :
  (forall a, r = inr a -> keeps R (k a) s) -> keeps R (bind (lift r) k) s.
Proof.
  intro H. unfold keeps, bind, lift. destruct r as [e|a]; simpl.
  - reflexivity.
  - apply (H a eq_refl).
Qed.

Lemma keeps_ret_bind {A B} (a : A) (k : A -> M S B) (s : S) :
  keeps R (k a) s -> keeps R (bind (ret a) k) s.
Proof. intro H. exact H. Qed.

Lemma keeps_throw_bind {A B} (e : Exn) (k : A -> M S B) (s : S) :
  keeps R (bind (throw e) k) s.
Proof. unfold keeps, bind, throw. simpl. reflexivity. Qed.

End Preservation.

Lemma set_wsRef_same (p : Page) (c : Chan) :
  wsRef p = Some c -> set_wsRef (Some c) p = p.
Proof. destruct p; simpl. intros ->. reflexivity. Qed.

Section PagePreservation.

Context (R : Page -> Page -> Prop) `{!PreOrder R}.

Lemma keeps_read {A} (f : Page -> A) (p : Page) : keeps R (read f) p.
Proof. unfold keeps. simpl. reflexivity. Qed.

Lemma keeps_read_bind {A B} (f : Page -> A) (k : A -> M Page B) (p : Page) :
  keeps R (k (f p)) p -> keeps R (bind (read f) k) p.
Proof. intro H. exact H. Qed.

Lemma keeps_on_ws (op : M Chan unit) (p : Page) :
  (forall c, wsRef p = Some c -> R p (set_wsRef (Some (fst (op c))) p)) ->
  keeps R (on_ws op) p.
Proof.
  intro H. unfold keeps, on_ws. destruct (wsRef p) as [c|] eqn:E.
  - specialize (H c eq_refl). destruct (op c) as [c' r]. exact H.
  - simpl. reflexivity.
Qed.

Lemma preserves_run (JSON_parse : string -> option Json) :
  (forall e, preserves R (step JSON_parse e)) ->
  forall evs p, R p (run JSON_parse evs p).
Proof.
  intros H evs. induction evs as [|e rest IH]; intro p; simpl.
  - reflexivity.
  - transitivity (exec JSON_parse e p); [apply H | apply IH].
Qed.

End PagePreservation.

(** Breaks a handler into its primitive steps: the store updates and the
    socket operations are left to be examined. *)
Ltac handler_step :=
  lazymatch goal with
  | |- keeps _ (ret _) _ => apply keeps_ret; typeclasses eauto
  | |- keeps _ (lift _) _ => apply keeps_lift; typeclasses eauto
  | |- keeps _ (throw _) _ => apply keeps_throw; typeclasses eauto
  | |- keeps _ (read _) _ => apply keeps_read; typeclasses eauto
  | |- keeps _ (bind (read _) _) _ => apply keeps_read_bind; cbv beta
  | |- keeps _ (bind _ _) _ =>
      apply keeps_bind; [typeclasses eauto | | intros ? ?]
  | |- keeps _ (try_catch _ _) _ =>
      apply keeps_try_catch; [typeclasses eauto | | intros ? ?]
  | |- keeps _ (match ?x with _ => _ end) _ => destruct x eqn:?
  | |- keeps _ (let _ := _ in _) _ => cbv zeta
  end.

Ltac handler_steps := unfold preserves; intros; repeat handler_step.

(** The same, keeping track of what the handler has parsed and read on
    its way. *)
Ltac tied_step :=
  lazymatch goal with
  | |- keeps _ (bind (gets _) _) _ => apply keeps_gets_bind; cbv beta
  | |- keeps _ (bind (ret _) _) _ => apply keeps_ret_bind; cbv beta
  | |- keeps _ (bind (throw _) _) _ =>
      apply keeps_throw_bind; typeclasses eauto
  | |- keeps _ (bind (lift _) _) _ =>
      apply keeps_lift_bind; [typeclasses eauto |]; intros ? ?
  | |- keeps _ (bind (match ?x with _ => _ end) _) _ => destruct x eqn:?
  | _ => handler_step
  end.

(** A call through the page's callbacks object is a run of the callback's
    body. *)
Ltac as_callback :=
  lazymatch goal with
  | |- keeps ?R (invoke (onConnected connectWebSocket) ?a) ?s =>
      change (keeps R (callback (OnConnected a)) s)
  | |- keeps ?R (invoke (onAudio connectWebSocket) ?a) ?s =>
      change (keeps R (callback (OnAudio a)) s)
  | |- keeps ?R (invoke (onTranscript connectWebSocket) ?a) ?s =>
      change (keeps R (callback (OnTranscript a)) s)
  | |- keeps ?R (invoke (onWarning connectWebSocket) ?a) ?s =>
      change (keeps R (callback (OnWarning a)) s)
  | |- keeps ?R (invoke (onTerminated connectWebSocket) ?a) ?s =>
      change (keeps R (callback (OnTerminated a)) s)
  | |- keeps ?R (invoke (onError connectWebSocket) ?a) ?s =>
      change (keeps R (callback (OnError a)) s)
  | |- keeps ?R (invoke (onDisconnected connectWebSocket) ?a) ?s =>
      change (keeps R (callback (OnDisconnected a)) s)
  end.

Section SocketPreservation.

Context (R : Page -> Page -> Prop) `{!PreOrder R}.
Variable JSON_parse : string -> option Json.

(** A socket event keeps a relation that the callback it is for keeps,
    provided the handler's own console line and the platform's change of
    [readyState] keep it. *)
Lemma preserves_socket_event_for (ev : WsEvent) (allowed : Invocation -> Prop) :
  (forall i, addressee JSON_parse ev = Some i -> allowed i) ->
  (forall i, allowed i -> preserves R (callback i)) ->
  (forall l msg, preserves R (on_ws (log l msg))) ->
  (forall p c, wsRef p = Some c -> readyState c = CONNECTING ->
     R p (set_wsRef (Some (set_readyState OPEN c)) p)) ->
  (forall p c, wsRef p = Some c -> readyState c <> CLOSED ->
     R p (set_wsRef (Some (set_readyState CLOSED c)) p)) ->
  preserves R (socket_event JSON_parse ev).
Proof.
  intros Hfor Hcb Hlog Hopen Hclose p.
  assert (Hlog' : forall l msg s, keeps R (on_socket (log l msg)) s)
    by (intros l msg s; exact (Hlog l msg s)).
  unfold socket_event, fire. apply keeps_gets_bind. simpl.
  destruct (wsRef p) as [c|] eqn:Hc; simpl;
    [|destruct ev; apply keeps_ret; assumption].
  destruct ev as [|d| |code].
  - (* open *)
    destruct (readyState c) eqn:Hst; try (apply keeps_ret; assumption).
    apply keeps_bind; [assumption | | intros _ s].
    + unfold keeps, on_socket. simpl. rewrite Hc. simpl.
      apply (Hopen p c Hc Hst).
    + unfold onopen. apply keeps_bind; [assumption | apply Hlog' | intros _ s'].
      apply (Hcb (OnConnected None)). apply Hfor. reflexivity.
  - (* a message *)
    destruct (readyState c) eqn:Hst; try (apply keeps_ret; assumption).
    destruct d as [s|blob].
    + unfold onmessage, parse, dispatch. simpl in Hfor.
      repeat tied_step; try apply Hlog';
        as_callback;
        match goal with
        | |- keeps _ (callback ?i) _ => apply (Hcb i); apply Hfor
        end;
        subst;
        repeat match goal with
               | E : _ = _ |- _ => rewrite E
               end; reflexivity.
    + apply (Hcb (OnAudio blob)). apply Hfor. reflexivity.
  - (* an error *)
    assert (He : keeps R (onerror connectWebSocket) p).
    { unfold onerror. apply keeps_bind; [assumption | apply Hlog' | intros _ s'].
      apply (Hcb (OnError (Some (JStr "Connection error")))).
      apply Hfor. reflexivity. }
    destruct (readyState c); exact He.
  - (* close *)
    assert (Hd : forall s, keeps R (onclose connectWebSocket code) s).
    { intro s. unfold onclose.
      apply keeps_bind; [assumption | apply Hlog' | intros _ s'].
      apply (Hcb (OnDisconnected code)). apply Hfor. reflexivity. }
    destruct (readyState c) eqn:Hst; try (apply keeps_ret; assumption);
      (apply keeps_bind; [assumption | | intros _ s; apply Hd]);
      unfold keeps, on_socket; simpl; rewrite Hc; simpl;
      apply (Hclose p c Hc); rewrite Hst; discriminate.
Qed.

Lemma preserves_socket_event (ev : WsEvent) :
  (forall i, preserves R (callback i)) ->
  (forall l msg, preserves R (on_ws (log l msg))) ->
  (forall p c, wsRef p = Some c -> readyState c = CONNECTING ->
     R p (set_wsRef (Some (set_readyState OPEN c)) p)) ->
  (forall p c, wsRef p = Some c -> readyState c <> CLOSED ->
     R p (set_wsRef (Some (set_readyState CLOSED c)) p)) ->
  preserves R (socket_event JSON_parse ev).
Proof.
  intros Hcb Hlog Hopen Hclose.
  apply (preserves_socket_event_for ev (fun _ => True)); auto.
Qed.

End SocketPreservation.

Ltac unfold_handlers :=
  unfold step, callback, handleVisibilityChange, handleBlur, handleContextMenu,
    handleCopy, detectFace, detectFace_started, detectFace_resumed,
    detectFace_settled, detectFace_returns, reportCheating_settled,
    endInterview_settled, render, effects, unmount,
    handleInterviewEnd, cleanup, handleCheatingDetection, playAudio,
    onaudioprocess, startAudioCapture, say, emit.

(** Proves that every primitive step of a handler keeps a relation, given a
    tactic for the store updates. *)
Ltac handler_keeps update :=
  unfold_handlers; handler_steps;
  try match goal with
      | |- keeps _ (modify _) _ => apply keeps_modify; update
      | |- keeps _ (on_ws _) _ =>
          apply keeps_on_ws; [typeclasses eauto | intros ? ?; update]
      end.

(* ------------------------------------------------------------------ *)
(** * Termination is final *)

(** A socket event keeps a relation that does not depend on the socket
    record. *)
Ltac socket_keeps update callback_lemma :=
  apply preserves_socket_event;
  [ typeclasses eauto
  | apply callback_lemma
  | intros ? ? ?; apply keeps_on_ws; [typeclasses eauto | intros ? ?; update]
  | intros ? ? ? ?; update
  | intros ? ? ? ?; update ].

#[local] Instance stays_terminated_preorder : PreOrder stays_terminated.
Proof.
  split.
  - intros p H. exact H.
  - intros p q r Hpq Hqr H. apply Hqr, Hpq, H.
Qed.

Lemma callback_stays_terminated (i : Invocation) :
  preserves stays_terminated (callback i).
Proof.
  destruct i; handler_keeps ltac:(unfold stays_terminated; simpl; auto).
Qed.

Lemma step_stays_terminated (JSON_parse : string -> option Json) (e : Event) :
  preserves stays_terminated (step JSON_parse e).
Proof.
  destruct e;
    try (handler_keeps ltac:(unfold stays_terminated; simpl; auto); fail).
  socket_keeps ltac:(unfold stays_terminated; simpl; auto)
               callback_stays_terminated.
Qed.

#[local] Instance stays_rebound_preorder : PreOrder stays_rebound.
Proof.
  split.
  - intros p H. exact H.
  - intros p q r Hpq Hqr H. apply Hqr, Hpq, H.
Qed.

Ltac rebound_update := unfold stays_rebound, rebound; simpl; tauto.

Lemma callback_stays_rebound (i : Invocation) :
  preserves stays_rebound (callback i).
Proof. destruct i; handler_keeps rebound_update. Qed.

(** No event undoes the re-binding: the flag stays set, every later
    render sees it, and the effects find nothing to change. *)
Lemma step_stays_rebound (JSON_parse : string -> option Json) (e : Event) :
  preserves stays_rebound (step JSON_parse e).
Proof.
  destruct e; try (handler_keeps rebound_update; fail).
  socket_keeps rebound_update callback_stays_rebound.
Qed.

(** A listener or a timer tick of a render that saw [terminated] set
    returns at once. *)
Lemma signal_when_rebound (JSON_parse : string -> option Json)
  (e : Event) (p : Page) :
  seenTerminated p = true -> is_signal e = true ->
  step JSON_parse e p = (p, inr tt).
Proof.
  intros Ht Hs.
  destruct e; try discriminate Hs; simpl;
    unfold handleVisibilityChange, handleBlur, handleContextMenu, handleCopy,
      detectFace, detectFace_started, detectFace_returns, bind, read, ret;
    rewrite Ht; simpl; rewrite ?andb_false_r, ?orb_true_r; reflexivity.
Qed.

Lemma signals_when_rebound (JSON_parse : string -> option Json)
  (evs : list Event) (p : Page) :
  seenTerminated p = true -> forallb is_signal evs = true ->
  run JSON_parse evs p = p.
Proof.
  intro Ht. induction evs as [|e rest IH]; simpl; intro H.
  - reflexivity.
  - apply andb_true_iff in H. destruct H as [He Hrest].
    unfold exec. rewrite (signal_when_rebound JSON_parse e p Ht He).
    simpl. apply IH. exact Hrest.
Qed.

(** The next render shows the terminated state, unless it throws, and
    its effects re-bind the listeners. *)
Lemma render_rebinds (JSON_parse : string -> option Json) (p : Page) :
  terminated p = true -> renders p = true ->
  rebound (run JSON_parse [Render; Effects] p).
Proof.
  intros Ht Hr. unfold run, exec. simpl.
  unfold render, effects, bind, read, modify, renders in *. simpl.
  rewrite Hr. simpl. repeat split; assumption.
Qed.

(* ------------------------------------------------------------------ *)
(** * Teardown triggers *)

Lemma end_requests_snoc (t : list Effect) (e : Effect) :
  end_requests (t ++ [e])
  = (end_requests t + (if is_end_request e then 1 else 0))%nat.
Proof.
  unfold end_requests. rewrite filter_app, length_app. simpl.
  destruct (is_end_request e); reflexivity.
Qed.

Lemma quiet_seq (m k : M Page unit) :
  quiet m -> quiet k -> quiet (bind m (fun _ => k)).
Proof.
  intros Hm Hk p. destruct (Hm p) as (q & Hq & Hn & Ht).
  destruct (Hk q) as (r & Hr & Hn' & Ht').
  exists r. unfold bind. rewrite Hq. split; [exact Hr|].
  split; congruence.
Qed.

Lemma quiet_emit (e : Effect) : is_end_request e = false -> quiet (emit e).
Proof.
  intros He p. eexists. split; [reflexivity|]. simpl.
  rewrite end_requests_snoc, He. split; [lia | reflexivity].
Qed.

Lemma quiet_modify (f : Page -> Page) :
  (forall p, trace (f p) = trace p /\ terminated (f p) = terminated p) ->
  quiet (modify f).
Proof.
  intros H p. destruct (H p) as [Ht Hd]. eexists. split; [reflexivity|].
  rewrite Ht, Hd. split; reflexivity.
Qed.

Lemma quiet_ret : quiet (ret tt).
Proof. intro p. exists p. repeat split. Qed.

(** [cleanup] always returns, issues no request and leaves the
    [terminated] flag alone. *)
Lemma cleanup_spec : quiet cleanup.
Proof.
  unfold cleanup. repeat apply quiet_seq.
  - intro p. unfold bind, read.
    destruct (mediaRecorderRef p); [|apply quiet_ret].
    apply quiet_seq; [apply quiet_modify | apply quiet_emit]; auto.
  - intro p. unfold on_ws. destruct (wsRef p) as [c|]; [|apply quiet_ret].
    unfold close, ws_close. destruct (readyState c);
      eexists; (split; [reflexivity|]); split; reflexivity.
  - intro p. unfold bind, read.
    destruct (streamRef p); [|apply quiet_ret].
    apply quiet_seq; [apply quiet_modify | apply quiet_emit]; auto.
  - intro p. unfold bind, read.
    destruct (audioContextRef p); [|apply quiet_ret].
    apply quiet_emit. reflexivity.
Qed.

Lemma unwire_wired (i : nat) (g : list Processor) (pr : Processor) :
  nth_error (unwire i g) i = Some pr -> wired pr = false.
Proof.
  revert i. induction g as [|x g IH]; intros [|i] H; simpl in H;
    try discriminate H.
  - injection H as <-. reflexivity.
  - apply (IH i H).
Qed.

(** What [cleanup] does to each part of the page. *)
Lemma cleanup_fields (p : Page) :
  let q := fst (cleanup p) in
  snd (cleanup p) = inr tt
  /\ trace q = trace p ++ cleanup_effects p
  /\ wsRef q = option_map (fun c => fst (close c)) (wsRef p)
  /\ graph q = match mediaRecorderRef p with
               | Some i => unwire i (graph p)
               | None => graph p
               end
  /\ streamRef q = option_map (fun _ => {| live := false |}) (streamRef p)
  /\ mediaRecorderRef q = mediaRecorderRef p
  /\ audioContextRef q = audioContextRef p
  /\ terminated q = terminated p
  /\ strikes q = strikes p
  /\ shownStrikes q = shownStrikes p
  /\ ending q = ending p.
Proof.
  destruct p as [st sk wa tr rec te vi ws sr ac g mr ns tc lf fd t ss sh se dt en].
  unfold cleanup, cleanup_effects, bind, read, modify, emit, on_ws.
  destruct mr, ws as [c|], sr, ac; cbn;
    try (destruct (close c) as [c' [e|[]]] eqn:Ec;
         [unfold close, ws_close in Ec; destruct (readyState c);
          discriminate Ec|]);
    cbn; rewrite <- ?app_assoc, ?app_nil_r; repeat split.
Qed.

Lemma closed_is_shut (c : Chan) :
  match readyState (fst (close c)) with
  | CLOSING | CLOSED => true
  | _ => false
  end = true.
Proof. unfold close, ws_close. destruct (readyState c) eqn:E; simpl; rewrite ?E; reflexivity. Qed.

Lemma cleanup_tears_down (p : Page) : torn_down (fst (cleanup p)).
Proof.
  destruct (cleanup_fields p) as (_ & _ & Hw & Hg & Hs & Hm & _).
  unfold torn_down, shut, socket_state. rewrite Hw, Hg, Hs, Hm.
  split; [|split].
  - destruct (wsRef p) as [c|]; simpl; [right; apply closed_is_shut | left; reflexivity].
  - intros i pr Hi Hpr. rewrite Hi in Hpr. apply (unwire_wired i (graph p) pr Hpr).
  - destruct (streamRef p); simpl; auto.
Qed.

Lemma teardown_effects_app (t u : list Effect) :
  teardown_effects (t ++ u) = teardown_effects t ++ teardown_effects u.
Proof. apply filter_app. Qed.

Lemma teardown_cleanup_effects (p : Page) :
  teardown_effects (cleanup_effects p) = cleanup_effects p.
Proof.
  unfold cleanup_effects.
  destruct (mediaRecorderRef p), (streamRef p), (audioContextRef p); reflexivity.
Qed.

(** [handleInterviewEnd] has no guard: each call runs the whole teardown
    again, issues one more end-interview request and leaves that request
    in flight with its own argument and [strikes]. *)
Lemma handleInterviewEnd_spec (s : JsVal) (wasTerminated : bool) (p : Page) :
  exists q,
    handleInterviewEnd s wasTerminated p = (q, inr tt)
    /\ end_requests (trace q) = S (end_requests (trace p))
    /\ terminated q = terminated p
    /\ ending q = ending p ++ [(wasTerminated, s)]
    /\ teardown_effects (trace q)
       = teardown_effects (trace p) ++ cleanup_effects p
    /\ torn_down q
    /\ cleanup_effects q = cleanup_effects p
    /\ shownStrikes q = shownStrikes p
    /\ strikes q = strikes p.
Proof.
  pose proof (cleanup_tears_down p) as Htd.
  destruct (cleanup_spec p) as (q & Hq & Hn & Ht).
  destruct (cleanup_fields p)
    as (_ & Htr & Hw & Hg & Hs & Hm & Ha & _ & Hk & Hss & He).
  rewrite Hq in *. simpl in *.
  unfold handleInterviewEnd, bind. rewrite Hq.
  unfold emit, modify. eexists. split; [reflexivity|].
  split; [simpl; rewrite end_requests_snoc; simpl; lia|].
  split; [exact Ht|].
  split; [simpl; rewrite He; reflexivity|].
  split.
  { simpl. rewrite teardown_effects_app, Htr, teardown_effects_app,
      teardown_cleanup_effects. simpl. rewrite app_nil_r. reflexivity. }
  split.
  { destruct Htd as (A & B & C).
    unfold torn_down, shut, socket_state in *. simpl. auto. }
  split.
  { unfold cleanup_effects. simpl. rewrite Hm, Hs, Ha.
    destruct (streamRef p); reflexivity. }
  split; [exact Hss | exact Hk].
Qed.

Lemma direct_trigger_spec (JSON_parse : string -> option Json)
  (e : Event) (p : Page) :
  direct_trigger e = true ->
  let q := exec JSON_parse e p in
  end_requests (trace q) = S (end_requests (trace p))
  /\ terminated q = terminated p || terminal_trigger e
  /\ ending q = ending p ++ [request_of p e]
  /\ teardown_effects (trace q)
     = teardown_effects (trace p) ++ cleanup_effects p
  /\ torn_down q
  /\ cleanup_effects q = cleanup_effects p
  /\ shownStrikes q = shownStrikes p.
Proof.
  intro H. unfold exec, request_of.
  destruct e; try discriminate H; simpl in *.
  - (* a settled report *)
    destruct r as [ex|result]; [discriminate H|].
    rewrite H. unfold terminal_report in H.
    destruct result; simpl in H; try discriminate H.
    unfold reportCheating_settled, try_catch, bind, lift, modify, emit; simpl.
    rewrite H.
    destruct (truthy (lookup "strikes" fields)); simpl;
      match goal with
      | |- context [handleInterviewEnd initial_strikes true ?q] =>
          destruct (handleInterviewEnd_spec initial_strikes true q)
            as (q' & Hq & Hn & Ht & He & Htd & Htorn & Hce & Hss & _);
          rewrite Hq; simpl; rewrite Hn, Ht, He, Htd, Hce, Hss; simpl;
          rewrite ?end_requests_snoc, ?teardown_effects_app; simpl;
          rewrite ?app_nil_r, orb_true_r;
          repeat split; try assumption; try lia;
          destruct Htorn as (? & ? & ?); assumption
      end.
  - (* the End Interview button *)
    unfold bind, read.
    destruct (handleInterviewEnd_spec (shownStrikes p) false p)
      as (q' & Hq & Hn & Ht & He & Htd & Htorn & Hce & Hss & _).
    rewrite Hq. simpl. rewrite Hn, Ht, orb_false_r.
    repeat split; try assumption; destruct Htorn as (? & ? & ?); assumption.
Qed.

(** A [terminated] control message that is delivered (the socket is still
    OPEN) tears the session down as well. *)
Lemma terminated_message_spec (JSON_parse : string -> option Json)
  (s : string) (data : Json) (c : Chan) (p : Page) :
  wsRef p = Some c -> readyState c = OPEN ->
  JSON_parse s = Some data -> parsed_type data = Some "terminated" ->
  let q := exec JSON_parse (Socket (EvMessage (Text s))) p in
  end_requests (trace q) = S (end_requests (trace p))
  /\ terminated q = true
  /\ ending q = ending p ++ [(true, initial_strikes)]
  /\ teardown_effects (trace q)
     = teardown_effects (trace p) ++ cleanup_effects p
  /\ torn_down q.
Proof.
  intros Hws Hopen Hparse Hty. unfold exec. simpl.
  unfold socket_event, fire, bind, gets. simpl. rewrite Hws. simpl.
  rewrite Hopen.
  unfold onmessage, try_catch, bind, parse, lift, ret. rewrite Hparse. simpl.
  unfold parsed_type in Hty.
  destruct data; simpl in Hty; try discriminate Hty. simpl.
  destruct (lookup "type" fields) as [[| | |t| |]|]; try discriminate Hty.
  injection Hty as ->. simpl.
  unfold bind, modify, lift. simpl.
  match goal with
  | |- context [handleInterviewEnd initial_strikes true ?q] =>
      destruct (handleInterviewEnd_spec initial_strikes true q)
        as (q' & Hq & Hn & Ht & He & Htd & Htorn & _);
      rewrite Hq
  end.
  simpl. rewrite Hn, Ht, He, Htd. simpl.
  repeat split; destruct Htorn as (? & ? & ?); assumption.
Qed.

(** C1, as the code has it.  The [terminated] flag is final: once set,
    no event clears it.  The sources stop when their listeners have been
    re-bound: with the listeners and the poll timer of a render that saw
    the flag, every event that reaches one of the five signal sources
    (tab visibility, window blur, context menu, copy, a tick of the face
    poll) does nothing at all, no report whatever the confidence the
    source would have used and no change of strikes or of any other
    state, and so does any sequence of them; once the terminated state
    has been rendered and its effects have run this stays so whatever
    happens, so a source event is a no-op at any later moment.  The
    render that follows the setting of the flag, if it does not throw,
    and its effects bring that state about; and the flag is set as soon
    as a terminal outcome is processed, be it a report answered with
    [terminated] or a [terminated] control message. *)
Theorem termination_is_final (JSON_parse : string -> option Json) :
  (forall p evs,
      terminated p = true -> terminated (run JSON_parse evs p) = true)
  /\ (forall p,
         seenTerminated p = true ->
         (forall e, is_signal e = true -> step JSON_parse e p = (p, inr tt))
         /\ (forall evs,
                forallb is_signal evs = true -> run JSON_parse evs p = p))
  /\ (forall p evs,
         rebound p ->
         rebound (run JSON_parse evs p)
         /\ (forall e,
                is_signal e = true ->
                step JSON_parse e (run JSON_parse evs p)
                = (run JSON_parse evs p, inr tt)))
  /\ (forall p,
         terminated p = true -> renders p = true ->
         rebound (run JSON_parse [Render; Effects] p))
  /\ (forall p eventType result,
         terminal_report result = true ->
         terminated (exec JSON_parse (ReportSettled eventType (inr result)) p)
         = true)
  /\ (forall p c s data,
         wsRef p = Some c -> readyState c = OPEN ->
         JSON_parse s = Some data -> parsed_type data = Some "terminated" ->
         terminated (exec JSON_parse (Socket (EvMessage (Text s))) p) = true).
Proof.
  split; [|split; [|split; [|split; [|split]]]].
  - intros p evs Ht.
    apply (preserves_run stays_terminated JSON_parse
             (step_stays_terminated JSON_parse) evs p Ht).
  - intros p Ht. split.
    + intros e Hs. apply signal_when_rebound; assumption.
    + intros evs Hs. apply signals_when_rebound; assumption.
  - intros p evs Hp.
    assert (Hq : rebound (run JSON_parse evs p))
      by (apply (preserves_run stays_rebound JSON_parse
                   (step_stays_rebound JSON_parse) evs p Hp)).
    split; [exact Hq|].
    intros e Hs. apply signal_when_rebound; [|exact Hs].
    destruct Hq as (_ & _ & Hseen). exact Hseen.
  - intros p Ht Hr. apply render_rebinds; assumption.
  - intros p eventType result H.
    destruct (direct_trigger_spec JSON_parse
                (ReportSettled eventType (inr result)) p H) as (_ & Ht & _).
    rewrite Ht. simpl. rewrite H. apply orb_true_r.
  - intros p c s data Hws Hopen Hparse Hty.
    apply (terminated_message_spec JSON_parse s data c p Hws Hopen Hparse Hty).
Qed.

(** A page terminated by a second strike, rendered again, and then poked
    by every kind of source. *)
Lemma termination_is_final_witness :
  let p0 := exec sample_parse (ReportSettled "tab_switch" (inr second_strike))
              (exec sample_parse (VisibilityChange true) recording_page) in
  let p := run sample_parse [Render; Effects] p0 in
  rebound p
  /\ step sample_parse Blur p = (p, inr tt)
  /\ run sample_parse
       [VisibilityChange true; Blur; FaceTick; FacePoll (Faces 0) 9000 9000;
        ContextMenu; Copy] p = p
  /\ terminated (run sample_parse [EndButton; WarningExpired] p) = true.
Proof.
  intros p0 p.
  destruct (termination_is_final sample_parse)
    as (Hflag & Hsilent & _ & Hrender & Hreport & _).
  assert (Ht : terminated p0 = true) by (apply Hreport; reflexivity).
  assert (Hr : renders p0 = true) by (vm_compute; reflexivity).
  pose proof (Hrender _ Ht Hr) as Hp.
  destruct (Hsilent p) as [H1 H2]; [apply Hp|].
  split; [exact Hp | split; [|split]].
  - apply H1. reflexivity.
  - apply H2. reflexivity.
  - apply Hflag. apply Hp.
Defined.

(** C1 as stated fails.  A face detection is in flight and two reports
    are on their way when the answer to the first one terminates the
    session.  A copy attempt made before the listeners are re-bound is
    still reported.  The page is then rendered again and the listeners
    are re-bound; after that the detection settles and reports
    [multiple_faces], and the answer to the second report replaces the
    strike count and issues another end-interview request. *)
Lemma work_in_flight_outlives_termination :
  let p0 := run sample_parse
              [FaceTick; VisibilityChange true; Blur;
               ReportSettled "tab_switch" (inr second_strike)]
              recording_page in
  let p := run sample_parse [Render; Effects] p0 in
  let q := exec sample_parse (FaceSettled (Faces 2) 9000 9000) p in
  let r := exec sample_parse (ReportSettled "window_blur" (inr third_strike)) p in
  terminated p0 = true
  /\ reports (trace (exec sample_parse Copy p0))
     = reports (trace p0) ++ [ReportCheating "copy_attempt" 0.7]
  /\ terminated p = true
  /\ seenTerminated p = true
  /\ reports (trace q) = reports (trace p) ++ [ReportCheating "multiple_faces" 0.9]
  /\ strikes p = Some (JNum 2)
  /\ strikes r = Some (JNum 3)
  /\ end_requests (trace r) = S (end_requests (trace p)).
Proof. vm_compute. repeat split. Qed.

(** C2, as the code has it.  There is no transition lock: the End
    Interview button and a cheating report answered with [terminated]
    each run the whole teardown and issue their own end-interview
    request, whatever fired before.  So [n] such triggers issue [n]
    requests (two for a pair, in either order), leave [n] requests in
    flight, each with the argument and the [strikes] of its own call, and
    make the calls of [cleanup] [n] times over; after any of them the
    socket is closing or closed, the processor that [mediaRecorderRef]
    points to is disconnected and the tracks are stopped.  The
    [terminated] flag ends up set exactly when it was set before or one of
    the triggers was a terminal report.  A [terminated] control message
    delivered on the open socket does all of this in the same way. *)
Theorem every_trigger_issues_its_own_request
  (JSON_parse : string -> option Json) (p : Page) :
  (forall evs,
      forallb direct_trigger evs = true ->
      let q := run JSON_parse evs p in
      end_requests (trace q)
      = (end_requests (trace p) + List.length evs)%nat
      /\ terminated q = terminated p || existsb terminal_trigger evs
      /\ ending q = ending p ++ map (request_of p) evs
      /\ teardown_effects (trace q)
         = teardown_effects (trace p)
             ++ List.concat (repeat (cleanup_effects p) (List.length evs))
      /\ (evs <> [] -> torn_down q))
  /\ (forall s data c,
      wsRef p = Some c -> readyState c = OPEN ->
      JSON_parse s = Some data -> parsed_type data = Some "terminated" ->
      let q := exec JSON_parse (Socket (EvMessage (Text s))) p in
      end_requests (trace q) = S (end_requests (trace p))
      /\ terminated q = true
      /\ ending q = ending p ++ [(true, initial_strikes)]
      /\ teardown_effects (trace q)
         = teardown_effects (trace p) ++ cleanup_effects p
      /\ torn_down q).
Proof.
  split.
  - intro evs. revert p.
    induction evs as [|e rest IH]; intros p H q; subst q; simpl in *.
    + rewrite orb_false_r, !app_nil_r.
      split; [lia|]. do 3 (split; [reflexivity|]).
      intro Hne. contradiction.
    + apply andb_true_iff in H. destruct H as [He Hrest].
      destruct (direct_trigger_spec JSON_parse e p He)
        as (Hn & Ht & Hend & Htd & Htorn & Hce & Hss).
      destruct (IH (exec JSON_parse e p) Hrest)
        as (Hn' & Ht' & Hend' & Htd' & Htorn').
      rewrite Hn', Ht', Hend', Htd', Hn, Ht, Hend, Htd, Hce.
      split; [lia|]. split; [rewrite orb_assoc; reflexivity|].
      split.
      { rewrite <- app_assoc. simpl. do 2 f_equal.
        apply map_ext_in. intros e' _. unfold request_of. rewrite Hss.
        reflexivity. }
      split; [rewrite <- app_assoc; reflexivity|].
      intros _. destruct rest as [|e' rest'].
      * exact Htorn.
      * apply Htorn'. discriminate.
  - intros s data c Hws Hopen Hparse Hty.
    apply (terminated_message_spec JSON_parse s data c p Hws Hopen Hparse Hty).
Qed.

(** A tab switch is reported on a recording page; the report comes back
    terminal and the End Interview button is pressed, in either order;
    and a terminated message followed by the button. *)
Lemma every_trigger_witness :
  let p := exec sample_parse (VisibilityChange true) recording_page in
  end_requests (trace (run sample_parse
     [ReportSettled "tab_switch" (inr second_strike); EndButton] p)) = 2%nat
  /\ end_requests (trace (run sample_parse
     [EndButton; ReportSettled "tab_switch" (inr second_strike)] p)) = 2%nat
  /\ teardown_effects (trace (run sample_parse
     [EndButton; ReportSettled "tab_switch" (inr second_strike)] p))
     = [ProcessorDisconnect; TracksStop; ContextClose;
        ProcessorDisconnect; TracksStop; ContextClose]
  /\ end_requests (trace (exec sample_parse
     (Socket (EvMessage (Text terminated_text))) p)) = 1%nat.
Proof.
  intro p.
  destruct (every_trigger_issues_its_own_request sample_parse p)
    as [Hlist Hmsg].
  split; [|split; [|split]].
  - apply (Hlist [ReportSettled "tab_switch" (inr second_strike); EndButton]).
    reflexivity.
  - apply (Hlist [EndButton; ReportSettled "tab_switch" (inr second_strike)]).
    reflexivity.
  - destruct (Hlist [EndButton; ReportSettled "tab_switch" (inr second_strike)]
                eq_refl) as (_ & _ & _ & H & _).
    rewrite H. reflexivity.
  - eapply Hmsg with (data := JObj [("type", JStr "terminated");
                                    ("strikes", JNum 2)]);
      vm_compute; reflexivity.
Defined.

(** C2 as stated fails: the window loses focus on a recording page, the
    button End Interview is pressed while the report is in flight, and
    the report comes back terminal.  Two end-interview requests are
    issued, not at most one; and when both have been answered,
    [onComplete] has been called once for a completed and once for a
    terminated session. *)
Lemma second_trigger_is_not_a_no_op :
  let q := run sample_parse
             [Blur; EndButton; ReportSettled "window_blur" (inr second_strike)]
             recording_page in
  let q' := run sample_parse
              [EndSettled 0 (inr (JObj [])); EndSettled 0 (inr (JObj []))] q in
  ~ (end_requests (trace q) <= 1)%nat
  /\ In (Complete (Ended (inr (JObj [])) false (Some (JNum 0)))) (trace q')
  /\ In (Complete (Ended (inr (JObj [])) true (Some (JNum 0)))) (trace q').
Proof.
  vm_compute. split; [|split].
  - intro H. inversion H as [|m H' E]. inversion H'.
  - do 14 right. left. reflexivity.
  - do 15 right. left. reflexivity.
Qed.

(* ------------------------------------------------------------------ *)
(** * Frames offered to a channel that cannot take them *)

(** C3, as the code has it.  A captured frame offered while there is no
    socket, or while the socket is not OPEN, is discarded on the spot:
    [onaudioprocess] returns normally and the page, its socket and both
    consoles are exactly as before, so the frame is neither transmitted
    nor queued nor logged; capture is not held up. *)
Theorem frame_offered_to_closed_channel_is_discarded
  (p : Page) (inputData : Float32Array) (others : list Float32Array) :
  (wsRef p = None
   \/ exists c, wsRef p = Some c /\ readyState c <> OPEN) ->
  onaudioprocess (inputData :: others) p = (p, inr tt).
Proof.
  intros [Hnone | (c & Hc & Hclosed)];
    unfold onaudioprocess, bind, read, lift, on_ws; simpl.
  - rewrite Hnone. reflexivity.
  - rewrite Hc. simpl. rewrite Hc.
    rewrite (sendAudio_not_open (buffer_of inputData) c Hclosed).
    rewrite (set_wsRef_same p c Hc). reflexivity.
Qed.

(** A frame captured before the socket has opened. *)
Lemma frame_discarded_witness :
  onaudioprocess [[(x00, x00, x80, x3f)]] (mount 0 true)
  = (mount 0 true, inr tt).
Proof.
  apply frame_offered_to_closed_channel_is_discarded.
  right. exists connect. split; [reflexivity | discriminate].
Defined.

(** C3 as stated fails: on a socket that is still connecting, [sendAudio]
    drops the frame without a trace; it is not on the wire and the
    console has not grown. *)
Lemma frame_is_dropped_silently :
  readyState connect <> OPEN
  /\ ~ accounted_for [x00; x00; x80; x3f] connect
         (fst (sendAudio [x00; x00; x80; x3f] connect)).
Proof.
  split; [discriminate|].
  intros [H|H]; simpl in H; [contradiction | lia].
Qed.

(* ------------------------------------------------------------------ *)
(** * The face-presence source *)

Lemma reports_snoc (t : list Effect) (e : Effect) :
  reports (t ++ [e]) = reports t ++ (if is_report e then [e] else []).
Proof.
  unfold reports. rewrite filter_app. simpl.
  destruct (is_report e); reflexivity.
Qed.

(** No face, and at most 3000 ms since the reference time: nothing
    happens. *)
Lemma detectFace_within_grace (p : Page) (now now' : Z) :
  (now - lastFaceDetectedRef p <= 3000)%Z ->
  detectFace (Faces 0) now now' p = (p, inr tt).
Proof.
  intro H.
  unfold detectFace, detectFace_returns, detectFace_settled, bind, read,
    try_catch, lift, ret.
  destruct (negb (videoRef p) || negb (faceDetectorRef p) || seenTerminated p);
    [reflexivity|].
  simpl. destruct (now - lastFaceDetectedRef p >? 3000)%Z eqn:E.
  - apply Z.gtb_lt in E. lia.
  - reflexivity.
Qed.

(** No face for more than 3000 ms since the reference time: one
    [no_face] report, and the reference time moves to the second clock
    reading. *)
Lemma detectFace_beyond_grace (p : Page) (now now' : Z) :
  videoRef p = true -> faceDetectorRef p = true -> seenTerminated p = false ->
  (now - lastFaceDetectedRef p > 3000)%Z ->
  exists q,
    detectFace (Faces 0) now now' p = (q, inr tt)
    /\ reports (trace q) = reports (trace p) ++ [ReportCheating "no_face" 0.8]
    /\ lastFaceDetectedRef q = now'.
Proof.
  intros Hv Hf Ht H.
  unfold detectFace, detectFace_returns, detectFace_settled, bind, read,
    try_catch, lift, ret.
  rewrite Hv, Hf, Ht. simpl.
  assert (E : (now - lastFaceDetectedRef p >? 3000)%Z = true)
    by (apply Z.gtb_lt; lia).
  rewrite E. unfold say, handleCheatingDetection, bind, say, emit, modify.
  simpl. eexists. split; [reflexivity|]. simpl.
  rewrite !reports_snoc. simpl. rewrite !app_nil_r. split; reflexivity.
Qed.

(** More than one face: a [multiple_faces] report at once, whatever the
    clock says, and the reference time is left where it was. *)
Lemma detectFace_several_faces (p : Page) (n : nat) (now now' : Z) :
  videoRef p = true -> faceDetectorRef p = true -> seenTerminated p = false ->
  exists q,
    detectFace (Faces (S (S n))) now now' p = (q, inr tt)
    /\ reports (trace q)
       = reports (trace p) ++ [ReportCheating "multiple_faces" 0.9]
    /\ lastFaceDetectedRef q = lastFaceDetectedRef p.
Proof.
  intros Hv Hf Ht.
  unfold detectFace, detectFace_returns, detectFace_settled, bind, read,
    try_catch, lift, ret.
  rewrite Hv, Hf, Ht. simpl.
  unfold say, handleCheatingDetection, bind, say, emit, modify.
  simpl. eexists. split; [reflexivity|]. simpl.
  rewrite !reports_snoc. simpl. rewrite !app_nil_r. split; reflexivity.
Qed.

(** Exactly one face: no report, and the reference time becomes the
    time of the poll. *)
Lemma detectFace_one_face (p : Page) (now now' : Z) :
  videoRef p = true -> faceDetectorRef p = true -> seenTerminated p = false ->
  detectFace (Faces 1) now now' p = (set_lastFaceDetectedRef now p, inr tt).
Proof.
  intros Hv Hf Ht.
  unfold detectFace, detectFace_returns, detectFace_settled, bind, read,
    try_catch, lift, ret.
  rewrite Hv, Hf, Ht. reflexivity.
Qed.

(** A poll that settles at once is a tick of the timer followed by the
    settlement of the detection it started, with nothing in between. *)
Lemma poll_in_two_steps (JSON_parse : string -> option Json)
  (d : Detection) (now now' : Z) (p : Page) :
  detecting p = 0%nat ->
  run JSON_parse [FaceTick; FaceSettled d now now'] p
  = exec JSON_parse (FacePoll d now now') p.
Proof.
  intro Hd. unfold run, exec. simpl.
  unfold detectFace, detectFace_started, detectFace_resumed,
    detectFace_returns, bind, read, ret, modify.
  destruct (negb (videoRef p) || negb (faceDetectorRef p) || seenTerminated p);
    simpl.
  - rewrite Hd. reflexivity.
  - destruct p; reflexivity.
Qed.

(** Polls that see no face during the first 2.5 seconds after the page
    was mounted report nothing. *)
Example no_report_below_grace :
  reports (trace (run sample_parse
     [FacePoll (Faces 0) 1000 1000; FacePoll (Faces 0) 2000 2000;
      FacePoll (Faces 0) 2500 2500] (mount 0 true))) = [].
Proof. reflexivity. Qed.

(** A face missing for four seconds is reported once; two seconds later
    the absence is still within the restarted window. *)
Example one_report_per_grace_period :
  reports (trace (run sample_parse
     [FacePoll (Faces 0) 2000 2000; FacePoll (Faces 0) 4000 4001;
      FacePoll (Faces 0) 6000 6000] (mount 0 true)))
  = [ReportCheating "no_face" 0.8].
Proof. reflexivity. Qed.

(** C5 at the failing input.  The page is mounted at time 0; the poll at
    2000 ms sees two faces and the poll at 4000 ms sees none.  The
    several-faces branch does not touch the reference time, so the second
    poll measures 4000 ms since mount and reports [no_face], although
    faces were in view 2000 ms earlier. *)
Theorem no_face_reported_inside_grace_window :
  let p1 := exec sample_parse (FacePoll (Faces 2) 2000 2000) (mount 0 true) in
  let p2 := exec sample_parse (FacePoll (Faces 0) 4000 4000) p1 in
  reports (trace p1) = [ReportCheating "multiple_faces" 0.9]
  /\ lastFaceDetectedRef p1 = 0%Z
  /\ reports (trace p2)
     = [ReportCheating "multiple_faces" 0.9; ReportCheating "no_face" 0.8].
Proof. repeat split. Qed.

(* ------------------------------------------------------------------ *)
(** * After the socket has closed *)

Section RestrictedRuns.

Context (R : Page -> Page -> Prop) `{!PreOrder R}.
Variable JSON_parse : string -> option Json.
Variable allowed : Event -> bool.

Lemma preserves_run_of :
  (forall e, allowed e = true -> preserves R (step JSON_parse e)) ->
  forall evs p, forallb allowed evs = true -> R p (run JSON_parse evs p).
Proof.
  intros H evs. induction evs as [|e rest IH]; intros p Hall; simpl in *.
  - reflexivity.
  - apply andb_true_iff in Hall. destruct Hall as [He Hrest].
    transitivity (exec JSON_parse e p); [apply H; exact He | apply IH; exact Hrest].
Qed.

End RestrictedRuns.

#[local] Instance stays_closed_preorder : PreOrder stays_closed.
Proof.
  split.
  - intros p H. split; [exact H | reflexivity].
  - intros p q r Hpq Hqr H. destruct (Hpq H) as [Hq Hs].
    destruct (Hqr Hq) as [Hr Hs']. split; [exact Hr | congruence].
Qed.

Ltac closed_update :=
  unfold stays_closed, socket_state, sent; simpl;
  try (intro; split; [assumption | reflexivity]).

(** An operation that leaves a closed socket closed and its wire alone. *)
Lemma on_ws_stays_closed (op : M Chan unit) :
  (forall c, readyState c = CLOSED ->
             readyState (fst (op c)) = CLOSED /\ wire (fst (op c)) = wire c) ->
  preserves stays_closed (on_ws op).
Proof.
  intros Hop p. apply keeps_on_ws; [typeclasses eauto|].
  intros c Hc. unfold stays_closed, socket_state, sent. simpl.
  rewrite Hc. simpl. intro E. injection E as E.
  destruct (Hop c E) as [H1 H2]. rewrite H1, H2. split; reflexivity.
Qed.

Lemma close_on_closed (c : Chan) :
  readyState c = CLOSED -> fst (close c) = c.
Proof. intro H. unfold close, ws_close. rewrite H. reflexivity. Qed.

Lemma sendAudio_on_closed (b : list byte) (c : Chan) :
  readyState c = CLOSED -> fst (sendAudio b c) = c.
Proof. intro H. unfold sendAudio. rewrite H. reflexivity. Qed.

Ltac closed_handler :=
  unfold_handlers; handler_steps;
  try match goal with
      | |- keeps _ (modify _) _ => apply keeps_modify; closed_update
      | |- keeps _ (on_ws close) _ =>
          apply on_ws_stays_closed;
          let c := fresh "c" in
          let Hc := fresh "Hc" in
          intros c Hc; rewrite (close_on_closed c Hc); auto
      | |- keeps _ (on_ws (sendAudio _)) _ =>
          apply on_ws_stays_closed;
          let c := fresh "c" in
          let Hc := fresh "Hc" in
          intros c Hc; rewrite (sendAudio_on_closed _ c Hc); auto
      end.

Lemma callback_stays_closed (i : Invocation) :
  preserves stays_closed (callback i).
Proof. destruct i; closed_handler. Qed.

(** No event re-opens a closed socket or puts anything on its wire. *)
Lemma step_stays_closed (JSON_parse : string -> option Json) (e : Event) :
  preserves stays_closed (step JSON_parse e).
Proof.
  destruct e; try (closed_handler; fail).
  apply preserves_socket_event; [typeclasses eauto | | | | ].
  - apply callback_stays_closed.
  - intros l msg. apply on_ws_stays_closed. intros c Hc. split; assumption || reflexivity.
  - intros p c Hc Hst. unfold stays_closed, socket_state. rewrite Hc. simpl.
    intro E. injection E as E. rewrite E in Hst. discriminate Hst.
  - intros p c Hc Hst. unfold stays_closed, socket_state. rewrite Hc. simpl.
    intro E. injection E as E. contradiction.
Qed.

Lemma scheduled_app (t u : list Effect) :
  scheduled (t ++ u) = scheduled t ++ scheduled u.
Proof.
  induction t as [|e t IH]; simpl; [reflexivity|].
  destruct e; simpl; rewrite ?IH; reflexivity.
Qed.

#[local] Instance same_schedule_preorder : PreOrder same_schedule.
Proof.
  split.
  - intro p. split; reflexivity.
  - intros p q r [H1 H2] [H3 H4]. split; congruence.
Qed.

Ltac schedule_update :=
  unfold same_schedule; simpl; rewrite ?scheduled_app; simpl;
  rewrite ?app_nil_r; split; reflexivity.

Lemma callback_same_schedule (i : Invocation) :
  preserves same_schedule (callback i).
Proof. destruct i; handler_keeps schedule_update. Qed.

(** Only [playAudio] schedules playback or moves its cursor. *)
Lemma step_same_schedule (JSON_parse : string -> option Json) (e : Event) :
  not_audio_ready e = true -> preserves same_schedule (step JSON_parse e).
Proof.
  intro H. destruct e; try discriminate H;
    try (handler_keeps schedule_update; fail).
  socket_keeps schedule_update callback_same_schedule.
Qed.

(** Once the socket has closed, the capture callback still runs but
    changes nothing. *)
Lemma onaudioprocess_after_close (p : Page) (inputBuffer : list Float32Array) :
  socket_state p = Some CLOSED ->
  fst (onaudioprocess inputBuffer p) = p.
Proof.
  unfold socket_state, onaudioprocess, bind, read, lift, on_ws.
  destruct (wsRef p) as [c|] eqn:Hc; [|discriminate].
  simpl. intro H. injection H as H.
  destruct inputBuffer as [|inputData others]; [reflexivity|].
  rewrite Hc.
  pose proof (sendAudio_on_closed (buffer_of inputData) c H) as Hsame.
  destruct (sendAudio (buffer_of inputData) c) as [c' r].
  simpl in *. subst c'. apply set_wsRef_same. exact Hc.
Qed.

(* ------------------------------------------------------------------ *)
(** * PCM16 to Float32 conversion *)

Lemma byte_val_range (b : byte) : (0 <= byte_val b <= 255)%Z.
Proof.
  unfold byte_val. pose proof (Byte.to_N_bounded b) as H.
  split; [apply N2Z.is_nonneg|].
  change 255%Z with (Z.of_N 255). apply N2Z.inj_le. exact H.
Qed.

Lemma int16_of_bytes_range (lo hi : byte) :
  (-32768 <= int16_of_bytes lo hi <= 32767)%Z.
Proof.
  unfold int16_of_bytes.
  pose proof (byte_val_range lo). pose proof (byte_val_range hi).
  cbv zeta. destruct (byte_val lo + 256 * byte_val hi <? 32768)%Z eqn:E.
  - apply Z.ltb_lt in E. lia.
  - apply Z.ltb_ge in E. lia.
Qed.

Lemma sample16_shift (lo hi : byte) (rest : list byte) (i : nat) :
  sample16 (lo :: hi :: rest) (S i) = sample16 rest i.
Proof.
  unfold sample16.
  replace (2 * S i)%nat with (S (S (2 * i))) by lia.
  replace (S (S (2 * i)) + 1)%nat with (S (S (2 * i + 1))) by lia.
  reflexivity.
Qed.

(** The [Int16Array] view of [2n] bytes has [n] elements, the samples of
    the payload in order. *)
Lemma Int16Array_even (n : nat) :
  forall buf, List.length buf = (2 * n)%nat ->
  exists pcm,
    Int16Array buf = inr pcm
    /\ List.length pcm = n
    /\ forall i, (i < n)%nat -> nth i pcm 0%Z = sample16 buf i.
Proof.
  induction n as [|n IH]; intros buf Hlen.
  - destruct buf; [|discriminate Hlen].
    exists []. repeat split. intros i Hi. lia.
  - destruct buf as [|lo [|hi rest]]; simpl in Hlen; try lia.
    destruct (IH rest ltac:(lia)) as (pcm & Hpcm & Hl & Hnth).
    exists (int16_of_bytes lo hi :: pcm). simpl. rewrite Hpcm.
    split; [reflexivity|]. split; [simpl; lia|].
    intros [|i] Hi.
    + reflexivity.
    + rewrite sample16_shift. apply Hnth. lia.
Qed.

Lemma store_middle (done : list Q) (x v : Q) (rest : list Q) :
  store (List.length done) v (done ++ x :: rest) = done ++ v :: rest.
Proof.
  induction done as [|d done IH]; simpl; [reflexivity|].
  rewrite IH. reflexivity.
Qed.

(** The conversion loop, from any point of its run: the samples already
    converted are kept and the remaining ones are filled in. *)
Lemma convert_loop_from (rest done : list Z) :
  convert_loop (List.length rest) (List.length done) (done ++ rest)
    (map (fun x => inject_Z x / 32768) done
       ++ Float32Array_new (List.length rest))
  = map (fun x => inject_Z x / 32768) (done ++ rest).
Proof.
  revert done. induction rest as [|x rest IH]; intro done; simpl.
  - unfold Float32Array_new. simpl. rewrite !app_nil_r. reflexivity.
  - rewrite app_nth2 by lia. rewrite Nat.sub_diag. simpl.
    rewrite <- (length_map (fun x => inject_Z x / 32768) done) at 2.
    change (Float32Array_new (S (List.length rest)))
      with (0 :: Float32Array_new (List.length rest)).
    rewrite store_middle.
    specialize (IH (done ++ [x])).
    rewrite length_app, map_app in IH. simpl in IH.
    replace (List.length done + 1)%nat with (S (List.length done)) in IH by lia.
    rewrite <- !app_assoc in IH. simpl in IH. exact IH.
Qed.

Lemma to_float32_map (pcm : list Z) :
  to_float32 pcm = map (fun x => inject_Z x / 32768) pcm.
Proof. apply (convert_loop_from pcm []). Qed.

Lemma scaled_sample_range (z : Z) :
  (-32768 <= z <= 32767)%Z ->
  -1 <= inject_Z z / 32768 /\ inject_Z z / 32768 < 1.
Proof.
  intro H. unfold Qle, Qlt, Qdiv, Qmult, Qinv, inject_Z. simpl. lia.
Qed.

(** C9. A payload of [2n] bytes converts without error to exactly [n]
    samples; sample [i] is the [i]-th little-endian signed 16-bit value of
    the payload divided by 32768, and lies in the interval from -1
    (included) to 1 (excluded). *)
Theorem pcm16_conversion (buf : list byte) (n : nat) :
  List.length buf = (2 * n)%nat ->
  exists out,
    pcm16_to_float32 buf = inr out
    /\ List.length out = n
    /\ forall i, (i < n)%nat ->
         nth i out 0 = inject_Z (sample16 buf i) / 32768
         /\ -1 <= nth i out 0 /\ nth i out 0 < 1.
Proof.
  intro Hlen.
  destruct (Int16Array_even n buf Hlen) as (pcm & Hpcm & Hl & Hnth).
  exists (to_float32 pcm). unfold pcm16_to_float32. rewrite Hpcm.
  split; [reflexivity|]. rewrite to_float32_map.
  split; [rewrite length_map; exact Hl|].
  intros i Hi.
  assert (E : nth i (map (fun x => inject_Z x / 32768) pcm) 0
              = inject_Z (sample16 buf i) / 32768).
  { rewrite <- (Hnth i Hi).
    rewrite nth_indep with (d' := (fun x => inject_Z x / 32768) 0%Z)
      by (rewrite length_map; lia).
    exact (map_nth (fun x => inject_Z x / 32768) pcm 0%Z i). }
  rewrite E. split; [reflexivity|].
  apply scaled_sample_range. unfold sample16. apply int16_of_bytes_range.
Qed.

(** The four bytes 00 80 ff 7f: the samples -32768 and 32767. *)
Lemma pcm16_conversion_witness :
  exists out,
    pcm16_to_float32 [x00; x80; xff; x7f] = inr out
    /\ List.length out = 2%nat
    /\ forall i, (i < 2)%nat ->
         nth i out 0 = inject_Z (sample16 [x00; x80; xff; x7f] i) / 32768
         /\ -1 <= nth i out 0 /\ nth i out 0 < 1.
Proof. apply (pcm16_conversion [x00; x80; xff; x7f] 2). reflexivity. Defined.

Example extreme_samples :
  pcm16_to_float32 [x00; x80; xff; x7f]
  = inr [inject_Z (-32768) / 32768; inject_Z 32767 / 32768].
Proof. reflexivity. Qed.

Example odd_payload_is_refused :
  pcm16_to_float32 [x00; x80; xff] = inl RangeError.
Proof. reflexivity. Qed.

(* ------------------------------------------------------------------ *)
(** * Playback scheduling *)

Lemma createBuffer_duration (data : list Q) (rate : Z) (b : AudioBuffer) :
  (0 < rate)%Z -> createBuffer data rate = inr b ->
  channelData b = data /\ 0 < duration b.
Proof.
  intros Hrate H. destruct data as [|x data]; [discriminate H|].
  injection H as <-. split; [reflexivity|].
  unfold duration. simpl channelData. simpl bufferRate.
  apply Qlt_shift_div_l.
  - unfold Qlt, inject_Z. simpl. lia.
  - unfold Qlt, inject_Z, Qmult. simpl. lia.
Qed.

Lemma playAudio_fails (buf : list byte) (now : Q) (p : Page) :
  (forall data, pcm16_to_float32 buf = inr data -> data = []) ->
  playAudio buf now p
  = (set_trace (trace p ++ [Log LError "Failed to play audio:"])
       (set_audioContextRef (Some (playback_context p)) p), inr tt).
Proof.
  intro H.
  unfold playAudio, try_catch, bind, read, lift, modify, say, emit,
    playback_context. simpl.
  destruct (pcm16_to_float32 buf) as [e|data]; simpl; [reflexivity|].
  rewrite (H data eq_refl). reflexivity.
Qed.

Lemma playAudio_plays (buf : list byte) (now : Q) (p : Page)
  (x : Q) (data : list Q) :
  pcm16_to_float32 buf = inr (x :: data) ->
  let b := {| channelData := x :: data; bufferRate := 24000 |} in
  let start := Qmax now (nextStartTimeRef p) in
  playAudio buf now p
  = (set_nextStartTimeRef (start + duration b)
       (set_trace (trace p ++ [SourceStart start b])
          (set_audioContextRef (Some (playback_context p)) p)), inr tt).
Proof.
  intros Hdata b start.
  unfold playAudio, try_catch, bind, read, lift, modify, say, emit,
    playback_context. simpl.
  rewrite Hdata. simpl.
  assert (Hpos : 0 < duration b).
  { apply (createBuffer_duration (x :: data) 24000 b); [lia | reflexivity]. }
  assert (Hle : now <= start + duration b).
  { apply Qle_trans with start; [apply Q.le_max_l|].
    rewrite <- (Qplus_0_r start) at 1.
    apply Qplus_le_r. apply Qlt_le_weak. exact Hpos. }
  unfold Qlt_bool. apply Qle_bool_iff in Hle.
  fold b. fold start. rewrite Hle. reflexivity.
Qed.

(** One run of [playAudio]: either it fails and the schedule is left
    alone, or it starts one buffer at the later of now and the cursor and
    moves the cursor to the end of that buffer. *)
Lemma playAudio_spec (buf : list byte) (now : Q) (p : Page) :
  let q := fst (playAudio buf now p) in
  same_schedule p q
  \/ exists b,
      pcm16_to_float32 buf = inr (channelData b)
      /\ 0 < duration b
      /\ scheduled (trace q)
         = scheduled (trace p)
             ++ [(Qmax now (nextStartTimeRef p),
                  Qmax now (nextStartTimeRef p) + duration b)]
      /\ nextStartTimeRef q = Qmax now (nextStartTimeRef p) + duration b.
Proof.
  unfold playAudio, try_catch, bind, read, lift, modify, say, emit. simpl.
  destruct (pcm16_to_float32 buf) as [e|data]; simpl.
  - left. schedule_update.
  - destruct (createBuffer data 24000) as [e|b] eqn:Hb; simpl.
    + left. schedule_update.
    + right. exists b.
      destruct (createBuffer_duration data 24000 b ltac:(lia) Hb) as [Hd Hpos].
      rewrite Hd. split; [reflexivity|]. split; [exact Hpos|].
      assert (Hle : now <= Qmax now (nextStartTimeRef p) + duration b).
      { apply Qle_trans with (Qmax now (nextStartTimeRef p)).
        - apply Q.le_max_l.
        - rewrite <- (Qplus_0_r (Qmax now (nextStartTimeRef p))) at 1.
          apply Qplus_le_r. apply Qlt_le_weak. exact Hpos. }
      unfold Qlt_bool. apply Qle_bool_iff in Hle. rewrite Hle. simpl.
      rewrite scheduled_app. simpl. split; reflexivity.
Qed.

Lemma ForallOrdPairs_snoc {A} (R : A -> A -> Prop) (l : list A) (g : A) :
  ForallOrdPairs R l -> Forall (fun f => R f g) l ->
  ForallOrdPairs R (l ++ [g]).
Proof.
  induction 1 as [|f l Hf Hl IH]; intro Hg; simpl.
  - constructor; constructor.
  - inversion Hg as [|f' l' Hfg Hlg]; subst. constructor.
    + apply Forall_app. split; [exact Hf | constructor; [exact Hfg | constructor]].
    + apply IH. exact Hlg.
Qed.

Lemma same_schedule_ok (p q : Page) :
  same_schedule p q -> schedule_ok p -> schedule_ok q.
Proof.
  intros [Ht Hc] [H1 H2]. unfold schedule_ok. rewrite Ht, Hc. split; assumption.
Qed.

Lemma Qmax_behind (now next : Q) : next < now -> Qmax now next = now.
Proof.
  intro H. unfold Qmax, GenericMinMax.gmax.
  destruct (Qcompare now next) eqn:E; try reflexivity.
  apply Qlt_alt in E. exfalso. apply (Qlt_irrefl now).
  apply Qlt_trans with next; assumption.
Qed.

Lemma step_keeps_schedule_ok (JSON_parse : string -> option Json)
  (e : Event) (p : Page) :
  schedule_ok p -> schedule_ok (exec JSON_parse e p).
Proof.
  intro Hok. destruct (not_audio_ready e) eqn:E.
  - apply (same_schedule_ok p); [|exact Hok].
    apply (step_same_schedule JSON_parse e E).
  - destruct e; try discriminate E. unfold exec, step.
    destruct (playAudio_spec arrayBuffer currentTime p)
      as [Hsame | (b & _ & Hpos & Ht & Hc)].
    + apply (same_schedule_ok p); assumption.
    + destruct Hok as [Hord Hend]. unfold schedule_ok. rewrite Ht, Hc.
      split.
      * apply ForallOrdPairs_snoc; [exact Hord|].
        eapply Forall_impl; [|exact Hend].
        intros f Hf. unfold before. simpl.
        apply Qle_trans with (nextStartTimeRef p); [exact Hf|].
        apply Q.le_max_r.
      * apply Forall_app. split.
        -- eapply Forall_impl; [|exact Hend].
           intros f Hf. simpl in Hf.
           apply Qle_trans with (nextStartTimeRef p); [exact Hf|].
           apply Qle_trans with (Qmax currentTime (nextStartTimeRef p));
             [apply Q.le_max_r|].
           rewrite <- (Qplus_0_r (Qmax currentTime (nextStartTimeRef p))) at 1.
           apply Qplus_le_r. apply Qlt_le_weak. exact Hpos.
        -- constructor; [simpl; apply Qle_refl | constructor].
Qed.

Lemma step_cursor_advances (JSON_parse : string -> option Json)
  (e : Event) (p : Page) :
  nextStartTimeRef p <= nextStartTimeRef (exec JSON_parse e p).
Proof.
  destruct (not_audio_ready e) eqn:E.
  - destruct (step_same_schedule JSON_parse e E p) as [_ Hc].
    unfold exec. rewrite Hc. apply Qle_refl.
  - destruct e; try discriminate E. unfold exec, step.
    destruct (playAudio_spec arrayBuffer currentTime p)
      as [[_ Hc] | (b & _ & Hpos & _ & Hc)]; rewrite Hc.
    + apply Qle_refl.
    + apply Qle_trans with (Qmax currentTime (nextStartTimeRef p));
        [apply Q.le_max_r|].
      rewrite <- (Qplus_0_r (Qmax currentTime (nextStartTimeRef p))) at 1.
      apply Qplus_le_r. apply Qlt_le_weak. exact Hpos.
Qed.

(** C4.  A run of [playAudio] that schedules a buffer starts it at the
    later of the audio clock and the cursor, so not before now and not
    before the cursor, and exactly at now when the cursor has fallen
    behind; the cursor then moves to the end of that buffer.  Along any
    sequence of events the cursor never moves backwards, and in every
    state reached from the mounted page the scheduled buffers are
    pairwise non-overlapping and all end by the cursor, so the next one
    starts no earlier than the end of the previous one. *)
Theorem playback_frames_never_overlap (JSON_parse : string -> option Json) :
  (forall buf now p,
      let q := exec JSON_parse (AudioReady buf now) p in
      same_schedule p q
      \/ exists b start,
          pcm16_to_float32 buf = inr (channelData b)
          /\ scheduled (trace q)
             = scheduled (trace p) ++ [(start, start + duration b)]
          /\ nextStartTimeRef q = start + duration b
          /\ now <= start
          /\ nextStartTimeRef p <= start
          /\ (nextStartTimeRef p < now -> start = now)
          /\ start <= start + duration b)
  /\ (forall evs p,
         nextStartTimeRef p <= nextStartTimeRef (run JSON_parse evs p))
  /\ (forall evs now hasFaceDetector,
         schedule_ok (run JSON_parse evs (mount now hasFaceDetector))).
Proof.
  split; [|split].
  - intros buf now p q. subst q. unfold exec, step.
    destruct (playAudio_spec buf now p) as [Hsame | (b & Hb & Hpos & Ht & Hc)].
    + left. exact Hsame.
    + right. exists b, (Qmax now (nextStartTimeRef p)).
      repeat (split; [assumption|]).
      split; [apply Q.le_max_l|]. split; [apply Q.le_max_r|].
      split; [apply Qmax_behind|].
      rewrite <- (Qplus_0_r (Qmax now (nextStartTimeRef p))) at 1.
      apply Qplus_le_r. apply Qlt_le_weak. exact Hpos.
  - intro evs. induction evs as [|e rest IH]; intro p; simpl.
    + apply Qle_refl.
    + apply Qle_trans with (nextStartTimeRef (exec JSON_parse e p));
        [apply step_cursor_advances | apply IH].
  - intros evs now fd.
    assert (H0 : schedule_ok (mount now fd)).
    { unfold schedule_ok. destruct fd; simpl; split; constructor. }
    revert H0. generalize (mount now fd).
    induction evs as [|e rest IH]; intros p Hp; simpl.
    + exact Hp.
    + apply IH. apply step_keeps_schedule_ok. exact Hp.
Qed.

(** Two buffers of one sample each: the first arrives at 0.5 s, the
    second at 0.7 s, long after the first has finished playing. *)
Lemma playback_witness :
  scheduled (trace (run sample_parse
     [AudioReady [x00; x40] 0.5; AudioReady [x00; x40] 0.7] (mount 0 true)))
  = [(0.5, 0.5 + inject_Z 1 / inject_Z 24000);
     (0.7, 0.7 + inject_Z 1 / inject_Z 24000)]
  /\ (exists b start,
         scheduled (trace (exec sample_parse (AudioReady [x00; x40] 0.7)
                             (exec sample_parse (AudioReady [x00; x40] 0.5)
                                (mount 0 true))))
         = scheduled (trace (exec sample_parse (AudioReady [x00; x40] 0.5)
                               (mount 0 true)))
             ++ [(start, start + duration b)]
         /\ start = 0.7).
Proof.
  split; [reflexivity|].
  destruct (playback_frames_never_overlap sample_parse) as (Hone & _ & _).
  destruct (Hone [x00; x40] 0.7
              (exec sample_parse (AudioReady [x00; x40] 0.5) (mount 0 true)))
    as [[Hsame _] | (b & start & _ & Ht & _ & _ & _ & Hnow & _)].
  - exfalso. vm_compute in Hsame. discriminate Hsame.
  - exists b, start. split; [exact Ht|]. apply Hnow. reflexivity.
Defined.

(* ------------------------------------------------------------------ *)
(** * Connection loss *)

(** The [close] event on a socket that has not closed yet: the platform
    moves [readyState], the handler logs one line and [onDisconnected]
    sets the status. *)
Lemma close_event (JSON_parse : string -> option Json)
  (p : Page) (c : Chan) (code : Z) :
  wsRef p = Some c -> readyState c <> CLOSED ->
  exec JSON_parse (Socket (EvClose code)) p
  = set_status StDisconnected
      (set_wsRef (Some (print (Console LLog "WebSocket closed:")
                          (set_readyState CLOSED c))) p).
Proof.
  intros Hws Hopen. unfold exec, step, socket_event, fire, bind, gets.
  simpl. rewrite Hws. simpl.
  destruct (readyState c) eqn:E; try contradiction;
    unfold on_socket, onclose, bind, on_socket, modify, log, modify;
    simpl; rewrite Hws; simpl; destruct p; reflexivity.
Qed.

(** C6, as the code has it.  When the socket closes, [status] becomes
    [disconnected], the socket record is CLOSED with one more console
    line, and nothing else on the page changes.  In particular the script
    processors stay connected and [isRecording] keeps its value, so
    capture goes on, but every frame captured from then on is discarded by
    [sendAudio]; and the playback schedule and its cursor are as they
    were.  From then on, whatever happens, the socket stays CLOSED (no
    second connection is ever made) and nothing more is transmitted.
    Playback is not stopped either: every later event other than a
    [playAudio] run leaves the schedule alone, and a [playAudio] run on a
    playable payload still schedules its buffer, at the later of the
    audio clock and the cursor. *)
Theorem connection_loss_only_flags_the_page
  (JSON_parse : string -> option Json) (p : Page) (c : Chan) (code : Z) :
  wsRef p = Some c -> readyState c <> CLOSED ->
  let q := exec JSON_parse (Socket (EvClose code)) p in
  q = set_status StDisconnected
        (set_wsRef (Some (print (Console LLog "WebSocket closed:")
                            (set_readyState CLOSED c))) p)
  /\ status q = StDisconnected
  /\ same_capture p q
  /\ same_schedule p q
  /\ (forall inputBuffer, fst (onaudioprocess inputBuffer q) = q)
  /\ (forall evs,
         socket_state (run JSON_parse evs q) = Some CLOSED
         /\ sent (run JSON_parse evs q) = sent p)
  /\ (forall evs,
         forallb not_audio_ready evs = true ->
         same_schedule q (run JSON_parse evs q))
  /\ (forall evs buf now x data,
         pcm16_to_float32 buf = inr (x :: data) ->
         let r := run JSON_parse evs q in
         let b := {| channelData := x :: data; bufferRate := 24000 |} in
         let start := Qmax now (nextStartTimeRef r) in
         scheduled (trace (exec JSON_parse (AudioReady buf now) r))
         = scheduled (trace r) ++ [(start, start + duration b)]).
Proof.
  intros Hws Hopen q.
  assert (Hq : q = set_status StDisconnected
                     (set_wsRef (Some (print (Console LLog "WebSocket closed:")
                                         (set_readyState CLOSED c))) p))
    by (apply close_event; assumption).
  assert (Hsock : socket_state q = Some CLOSED) by (rewrite Hq; reflexivity).
  assert (Hsent : sent q = sent p).
  { rewrite Hq. unfold sent. simpl. rewrite Hws. reflexivity. }
  split; [exact Hq|].
  split; [rewrite Hq; reflexivity|].
  split; [rewrite Hq; split; reflexivity|].
  split; [rewrite Hq; split; reflexivity|].
  split; [|split; [|split]].
  - intro inputBuffer. apply onaudioprocess_after_close. exact Hsock.
  - intro evs.
    destruct (preserves_run stays_closed JSON_parse
                (step_stays_closed JSON_parse) evs q Hsock) as [H1 H2].
    split; [exact H1 | congruence].
  - intros evs Hevs.
    apply (preserves_run_of same_schedule JSON_parse not_audio_ready
             (step_same_schedule JSON_parse) evs q Hevs).
  - intros evs buf now x data Hdata r b start. subst r b start.
    unfold exec at 1. unfold step.
    rewrite (playAudio_plays buf now _ x data Hdata). simpl.
    rewrite scheduled_app. reflexivity.
Qed.

(** The socket of a recording page closes abnormally; frames keep being
    captured afterwards. *)
Lemma connection_loss_witness :
  let q := exec sample_parse (Socket (EvClose 1006)) recording_page in
  status q = StDisconnected
  /\ same_capture recording_page q
  /\ socket_state
       (run sample_parse
          [AudioProcess 0 [repeat (x00, x00, x00, x00) 4096];
           Socket EvOpen; Socket (EvMessage (Text ping_text))] q)
     = Some CLOSED.
Proof.
  assert (Hws : wsRef recording_page
                = Some (print (Console LLog "WebSocket connected")
                          (set_readyState OPEN connect)))
    by reflexivity.
  pose proof (connection_loss_only_flags_the_page sample_parse recording_page
                _ 1006 Hws) as H.
  destruct H as (_ & H1 & H2 & _ & _ & H5 & _); [discriminate|].
  split; [exact H1 | split; [exact H2 | apply H5]].
Defined.

(** C6 as stated fails: after the socket of a recording page has closed,
    the page is [disconnected] but still capturing, and audio that is
    played afterwards is still scheduled. *)
Lemma capture_goes_on_after_disconnect :
  let q := exec sample_parse (Socket (EvClose 1006)) recording_page in
  status q = StDisconnected
  /\ ~ (capturing q = false)
  /\ ~ (isRecording q = false)
  /\ ~ (scheduled (trace (exec sample_parse (AudioReady [x00; x40] 0.5) q))
        = scheduled (trace q)).
Proof. vm_compute. repeat split; discriminate. Qed.

(* ------------------------------------------------------------------ *)
(** * The outbound audio format *)

#[local] Instance keeps_capture_ok_preorder : PreOrder keeps_capture_ok.
Proof.
  split.
  - intros p H. exact H.
  - intros p q r Hpq Hqr H. apply Hqr, Hpq, H.
Qed.

Lemma unwire_format (i : nat) (g : list Processor) :
  Forall capture_format g -> Forall capture_format (unwire i g).
Proof.
  revert i. induction g as [|pr g IH]; intros i H; simpl.
  - destruct i; constructor.
  - inversion H as [|pr' g' Hpr Hg]; subst.
    destruct i; constructor; auto.
Qed.

Lemma wire_close (c : Chan) : wire (fst (close c)) = wire c.
Proof. unfold close, ws_close. destruct (readyState c); reflexivity. Qed.

Lemma buffer_of_length (samples : Float32Array) (n : nat) :
  List.length samples = n -> List.length (buffer_of samples) = (4 * n)%nat.
Proof.
  intros <-. unfold buffer_of.
  induction samples as [|[[[b0 b1] b2] b3] rest IH]; simpl; [reflexivity|].
  rewrite IH. lia.
Qed.

(** What the platform hands to a processor of the capture format: one
    channel of 4096 samples. *)
Lemma delivered_buffer (pr : Processor) (inputBuffer : list Float32Array) :
  capture_format pr -> delivers pr inputBuffer = true ->
  exists samples,
    inputBuffer = [samples] /\ List.length samples = 4096%nat.
Proof.
  intros (Hsize & Hin & _) H. unfold delivers in H.
  apply andb_true_iff in H. destruct H as [H Hall].
  apply andb_true_iff in H. destruct H as [_ Hlen].
  rewrite Hin in Hlen. apply Nat.eqb_eq in Hlen.
  destruct inputBuffer as [|samples [|? ?]]; try discriminate Hlen.
  exists samples. split; [reflexivity|].
  simpl in Hall. apply andb_true_iff in Hall. destruct Hall as [Hs _].
  apply Nat.eqb_eq in Hs. rewrite Hs. exact Hsize.
Qed.

Lemma onaudioprocess_keeps_capture_ok (samples : Float32Array) (p : Page) :
  List.length samples = 4096%nat ->
  keeps keeps_capture_ok (onaudioprocess [samples]) p.
Proof.
  intros Hlen (H1 & H2 & H3).
  unfold onaudioprocess, bind, read, lift, on_ws, capture_ok, sent in *.
  destruct (wsRef p) as [c|] eqn:Hc; simpl.
  - rewrite Hc. unfold sendAudio, ws_send.
    destruct (readyState c); simpl; (split; [exact H1 | split; [exact H2|]]);
      try exact H3.
    apply Forall_app. split; [exact H3|].
    constructor; [|constructor]. exists samples. split; [reflexivity | exact Hlen].
  - rewrite Hc. split; [exact H1 | split; [exact H2 | constructor]].
Qed.

Ltac capture_unfold :=
  unfold step, callback, handleVisibilityChange, handleBlur, handleContextMenu,
    handleCopy, detectFace, detectFace_started, detectFace_resumed,
    detectFace_settled, detectFace_returns, reportCheating_settled,
    endInterview_settled, render, effects, unmount,
    handleInterviewEnd, cleanup, handleCheatingDetection, playAudio,
    startAudioCapture, say, emit.

(** The three parts of [capture_ok] after a store update, from the parts
    before it and what the handler has read. *)
Ltac capture_update :=
  unfold keeps_capture_ok, capture_ok, sent; simpl;
  let H1 := fresh "H1" in
  let H2 := fresh "H2" in
  let H3 := fresh "H3" in
  intros (H1 & H2 & H3);
  split;
  [ first [ exact H1
          | destruct H1 as [H1|H1]; [congruence | right; exact H1]
          | destruct H1 as [H1|H1];
            [left; exact H1 | right; rewrite H1; reflexivity] ]
  | split;
    [ first [ exact H2
            | apply unwire_format; exact H2
            | apply Forall_app; split; [exact H2|];
              constructor; [|constructor];
              destruct H1 as [H1|H1]; [congruence|];
              match goal with
              | E : audioContextRef _ = Some _ |- _ =>
                  rewrite H1 in E; injection E as <-
              end;
              repeat split ]
    | first [ exact H3
            | match goal with
              | E : wsRef _ = Some _ |- _ => rewrite E in H3
              end;
              rewrite ?wire_close; exact H3 ] ] ].

Ltac capture_handler :=
  capture_unfold; handler_steps;
  try match goal with
      | |- keeps _ (modify _) _ => apply keeps_modify; capture_update
      | |- keeps _ (on_ws _) _ =>
          apply keeps_on_ws; [typeclasses eauto | intros ? ?; capture_update]
      end.

Lemma callback_keeps_capture_ok (i : Invocation) :
  preserves keeps_capture_ok (callback i).
Proof. destruct i; capture_handler. Qed.

Lemma step_keeps_capture_ok (JSON_parse : string -> option Json) (e : Event) :
  preserves keeps_capture_ok (step JSON_parse e).
Proof.
  destruct e; try (capture_handler; fail).
  - (* media access granted: the stream and the 16 kHz context together *)
    intros p (H1 & H2 & H3). unfold capture_ok, sent in *. simpl.
    split; [right; reflexivity | split; assumption].
  - (* a socket event: its handlers transmit nothing *)
    socket_keeps capture_update callback_keeps_capture_ok.
  - (* a processor delivers a buffer *)
    capture_handler.
    match goal with
    | Hpr : nth_error (graph ?s) _ = Some ?pr,
      Hd : delivers ?pr _ = true |- _ =>
        intro Hok;
        assert (Hfmt : capture_format pr)
          by (destruct Hok as (_ & Hg & _);
              eapply Forall_forall; [exact Hg | eapply nth_error_In; exact Hpr]);
        destruct (delivered_buffer pr _ Hfmt Hd) as (samples & -> & Hlen);
        exact (onaudioprocess_keeps_capture_ok samples s Hlen Hok)
    end.
Qed.

(** C8.  In every state reached from the mounted page, by any events in
    any order: every script processor was created with a buffer of 4096
    frames and one input channel on a 16 kHz context, and everything the
    page has sent over the socket is a binary frame holding the bytes of
    exactly 4096 32-bit samples (16384 bytes), the single channel of one
    such buffer. *)
Theorem outbound_frames_are_mono_4096_at_16k
  (JSON_parse : string -> option Json) (evs : list Event)
  (now : Z) (hasFaceDetector : bool) :
  let p := run JSON_parse evs (mount now hasFaceDetector) in
  Forall capture_format (graph p)
  /\ Forall pcm_frame (sent p)
  /\ Forall (fun d => exists b,
                d = Binary b /\ Z.of_nat (List.length b) = 16384%Z)
       (sent p).
Proof.
  intro p.
  assert (H0 : capture_ok (mount now hasFaceDetector)).
  { unfold capture_ok, sent. simpl. repeat split; auto. }
  pose proof (preserves_run keeps_capture_ok JSON_parse
                (step_keeps_capture_ok JSON_parse) evs _ H0)
    as (_ & Hg & Hs).
  fold p in Hg, Hs.
  split; [exact Hg | split; [exact Hs|]].
  eapply Forall_impl; [|exact Hs].
  intros d (samples & -> & Hlen). eexists. split; [reflexivity|].
  rewrite (buffer_of_length samples 4096 Hlen). vm_compute. reflexivity.
Qed.

(** A page that was granted media access, connected, and captured two
    buffers: two frames of 16384 bytes are on the wire. *)
Example two_frames_sent :
  map (fun d => match d with
                | Binary b => Z.of_nat (List.length b)
                | Text _ => 0%Z
                end)
    (sent (run sample_parse
             [AudioProcess 0 [repeat (x00, x00, x00, x00) 4096];
              AudioProcess 0 [repeat (x00, x00, x80, x3f) 4096]]
             recording_page))
  = [16384%Z; 16384%Z].
Proof. vm_compute. reflexivity. Qed.


(* ------------------------------------------------------------------ *)
(** * Further properties of the session channel *)

(** The page's own callbacks return normally on everything the socket's
    handlers pass them. *)
Lemma page_socket_event_returns (JSON_parse : string -> option Json)
  (ev : WsEvent) (p : Page) :
  snd (socket_event JSON_parse ev p) = inr tt.
Proof.
  unfold socket_event, fire, bind, gets. simpl.
  destruct (wsRef p) as [c|] eqn:Hc; simpl; [|destruct ev; reflexivity].
  destruct ev as [|d| |code], (readyState c) eqn:Hst; try reflexivity;
    try (unfold onopen, onerror, onclose, on_socket, bind, log, modify, invoke,
           callback, startAudioCapture, say, emit, bind, read, modify;
         simpl; rewrite ?Hc; simpl;
         repeat match goal with
                | |- context [match ?x with _ => _ end] => destruct x; simpl
                end; reflexivity).
  - unfold onopen, on_socket, bind, log, modify, invoke.
    simpl. rewrite Hc. simpl.
    unfold bind, modify, startAudioCapture, bind, read, say, emit, modify.
    simpl. destruct (streamRef p), (audioContextRef p); reflexivity.
  - destruct d as [s|blob]; [|reflexivity].
    unfold onmessage, try_catch.
    match goal with
    | |- snd (match ?m with _ => _ end) = _ => destruct m as [p' [e|[]]]
    end; [|reflexivity].
    unfold on_socket. simpl. destruct (wsRef p'); reflexivity.
Qed.

(** X1. Which exceptions leave the socket's handlers.  [onmessage] on a
    text message returns normally whatever the text, the parser and the
    callbacks do: its [try] encloses the callback.  The [Blob] branch of
    [onmessage], [onopen], [onerror] and [onclose] call their callback
    outside any [try]: each ends as that callback ends, so an exception
    thrown by the callback leaves the handler.  Hence when no callback
    throws, no handler throws; and with the callbacks the interview page
    registers, no handler throws. *)
Theorem socket_handlers_throw_what_callbacks_throw
  {S : Type} {W : World S} (JSON_parse : string -> option Json)
  (cb : Callbacks S) :
  (forall s w, snd (onmessage JSON_parse cb (Text s) w) = inr tt)
  /\ (forall blob w,
         onmessage JSON_parse cb (Binary blob) w = call cb (OnAudio blob) w)
  /\ (forall w,
         snd (onopen cb w)
         = snd (call cb (OnConnected None)
                  (fst (on_socket (log LLog "WebSocket connected") w))))
  /\ (forall w,
         snd (onerror cb w)
         = snd (call cb (OnError (Some (JStr "Connection error")))
                  (fst (on_socket (log LError "WebSocket error:") w))))
  /\ (forall code w,
         snd (onclose cb code w)
         = snd (call cb (OnDisconnected code)
                  (fst (on_socket (log LLog "WebSocket closed:") w))))
  /\ ((forall i w, snd (call cb i w) = inr tt) ->
      forall ev w, snd (fire JSON_parse cb ev w) = inr tt)
  /\ (forall ev p, snd (socket_event JSON_parse ev p) = inr tt).
Proof.
  assert (Hlog : forall l msg w,
             snd (on_socket (log l msg) w) = inr tt).
  { intros l msg w. unfold on_socket. destruct (socket_of w); reflexivity. }
  assert (Htext : forall s w, snd (onmessage JSON_parse cb (Text s) w) = inr tt).
  { intros s w. unfold onmessage, try_catch.
    match goal with
    | |- snd (match ?m with _ => _ end) = _ => destruct m as [w' [e|[]]]
    end; [apply Hlog | reflexivity]. }
  assert (Hseq : forall l msg (k : M S unit) w,
             snd ((on_socket (log l msg) ;;; k)%js w)
             = snd (k (fst (on_socket (log l msg) w)))).
  { intros l msg k w. unfold bind.
    pose proof (Hlog l msg w) as E.
    destruct (on_socket (log l msg) w) as [w' [e|[]]]; simpl in *;
      [discriminate E | reflexivity]. }
  split; [exact Htext|].
  split; [reflexivity|].
  split; [intro w; apply Hseq|].
  split; [intro w; apply Hseq|].
  split; [intros code w; apply Hseq|].
  split; [|apply page_socket_event_returns].
  intros Hcb ev w. unfold fire, bind, gets. simpl.
  assert (Hmove : forall r (k : M S unit) u,
             (forall v, snd (k v) = inr tt) ->
             snd ((on_socket (modify (set_readyState r)) ;;; k)%js u) = inr tt).
  { intros r k u Hk. unfold bind, on_socket.
    destruct (socket_of u); simpl; apply Hk. }
  assert (Hopen : forall v, snd (onopen cb v) = inr tt).
  { intro v. unfold onopen. rewrite Hseq. apply (Hcb (OnConnected None)). }
  assert (Herror : forall v, snd (onerror cb v) = inr tt).
  { intro v. unfold onerror. rewrite Hseq.
    apply (Hcb (OnError (Some (JStr "Connection error")))). }
  assert (Hclose : forall code v, snd (onclose cb code v) = inr tt).
  { intros code v. unfold onclose. rewrite Hseq.
    apply (Hcb (OnDisconnected code)). }
  destruct (socket_of w) as [c|]; simpl; [|destruct ev; reflexivity].
  destruct ev as [|d| |code], (readyState c); try reflexivity;
    try (apply Hmove; first [exact Hopen | exact (Hclose code)]);
    try apply Herror.
  destruct d as [s|blob]; [apply Htext | apply (Hcb (OnAudio blob))].
Qed.

(** With callbacks that all throw, [onopen] throws and a text message
    does not; with callbacks that only close the socket, nothing throws. *)
Lemma socket_handlers_throw_witness :
  snd (onopen (throwing TypeError) connect) = inl TypeError
  /\ snd (onmessage sample_parse (throwing TypeError) (Text ping_text) connect)
     = inr tt
  /\ snd (fire sample_parse all_callbacks EvOpen connect) = inr tt.
Proof.
  destruct (socket_handlers_throw_what_callbacks_throw sample_parse
              (throwing TypeError)) as (Htext & _ & Hopen & _).
  destruct (socket_handlers_throw_what_callbacks_throw sample_parse
              all_callbacks) as (_ & _ & _ & _ & _ & Hall & _).
  split; [rewrite Hopen; reflexivity|].
  split; [apply Htext|].
  apply Hall. intros i w. destruct i; simpl; unfold close, ws_close;
    destruct (readyState w); reflexivity.
Defined.

(** What a text message does when [recipient] names its callback: the
    callback runs inside the [try]. *)
Lemma onmessage_delivers {S : Type} {W : World S}
  (JSON_parse : string -> option Json) (cb : Callbacks S)
  (s : string) (i : Invocation) (w : S) :
  recipient JSON_parse (Text s) = Some i ->
  onmessage JSON_parse cb (Text s) w
  = try_catch (call cb i)
      (fun _ => on_socket (log LError "Failed to parse message:")) w.
Proof.
  unfold recipient, onmessage, try_catch, bind, parse, lift, ret, throw.
  destruct (JSON_parse s) as [data|]; [|discriminate].
  destruct (get_prop data "type") as [e|[[| | |t| |]|]]; try discriminate.
  unfold dispatch.
  repeat match goal with
         | |- context [if String.eqb t ?k then _ else _] =>
             destruct (String.eqb t k)
         end; try discriminate;
    try (intro E; injection E as <-; reflexivity);
    match goal with
    | |- context [get_prop data ?k] =>
        destruct (get_prop data k); [discriminate|];
        intro E; injection E as <-; reflexivity
    end.
Qed.

(** What a text message does when [recipient] names no callback: one
    console line. *)
Lemma onmessage_logs {S : Type} {W : World S}
  (JSON_parse : string -> option Json) (cb : Callbacks S) (s : string) :
  recipient JSON_parse (Text s) = None ->
  exists entry, forall w,
    onmessage JSON_parse cb (Text s) w = on_socket (modify (print entry)) w.
Proof.
  unfold recipient, onmessage, try_catch, bind, parse, lift, ret, throw.
  destruct (JSON_parse s) as [data|];
    [|intros _; eexists; intro w; reflexivity].
  assert (Hkeep : forall l msg w,
             match on_socket (log l msg) w with
             | (w', inl e) =>
                 on_socket (log LError "Failed to parse message:") w'
             | r => r
             end = on_socket (modify (print (Console l msg))) w).
  { intros l msg w. unfold on_socket, log, modify.
    destruct (socket_of w); reflexivity. }
  destruct (get_prop data "type") as [e|[[| | |t| |]|]] eqn:Hty;
    try (intros _; eexists; intro w; first [apply Hkeep | reflexivity]).
  unfold dispatch.
  repeat match goal with
         | |- context [if String.eqb t ?k then _ else _] =>
             destruct (String.eqb t k)
         end; try discriminate;
    try (intros _; eexists; intro w; apply Hkeep);
    match goal with
    | |- context [get_prop data ?k] =>
        destruct data; simpl in *; discriminate
    end.
Qed.

(** X2. Every inbound message has exactly one outcome, settled by
    [recipient].  When it names a callback, the handler does nothing but
    call it with that argument: directly for a [Blob], and inside the
    [try] for a text, so that an exception of the callback is logged and
    goes no further.  Otherwise the handler does nothing but write one
    line to the socket's console: nothing is transmitted, [readyState] is
    untouched and no callback runs. *)
Theorem message_has_one_outcome {S : Type} {W : World S}
  (JSON_parse : string -> option Json) (cb : Callbacks S) (d : WsData) :
  match recipient JSON_parse d, d with
  | Some i, Binary _ => forall w, onmessage JSON_parse cb d w = call cb i w
  | Some i, Text _ =>
      forall w,
        onmessage JSON_parse cb d w
        = try_catch (call cb i)
            (fun _ => on_socket (log LError "Failed to parse message:")) w
  | None, _ =>
      exists entry, forall w,
        onmessage JSON_parse cb d w = on_socket (modify (print entry)) w
  end.
Proof.
  destruct d as [s|blob]; [|intro w; reflexivity].
  destruct (recipient JSON_parse (Text s)) as [i|] eqn:E.
  - intro w. apply onmessage_delivers. exact E.
  - apply onmessage_logs. exact E.
Qed.

(** A [terminated] message on a socket whose callbacks close it: the
    socket is CLOSING when [onmessage] returns; a message of an unknown
    type leaves one console line. *)
Example message_outcomes :
  fst (onmessage sample_parse all_callbacks (Text terminated_text)
         (set_readyState OPEN connect))
  = set_readyState CLOSING connect
  /\ fst (onmessage sample_parse all_callbacks (Text ping_text)
            (set_readyState OPEN connect))
     = print (Console LLog "Unknown message type:")
         (set_readyState OPEN connect).
Proof. vm_compute. split; reflexivity. Qed.


(* ------------------------------------------------------------------ *)
(** * Further properties of the event loop *)

(** ** After the teardown *)

#[local] Instance stays_shut_preorder : PreOrder stays_shut.
Proof.
  split.
  - intros p H. split; [exact H | reflexivity].
  - intros p q r Hpq Hqr H. destruct (Hpq H) as [Hq Hs].
    destruct (Hqr Hq) as [Hr Hs']. split; [exact Hr | congruence].
Qed.

Lemma shut_cases (p : Page) :
  shut p = true <->
  exists c, wsRef p = Some c
            /\ (readyState c = CLOSING \/ readyState c = CLOSED).
Proof.
  unfold shut, socket_state. destruct (wsRef p) as [c|]; simpl.
  - split.
    + intro H. exists c. split; [reflexivity|].
      destruct (readyState c); try discriminate H; auto.
    + intros (c' & E & [H|H]); injection E as <-; rewrite H; reflexivity.
  - split; [discriminate | intros (c' & E & _); discriminate].
Qed.

Lemma on_ws_stays_shut (op : M Chan unit) :
  (forall c, readyState c = CLOSING \/ readyState c = CLOSED ->
             fst (op c) = c) ->
  preserves stays_shut (on_ws op).
Proof.
  intros Hop p. apply keeps_on_ws; [typeclasses eauto|].
  intros c Hc Hshut.
  apply shut_cases in Hshut. destruct Hshut as (c' & E & Hst).
  rewrite Hc in E. injection E as <-.
  rewrite (Hop c Hst), (set_wsRef_same p c Hc).
  split; [apply shut_cases; exists c; auto | reflexivity].
Qed.

Lemma close_on_shut (c : Chan) :
  readyState c = CLOSING \/ readyState c = CLOSED -> fst (close c) = c.
Proof. unfold close, ws_close. intros [H|H]; rewrite H; reflexivity. Qed.

Lemma sendAudio_on_shut (b : list byte) (c : Chan) :
  readyState c = CLOSING \/ readyState c = CLOSED -> fst (sendAudio b c) = c.
Proof. unfold sendAudio. intros [H|H]; rewrite H; reflexivity. Qed.

Ltac shut_update :=
  unfold stays_shut, shut, socket_state, sent; simpl;
  try (intro; split; [assumption | reflexivity]).

Ltac shut_handler :=
  unfold_handlers; handler_steps;
  try match goal with
      | |- keeps _ (modify _) _ => apply keeps_modify; shut_update
      | |- keeps _ (on_ws close) _ =>
          apply on_ws_stays_shut; apply close_on_shut
      | |- keeps _ (on_ws (sendAudio _)) _ =>
          apply on_ws_stays_shut; apply sendAudio_on_shut
      end.

Lemma callback_stays_shut (i : Invocation) : preserves stays_shut (callback i).
Proof. destruct i; shut_handler. Qed.

Lemma step_stays_shut (JSON_parse : string -> option Json) (e : Event) :
  preserves stays_shut (step JSON_parse e).
Proof.
  destruct e; try (shut_handler; fail).
  apply preserves_socket_event; [typeclasses eauto | | | | ].
  - apply callback_stays_shut.
  - intros l msg p. apply keeps_on_ws; [typeclasses eauto|].
    intros c Hc. unfold stays_shut, shut, socket_state, sent. simpl.
    rewrite Hc. simpl. auto.
  - intros p c Hc Hst. unfold stays_shut, shut, socket_state. rewrite Hc.
    simpl. rewrite Hst. discriminate.
  - intros p c Hc Hst. unfold stays_shut, shut, socket_state, sent.
    rewrite Hc. simpl. auto.
Qed.

(** [cleanup] touches the socket only by calling [close] on it. *)
Lemma cleanup_socket (p : Page) :
  wsRef (fst (cleanup p)) = option_map (fun c => fst (close c)) (wsRef p).
Proof.
  destruct p as [st sk wa tr rec te vi ws sr ac g mr ns tc lf fd t ss sh se dt en].
  unfold cleanup, bind, read, modify, emit, on_ws.
  destruct mr, ws as [c|], sr, ac; cbn;
    try destruct (close c) as [c' [e|[]]]; reflexivity.
Qed.

Lemma cleanup_shuts (p : Page) (c : Chan) :
  wsRef p = Some c ->
  shut (fst (cleanup p)) = true /\ sent (fst (cleanup p)) = sent p.
Proof.
  intro Hc. unfold shut, socket_state, sent.
  rewrite cleanup_socket, Hc. simpl. rewrite wire_close.
  unfold close, ws_close. destruct (readyState c) eqn:E; simpl; rewrite ?E; auto.
Qed.

(** X3. Once the page has been torn down (by a strike, by the End
    Interview button or on unmount), the socket is closing or closed and
    stays so, and nothing is ever transmitted again, whatever events
    follow: no audio frame leaves the page after the teardown. *)
Theorem nothing_is_sent_after_teardown (JSON_parse : string -> option Json)
  (p : Page) (c : Chan) (strikes : JsVal) (wasTerminated : bool)
  (evs : list Event) :
  wsRef p = Some c ->
  let q := fst (handleInterviewEnd strikes wasTerminated p) in
  sent q = sent p
  /\ shut (run JSON_parse evs q) = true
  /\ sent (run JSON_parse evs q) = sent p.
Proof.
  intros Hc q.
  assert (Hq : shut q = true /\ sent q = sent p).
  { subst q. unfold handleInterviewEnd, bind.
    destruct (cleanup_shuts p c Hc) as [H1 H2].
    destruct (cleanup_spec p) as (q' & Hq' & _).
    rewrite Hq' in *. simpl in *. unfold emit, modify. simpl.
    split; [exact H1 | exact H2]. }
  destruct Hq as [Hshut Hsent].
  destruct (preserves_run stays_shut JSON_parse (step_stays_shut JSON_parse)
              evs q Hshut) as [H1 H2].
  split; [exact Hsent | split; [exact H1 | congruence]].
Qed.

(** The End Interview button on a recording page, then more captured
    audio and a late socket event. *)
Lemma nothing_is_sent_after_teardown_witness :
  sent (run sample_parse
          [AudioProcess 0 [repeat (x00, x00, x80, x3f) 4096]; Socket EvOpen]
          (fst (handleInterviewEnd initial_strikes false recording_page)))
  = sent recording_page.
Proof.
  assert (Hws : wsRef recording_page
                = Some (print (Console LLog "WebSocket connected")
                          (set_readyState OPEN connect)))
    by reflexivity.
  apply (nothing_is_sent_after_teardown sample_parse recording_page _
           initial_strikes false
           [AudioProcess 0 [repeat (x00, x00, x80, x3f) 4096]; Socket EvOpen]
           Hws).
Defined.

(** ** What the sources report *)

#[local] Instance reports_tabled_preorder : PreOrder reports_tabled.
Proof.
  split.
  - intros p H. exact H.
  - intros p q r Hpq Hqr H. apply Hqr, Hpq, H.
Qed.

Ltac tabled_update :=
  unfold reports_tabled; simpl;
  try (intro; assumption);
  let H := fresh "H" in
  intro H; apply Forall_app; split; [exact H|];
  constructor; [simpl; tauto | constructor].

Lemma callback_reports_tabled (i : Invocation) :
  preserves reports_tabled (callback i).
Proof. destruct i; handler_keeps tabled_update. Qed.

Lemma step_reports_tabled (JSON_parse : string -> option Json) (e : Event) :
  preserves reports_tabled (step JSON_parse e).
Proof.
  destruct e; try (handler_keeps tabled_update; fail).
  socket_keeps tabled_update callback_reports_tabled.
Qed.

(** X4. Whatever happens to the page, every report it sends to the
    backend is one of six kinds, each always with the same confidence:
    tab_switch 1, window_blur 0.85, no_face 0.8, multiple_faces 0.9,
    right_click 0.65, copy_attempt 0.7.  In particular the default kind
    [looking_away] is never reported and no confidence is below 0.65. *)
Theorem reports_come_from_the_table (JSON_parse : string -> option Json)
  (evs : list Event) (now : Z) (hasFaceDetector : bool) :
  forall k c,
    In (ReportCheating k c)
       (trace (run JSON_parse evs (mount now hasFaceDetector))) ->
    In (k, c) report_table /\ k <> "looking_away" /\ 0.65 <= c /\ c <= 1.
Proof.
  intros k c Hin.
  assert (H0 : Forall tabled (trace (mount now hasFaceDetector)))
    by (destruct hasFaceDetector; repeat constructor).
  pose proof (preserves_run reports_tabled JSON_parse
                (step_reports_tabled JSON_parse) evs _ H0) as Hall.
  rewrite Forall_forall in Hall. specialize (Hall _ Hin). simpl in Hall.
  split; [exact Hall|].
  destruct Hall as [E|[E|[E|[E|[E|[E|[]]]]]]]; injection E as <- <-;
    (split; [discriminate | split; discriminate]).
Qed.

(** A window blur reported on a freshly mounted page. *)
Lemma reports_come_from_the_table_witness :
  In ("window_blur", 0.85) report_table.
Proof.
  apply (reports_come_from_the_table sample_parse [Blur] 0 true
           "window_blur" 0.85).
  vm_compute. right. right. right. left. reflexivity.
Defined.

#[local] Instance stays_faceless_preorder : PreOrder stays_faceless.
Proof.
  split.
  - intros p H. exact H.
  - intros p q r Hpq Hqr H. apply Hqr, Hpq, H.
Qed.

Lemma detectFace_without_detector (d : Detection) (now now' : Z) (p : Page) :
  faceDetectorRef p = false -> detectFace d now now' p = (p, inr tt).
Proof.
  intro H. unfold detectFace, detectFace_returns, bind, read, ret. rewrite H.
  simpl. rewrite orb_true_r. reflexivity.
Qed.

Lemma detectFace_started_without_detector (p : Page) :
  faceDetectorRef p = false -> detectFace_started p = (p, inr tt).
Proof.
  intro H. unfold detectFace_started, detectFace_returns, bind, read, ret.
  rewrite H. simpl. rewrite orb_true_r. reflexivity.
Qed.

Lemma detectFace_resumed_idle (d : Detection) (now now' : Z) (p : Page) :
  detecting p = 0%nat -> detectFace_resumed d now now' p = (p, inr tt).
Proof.
  intro H. unfold detectFace_resumed, bind, read. rewrite H. reflexivity.
Qed.

Ltac faceless_update :=
  unfold stays_faceless, faceless; simpl;
  try (intro; assumption);
  let H1 := fresh "H" in
  let H2 := fresh "H" in
  let H3 := fresh "H" in
  intros (H1 & H2 & H3); split; [exact H1 | split; [exact H2|]];
  apply Forall_app; split; [exact H3|];
  constructor; [reflexivity | constructor].

Lemma callback_stays_faceless (i : Invocation) :
  preserves stays_faceless (callback i).
Proof. destruct i; handler_keeps faceless_update. Qed.

Lemma step_stays_faceless (JSON_parse : string -> option Json) (e : Event) :
  preserves stays_faceless (step JSON_parse e).
Proof.
  destruct e;
    try (intros p Hp; unfold keeps, step;
         first [ rewrite (detectFace_without_detector _ _ _ p (proj1 Hp))
               | rewrite (detectFace_started_without_detector p (proj1 Hp))
               | rewrite (detectFace_resumed_idle _ _ _ p (proj1 (proj2 Hp))) ];
         exact Hp);
    try (handler_keeps faceless_update; fail).
  socket_keeps faceless_update callback_stays_faceless.
Qed.

(** X5. When the runtime has no [FaceDetector], the face-presence source
    is silent for the whole life of the page: whatever the polls would
    have seen, no [no_face] or [multiple_faces] report is ever made, and
    the other sources keep working. *)
Theorem no_detector_no_face_reports (JSON_parse : string -> option Json)
  (evs : list Event) (now : Z) :
  forall k c,
    In (ReportCheating k c) (trace (run JSON_parse evs (mount now false))) ->
    k <> "no_face" /\ k <> "multiple_faces".
Proof.
  intros k c Hin.
  assert (H0 : faceless (mount now false))
    by (split; [reflexivity | split; [reflexivity | repeat constructor]]).
  destruct (preserves_run stays_faceless JSON_parse
              (step_stays_faceless JSON_parse) evs _ H0) as (_ & _ & Hall).
  rewrite Forall_forall in Hall. specialize (Hall _ Hin). simpl in Hall.
  apply orb_false_iff in Hall. destruct Hall as [H1 H2].
  apply String.eqb_neq in H1. apply String.eqb_neq in H2. split; assumption.
Qed.

(** Polls that see nobody for ten seconds, and a window blur, on a page
    without a face detector: only the blur is reported. *)
Lemma no_detector_witness :
  reports (trace (run sample_parse
     [FacePoll (Faces 0) 5000 5000; Blur; FacePoll (Faces 3) 10000 10000]
     (mount 0 false)))
  = [ReportCheating "window_blur" 0.85]
  /\ "window_blur" <> "no_face".
Proof.
  split; [reflexivity|].
  apply (no_detector_no_face_reports sample_parse
           [FacePoll (Faces 0) 5000 5000; Blur; FacePoll (Faces 3) 10000 10000]
           0 "window_blur" 0.85).
  vm_compute. right. right. right. left. reflexivity.
Defined.

(** ** The bookkeeping of the sources *)

Lemma count_kind_snoc (k : string) (t : list Effect) (e : Effect) :
  count_kind k (t ++ [e])
  = (count_kind k t + (if is_kind k e then 1 else 0))%nat.
Proof.
  unfold count_kind. rewrite filter_app, length_app. simpl.
  destruct (is_kind k e); reflexivity.
Qed.

Lemma count_prevented_snoc (t : list Effect) (e : Effect) :
  count_prevented (t ++ [e])
  = (count_prevented t + (if is_prevented e then 1 else 0))%nat.
Proof.
  unfold count_prevented. rewrite filter_app, length_app. simpl.
  destruct (is_prevented e); reflexivity.
Qed.

#[local] Instance same_books_preorder : PreOrder same_books.
Proof.
  split.
  - intro p. repeat split.
  - intros p q r (H1 & H2 & H3) (H4 & H5 & H6).
    split; [congruence | split; [|congruence]].
    intro k. rewrite H5. apply H2.
Qed.

Ltac books_update :=
  unfold same_books; simpl;
  split; [reflexivity | split; [intro|]];
  rewrite ?count_kind_snoc, ?count_prevented_snoc; simpl; lia.

Lemma callback_same_books (i : Invocation) : preserves same_books (callback i).
Proof. destruct i; handler_keeps books_update. Qed.

Lemma step_same_books (JSON_parse : string -> option Json) (e : Event) :
  is_tally_source e = false -> preserves same_books (step JSON_parse e).
Proof.
  intro H. destruct e; try discriminate H;
    try (handler_keeps books_update; fail).
  socket_keeps books_update callback_same_books.
Qed.

Lemma detectFace_settled_keeps_books (d : Detection) (now now' : Z)
  (p : Page) :
  books_balanced p -> books_balanced (fst (detectFace_settled d now now' p)).
Proof.
  intros [H1 H2]. unfold books_balanced, detectFace_settled,
    bind, read, try_catch, lift, ret.
  destruct d as [[|[|n]]|]; simpl;
    try destruct (now - lastFaceDetectedRef p >? 3000)%Z; simpl;
    rewrite ?count_kind_snoc, ?count_prevented_snoc; simpl; lia.
Qed.

Lemma source_keeps_books (JSON_parse : string -> option Json)
  (e : Event) (p : Page) :
  is_tally_source e = true ->
  books_balanced p -> books_balanced (exec JSON_parse e p).
Proof.
  intros He Hp. pose proof Hp as [H1 H2]. unfold exec.
  destruct e; try discriminate He; simpl.
  1-4: unfold books_balanced, handleVisibilityChange, handleBlur,
         handleContextMenu, handleCopy, bind, read, ret.
  - destruct (hidden && negb (seenTerminated p)); simpl;
      rewrite ?count_kind_snoc, ?count_prevented_snoc; simpl; lia.
  - destruct (negb (seenTerminated p)); simpl;
      rewrite ?count_kind_snoc, ?count_prevented_snoc; simpl; lia.
  - destruct (negb (seenTerminated p)); simpl;
      rewrite ?count_kind_snoc, ?count_prevented_snoc; simpl; lia.
  - destruct (negb (seenTerminated p)); simpl;
      rewrite ?count_kind_snoc, ?count_prevented_snoc; simpl; lia.
  - unfold detectFace, detectFace_returns, bind, read, ret.
    destruct (negb (videoRef p) || negb (faceDetectorRef p) || seenTerminated p);
      simpl; [exact Hp|].
    apply detectFace_settled_keeps_books. exact Hp.
  - unfold detectFace_resumed, bind, read, modify.
    destruct (detecting p) as [|n]; simpl; [exact Hp|].
    apply detectFace_settled_keeps_books. split; assumption.
Qed.

(** X6. The counters agree with the reports at every moment of the
    page's life: [tabSwitchCountRef] is exactly the number of
    [tab_switch] reports issued so far, and the browser's default action
    has been cancelled exactly once for each [right_click] or
    [copy_attempt] report. *)
Theorem counters_match_reports (JSON_parse : string -> option Json)
  (evs : list Event) (now : Z) (hasFaceDetector : bool) :
  books_balanced (run JSON_parse evs (mount now hasFaceDetector)).
Proof.
  assert (H0 : books_balanced (mount now hasFaceDetector))
    by (destruct hasFaceDetector; split; reflexivity).
  revert H0. generalize (mount now hasFaceDetector).
  induction evs as [|e rest IH]; intros p Hp; simpl; [exact Hp|].
  apply IH. destruct (is_tally_source e) eqn:E.
  - apply source_keeps_books; assumption.
  - destruct Hp as [H1 H2].
    destruct (step_same_books JSON_parse e E p) as (Ht & Hk & Hc).
    unfold exec, books_balanced. rewrite Ht, !Hk, Hc. split; assumption.
Qed.

(** ** When capture starts *)

(** A socket event that is neither the opening nor a [connected] message
    is not for [onConnected]. *)
Lemma addressee_without_connect (JSON_parse : string -> option Json)
  (ev : WsEvent) (i : Invocation) :
  connects JSON_parse (Socket ev) = false ->
  addressee JSON_parse ev = Some i -> is_onConnected i = false.
Proof.
  intro H. destruct ev as [|d| |code]; simpl;
    [discriminate H | | intro E; injection E as <-; reflexivity
    | intro E; injection E as <-; reflexivity].
  destruct d as [s|blob]; simpl; [|intro E; injection E as <-; reflexivity].
  simpl in H. unfold parsed_type in H.
  destruct (JSON_parse s) as [data|]; [|discriminate].
  destruct (get_prop data "type") as [e|[[| | |t| |]|]]; try discriminate.
  rewrite H.
  repeat match goal with
         | |- context [if String.eqb t ?k then _ else _] =>
             destruct (String.eqb t k)
         end; try discriminate;
    try (intro E; injection E as <-; reflexivity);
    match goal with
    | |- context [get_prop data ?k] =>
        destruct (get_prop data k); [discriminate|];
        intro E; injection E as <-; reflexivity
    end.
Qed.

#[local] Instance no_new_capture_preorder : PreOrder no_new_capture.
Proof.
  split.
  - intro p. split; reflexivity.
  - intros p q r [H1 H2] [H3 H4]. split; [congruence|].
    intro Hp. rewrite H4, H2; auto.
    rewrite Hp in H1. simpl in H1. destruct (graph q); [reflexivity|discriminate].
Qed.

Lemma unwire_length (i : nat) (g : list Processor) :
  List.length (unwire i g) = List.length g.
Proof.
  revert i. induction g as [|pr g IH]; intros [|i]; simpl; auto.
Qed.

Ltac capture_steps :=
  unfold step, callback, handleVisibilityChange, handleBlur, handleContextMenu,
    handleCopy, detectFace, detectFace_started, detectFace_resumed,
    detectFace_settled, detectFace_returns, reportCheating_settled,
    endInterview_settled, render, effects, unmount,
    handleInterviewEnd, cleanup, handleCheatingDetection, playAudio, say, emit;
  handler_steps.

Ltac no_new_capture_update :=
  unfold no_new_capture, sent; simpl;
  first
    [ split; [reflexivity | intro; reflexivity]
    | split; [apply unwire_length | intro; reflexivity]
    | split; [reflexivity|]; intros _;
      match goal with
      | E : wsRef _ = Some _ |- _ => rewrite E
      end; rewrite ?wire_close; reflexivity ].

Lemma onaudioprocess_graph (inputBuffer : list Float32Array) (p : Page) :
  graph (fst (onaudioprocess inputBuffer p)) = graph p.
Proof.
  unfold onaudioprocess, bind, read, lift, on_ws.
  destruct (wsRef p) as [c|] eqn:Hc; simpl; [|reflexivity].
  destruct inputBuffer as [|inputData others]; simpl; [reflexivity|].
  rewrite Hc. destruct (sendAudio (buffer_of inputData) c). reflexivity.
Qed.

Ltac no_new_capture_handler :=
  capture_steps;
  try match goal with
      | |- keeps _ (modify _) _ => apply keeps_modify; no_new_capture_update
      | |- keeps _ (on_ws _) _ =>
          apply keeps_on_ws;
          [typeclasses eauto | intros ? ?; no_new_capture_update]
      | E : nth_error (graph ?s) ?i = Some _
        |- keeps _ (onaudioprocess _) ?s =>
          unfold keeps, no_new_capture;
          rewrite onaudioprocess_graph;
          split; [reflexivity|];
          let Hg := fresh in
          intro Hg; rewrite Hg in E; destruct i; discriminate E
      end.

Lemma callback_no_new_capture (i : Invocation) :
  is_onConnected i = false -> preserves no_new_capture (callback i).
Proof. intro H. destruct i; try discriminate H; no_new_capture_handler. Qed.

Lemma step_no_new_capture (JSON_parse : string -> option Json) (e : Event) :
  connects JSON_parse e = false -> preserves no_new_capture (step JSON_parse e).
Proof.
  intro H. destruct e; try (no_new_capture_handler; fail).
  apply (preserves_socket_event_for no_new_capture JSON_parse ev
           (fun i => is_onConnected i = false)).
  - intros i Hi. exact (addressee_without_connect JSON_parse ev i H Hi).
  - intros i Hi. apply callback_no_new_capture. exact Hi.
  - intros l msg p. apply keeps_on_ws; [typeclasses eauto|].
    intros c Hc. no_new_capture_update.
  - intros p c Hc Hst. no_new_capture_update.
  - intros p c Hc Hst. no_new_capture_update.
Qed.

#[local] Instance still_awaiting_media_preorder : PreOrder still_awaiting_media.
Proof.
  split.
  - intros p H. exact H.
  - intros p q r Hpq Hqr H. apply Hqr, Hpq, H.
Qed.

Ltac awaiting_update :=
  unfold still_awaiting_media, awaiting_media, sent; simpl;
  let H1 := fresh "H" in
  let H2 := fresh "H" in
  let H3 := fresh "H" in
  intros (H1 & H2 & H3);
  first
    [ repeat split; assumption
    | congruence
    | rewrite H2; split; [exact H1 | split; [|exact H3]];
      match goal with |- unwire ?n [] = [] => destruct n; reflexivity end
    | match goal with
      | E : wsRef _ = Some _ |- _ => rewrite E in H3
      end;
      rewrite ?wire_close; repeat split; assumption ].

Ltac awaiting_handler :=
  capture_steps; unfold startAudioCapture, say, emit; handler_steps;
  try match goal with
      | |- keeps _ (modify _) _ => apply keeps_modify; awaiting_update
      | |- keeps _ (on_ws _) _ =>
          apply keeps_on_ws; [typeclasses eauto | intros ? ?; awaiting_update]
      | E : nth_error (graph ?s) ?i = Some _
        |- keeps _ (onaudioprocess _) ?s =>
          let H := fresh in
          intros (_ & H & _); rewrite H in E; destruct i; discriminate E
      end.

Lemma callback_still_awaiting_media (i : Invocation) :
  preserves still_awaiting_media (callback i).
Proof. destruct i; awaiting_handler. Qed.

Lemma step_still_awaiting_media (JSON_parse : string -> option Json)
  (e : Event) :
  is_media_granted e = false ->
  preserves still_awaiting_media (step JSON_parse e).
Proof.
  intro H. destruct e; try discriminate H; try (awaiting_handler; fail).
  socket_keeps awaiting_update callback_still_awaiting_media.
Qed.

(** X7. Script processors are created only by the socket's [open] event
    and by [connected] control messages.  So when those arrive before
    media access has been granted, [startAudioCapture] finds no stream
    and gives up, and granting access afterwards does not start capture:
    unless a later [connected] message arrives, the page never has a
    script processor and never transmits anything. *)
Theorem capture_never_starts_if_connected_first
  (JSON_parse : string -> option Json) (before after : list Event)
  (now : Z) (hasFaceDetector : bool) :
  forallb (fun e => negb (is_media_granted e)) before = true ->
  forallb (fun e => negb (connects JSON_parse e)) after = true ->
  let q := run JSON_parse (before ++ MediaGranted :: after)
             (mount now hasFaceDetector) in
  graph q = [] /\ sent q = [].
Proof.
  intros Hbefore Hafter q. subst q. unfold run. rewrite fold_left_app.
  fold (run JSON_parse before (mount now hasFaceDetector)). simpl.
  assert (H0 : awaiting_media (mount now hasFaceDetector))
    by (repeat split).
  assert (H1 : awaiting_media (run JSON_parse before (mount now hasFaceDetector))).
  { apply (preserves_run_of still_awaiting_media JSON_parse
             (fun e => negb (is_media_granted e))); [|exact Hbefore|exact H0].
    intros e He. apply step_still_awaiting_media.
    apply negb_true_iff. exact He. }
  set (p := run JSON_parse before (mount now hasFaceDetector)) in *.
  assert (H2 : graph (exec JSON_parse MediaGranted p) = []
               /\ sent (exec JSON_parse MediaGranted p) = []).
  { destruct H1 as (_ & Hg & Hs). unfold exec, sent in *. simpl.
    split; assumption. }
  destruct H2 as [Hg Hs].
  fold (run JSON_parse after (exec JSON_parse MediaGranted p)).
  destruct (preserves_run_of no_new_capture JSON_parse
              (fun e => negb (connects JSON_parse e))
              (fun e He => step_no_new_capture JSON_parse e
                             (proj1 (negb_true_iff _) He))
              after (exec JSON_parse MediaGranted p) Hafter) as [Hlen Hsent].
  rewrite Hg in Hlen. simpl in Hlen. split.
  - destruct (graph (run JSON_parse after (exec JSON_parse MediaGranted p)));
      [reflexivity | discriminate Hlen].
  - rewrite (Hsent Hg). exact Hs.
Qed.

(** The socket opens while the permission prompt is still showing; the
    user then grants access, and audio callbacks and a transcript-like
    message follow. *)
Lemma capture_never_starts_witness :
  let q := run sample_parse
             ([Socket EvOpen] ++ MediaGranted
                :: [AudioProcess 0 [repeat (x00, x00, x80, x3f) 4096];
                    Socket (EvMessage (Text ping_text)); Blur])
             (mount 0 true) in
  graph q = [] /\ sent q = [].
Proof.
  apply (capture_never_starts_if_connected_first sample_parse
           [Socket EvOpen]
           [AudioProcess 0 [repeat (x00, x00, x80, x3f) 4096];
            Socket (EvMessage (Text ping_text)); Blur] 0 true);
    reflexivity.
Defined.

(** ** Which processor the teardown disconnects *)

Lemma cleanup_graph (p : Page) :
  graph (fst (cleanup p))
  = match mediaRecorderRef p with
    | Some i => unwire i (graph p)
    | None => graph p
    end.
Proof.
  destruct p as [st sk wa tr rec te vi ws sr ac g mr ns tc lf fd t ss sh se dt en].
  unfold cleanup, bind, read, modify, emit, on_ws.
  destruct mr, ws as [c|], sr, ac; cbn;
    try destruct (close c) as [c' [e|[]]]; reflexivity.
Qed.

Lemma unwire_other (i j : nat) (g : list Processor) :
  j <> i -> nth_error (unwire i g) j = nth_error g j.
Proof.
  revert i j. induction g as [|pr g IH]; intros [|i] [|j] H; simpl;
    try reflexivity; try congruence.
  apply IH. congruence.
Qed.

Lemma unwire_this (i : nat) (g : list Processor) (pr : Processor) :
  nth_error g i = Some pr ->
  exists pr',
    nth_error (unwire i g) i = Some pr' /\ wired pr' = false
    /\ bufferSize pr' = bufferSize pr /\ contextRate pr' = contextRate pr.
Proof.
  revert i. induction g as [|x g IH]; intros [|i] H; simpl in *;
    try discriminate H.
  - injection H as ->. eexists. repeat split.
  - apply IH. exact H.
Qed.

Lemma startAudioCapture_ready (p : Page) (m : MediaStream) (a : AudioContext) :
  streamRef p = Some m -> audioContextRef p = Some a ->
  let q := fst (startAudioCapture p) in
  graph q
  = graph p ++ [{| bufferSize := 4096; inputChannels := 1; outputChannels := 1;
                   contextRate := sampleRate a; wired := true |}]
  /\ mediaRecorderRef q = Some (List.length (graph p))
  /\ isRecording q = true
  /\ streamRef q = Some m /\ audioContextRef q = Some a.
Proof.
  intros Hs Ha. unfold startAudioCapture, bind, read. rewrite Hs, Ha.
  simpl. rewrite Hs, Ha. repeat split.
Qed.

(** X8. The teardown disconnects exactly one script processor, the one
    [mediaRecorderRef] points to, and leaves every other processor as it
    was.  Each run of [startAudioCapture] on a page with a stream and a
    context adds a connected processor and re-points the ref to it; so
    when it has run twice (the socket's [open] event and a [connected]
    message both call it), the processor of the first run is still
    connected after the teardown. *)
Theorem teardown_disconnects_only_the_latest_processor (p : Page) :
  (forall i,
      mediaRecorderRef p = Some i ->
      (forall j, j <> i ->
                 nth_error (graph (fst (cleanup p))) j = nth_error (graph p) j)
      /\ (forall pr, nth_error (graph p) i = Some pr ->
            exists pr', nth_error (graph (fst (cleanup p))) i = Some pr'
                        /\ wired pr' = false))
  /\ (forall m a,
      streamRef p = Some m -> audioContextRef p = Some a ->
      let twice := fst (startAudioCapture (fst (startAudioCapture p))) in
      List.length (graph twice) = (List.length (graph p) + 2)%nat
      /\ capturing (fst (cleanup twice)) = true).
Proof.
  split.
  - intros i Hi. rewrite cleanup_graph, Hi. split.
    + intros j Hj. apply unwire_other. exact Hj.
    + intros pr Hpr. destruct (unwire_this i (graph p) pr Hpr)
        as (pr' & H1 & H2 & _).
      exists pr'. split; assumption.
  - intros m a Hs Ha twice.
    destruct (startAudioCapture_ready p m a Hs Ha) as (Hg & Hm & _ & Hs' & Ha').
    destruct (startAudioCapture_ready _ m a Hs' Ha') as (Hg2 & Hm2 & _).
    subst twice. split.
    + rewrite Hg2, Hg, !length_app. simpl. lia.
    + unfold capturing. rewrite cleanup_graph, Hm2.
      apply existsb_exists.
      eexists. split.
      * eapply nth_error_In with (n := List.length (graph p)).
        rewrite unwire_other.
        -- rewrite Hg2, Hg. rewrite <- app_assoc.
           rewrite nth_error_app2 by lia. rewrite Nat.sub_diag. reflexivity.
        -- rewrite Hg, length_app. simpl. lia.
      * reflexivity.
Qed.

(** Media access, then the socket's open event and a second call of
    [startAudioCapture], then the teardown. *)
Lemma teardown_latest_witness :
  capturing
    (fst (cleanup (fst (startAudioCapture
                          (fst (startAudioCapture
                                  (exec sample_parse MediaGranted
                                     (mount 0 true)))))))) = true.
Proof.
  destruct (teardown_disconnects_only_the_latest_processor
              (exec sample_parse MediaGranted (mount 0 true))) as [_ H].
  apply (H {| live := true |} {| sampleRate := 16000 |});
    reflexivity.
Defined.

(* ------------------------------------------------------------------ *)
(** * Further properties of playback *)

Lemma Int16Array_odd (n : nat) :
  forall buf, List.length buf = (2 * n + 1)%nat ->
  Int16Array buf = inl RangeError.
Proof.
  induction n as [|n IH]; intros buf Hlen.
  - destruct buf as [|b [|? ?]]; try discriminate Hlen. reflexivity.
  - destruct buf as [|lo [|hi rest]]; simpl in Hlen; try lia.
    simpl. rewrite (IH rest) by lia. reflexivity.
Qed.

(** X9. [playAudio] schedules a buffer exactly when the payload has an
    even, non-zero number of bytes.  A payload of [2(n+1)] bytes is
    played as one buffer of [n+1] samples lasting [(n+1)/24000] seconds,
    starting at the later of the audio clock and the cursor.  An empty
    payload or one of odd length schedules nothing, leaves the cursor
    alone and writes one error to the console.  Either way the page keeps
    the audio context it already had and creates a 24 kHz one only when
    it had none. *)
Theorem playAudio_plays_whole_sample_payloads
  (JSON_parse : string -> option Json) (buf : list byte) (now : Q) (p : Page) :
  let q := exec JSON_parse (AudioReady buf now) p in
  audioContextRef q = Some (playback_context p)
  /\ (forall n,
         List.length buf = (2 * S n)%nat ->
         exists b,
           List.length (channelData b) = S n
           /\ duration b == inject_Z (Z.of_nat (S n)) / 24000
           /\ trace q
              = trace p ++ [SourceStart (Qmax now (nextStartTimeRef p)) b]
           /\ nextStartTimeRef q
              = Qmax now (nextStartTimeRef p) + duration b)
  /\ ((buf = [] \/ exists n, List.length buf = (2 * n + 1)%nat) ->
      trace q = trace p ++ [Log LError "Failed to play audio:"]
      /\ nextStartTimeRef q = nextStartTimeRef p).
Proof.
  intro q. subst q. unfold exec, step. split; [|split].
  - destruct (pcm16_to_float32 buf) as [e|[|x data]] eqn:E.
    + rewrite playAudio_fails; [reflexivity|]. intros d Hd.
      rewrite E in Hd. discriminate Hd.
    + rewrite playAudio_fails; [reflexivity|]. intros d Hd.
      rewrite E in Hd. injection Hd as <-. reflexivity.
    + rewrite (playAudio_plays buf now p x data E). reflexivity.
  - intros n Hlen.
    destruct (Int16Array_even (S n) buf Hlen) as (pcm & Hpcm & Hl & _).
    assert (E : pcm16_to_float32 buf = inr (to_float32 pcm))
      by (unfold pcm16_to_float32; rewrite Hpcm; reflexivity).
    assert (Hlen' : List.length (to_float32 pcm) = S n)
      by (rewrite to_float32_map, length_map; exact Hl).
    destruct (to_float32 pcm) as [|x data] eqn:Ed; [discriminate Hlen'|].
    rewrite (playAudio_plays buf now p x data E).
    exists {| channelData := x :: data; bufferRate := 24000 |}.
    split; [exact Hlen'|]. split; [|split; reflexivity].
    unfold duration. simpl channelData. simpl bufferRate.
    rewrite Hlen'. reflexivity.
  - intros Hbad. rewrite playAudio_fails; [split; reflexivity|].
    intros data Hdata. destruct Hbad as [-> | (n & Hlen)].
    + injection Hdata as <-. reflexivity.
    + unfold pcm16_to_float32 in Hdata.
      rewrite (Int16Array_odd n buf Hlen) in Hdata. discriminate Hdata.
Qed.

(** A payload of two samples, one of three bytes and an empty one. *)
Lemma playAudio_payloads_witness :
  (exists b,
      List.length (channelData b) = 2%nat
      /\ trace (exec sample_parse (AudioReady [x00; x40; x00; xc0] 0.25)
                  (mount 0 true))
         = trace (mount 0 true) ++ [SourceStart 0.25 b])
  /\ scheduled (trace (exec sample_parse (AudioReady [x00; x40; x00] 0.25)
                         (mount 0 true))) = []
  /\ scheduled (trace (exec sample_parse (AudioReady [] 0.25)
                         (mount 0 true))) = [].
Proof.
  split; [|split].
  - destruct (playAudio_plays_whole_sample_payloads sample_parse
                [x00; x40; x00; xc0] 0.25 (mount 0 true)) as (_ & H & _).
    destruct (H 1%nat eq_refl) as (b & Hb & _ & Ht & _).
    exists b. split; [exact Hb | exact Ht].
  - destruct (playAudio_plays_whole_sample_payloads sample_parse
                [x00; x40; x00] 0.25 (mount 0 true)) as (_ & _ & H).
    destruct H as [Ht _]; [right; exists 1%nat; reflexivity|].
    rewrite Ht. reflexivity.
  - destruct (playAudio_plays_whole_sample_payloads sample_parse
                [] 0.25 (mount 0 true)) as (_ & _ & H).
    destruct H as [Ht _]; [left; reflexivity|].
    rewrite Ht. reflexivity.
Defined.

Lemma last_end_snoc (frames : list (Q * Q)) (f : Q * Q) :
  last_end (frames ++ [f]) = snd f.
Proof. unfold last_end. rewrite fold_left_app. reflexivity. Qed.

Lemma step_keeps_cursor_at_end (JSON_parse : string -> option Json)
  (e : Event) (p : Page) :
  cursor_at_end p -> cursor_at_end (exec JSON_parse e p).
Proof.
  unfold cursor_at_end. intro H. destruct (not_audio_ready e) eqn:E.
  - destruct (step_same_schedule JSON_parse e E p) as [Ht Hc].
    unfold exec. rewrite Ht, Hc. exact H.
  - destruct e; try discriminate E. unfold exec, step.
    destruct (playAudio_spec arrayBuffer currentTime p)
      as [[Ht Hc] | (b & _ & _ & Ht & Hc)]; rewrite Ht, Hc.
    + exact H.
    + rewrite last_end_snoc. reflexivity.
Qed.

Lemma Qmax_ahead (now next : Q) : now <= next -> Qmax now next == next.
Proof. intro H. apply Q.max_r. exact H. Qed.

(** X10. Playback is gap-free when audio arrives in time.  In every
    state reached from the mounted page the cursor is exactly the end of
    the buffer scheduled last; and a playable payload processed while the
    audio clock has not passed that end is scheduled to start exactly
    there, so consecutive buffers are played back to back. *)
Theorem timely_audio_plays_back_to_back
  (JSON_parse : string -> option Json) (evs : list Event)
  (now0 : Z) (hasFaceDetector : bool) (buf : list byte) (now : Q) (n : nat) :
  let p := run JSON_parse evs (mount now0 hasFaceDetector) in
  let q := exec JSON_parse (AudioReady buf now) p in
  nextStartTimeRef p = last_end (scheduled (trace p))
  /\ (List.length buf = (2 * S n)%nat ->
      now <= last_end (scheduled (trace p)) ->
      exists start finish,
        scheduled (trace q) = scheduled (trace p) ++ [(start, finish)]
        /\ start == last_end (scheduled (trace p))
        /\ finish == last_end (scheduled (trace p))
                     + inject_Z (Z.of_nat (S n)) / 24000).
Proof.
  intros p q.
  assert (Hp : cursor_at_end p).
  { subst p. assert (H0 : cursor_at_end (mount now0 hasFaceDetector))
      by (destruct hasFaceDetector; reflexivity).
    revert H0. generalize (mount now0 hasFaceDetector).
    induction evs as [|e rest IH]; intros s Hs; simpl; [exact Hs|].
    apply IH. apply step_keeps_cursor_at_end. exact Hs. }
  split; [exact Hp|]. intros Hlen Hnow.
  destruct (Int16Array_even (S n) buf Hlen) as (pcm & Hpcm & Hl & _).
  assert (E : pcm16_to_float32 buf = inr (to_float32 pcm))
    by (unfold pcm16_to_float32; rewrite Hpcm; reflexivity).
  assert (Hlen' : List.length (to_float32 pcm) = S n)
    by (rewrite to_float32_map, length_map; exact Hl).
  destruct (to_float32 pcm) as [|x data] eqn:Ed; [discriminate Hlen'|].
  subst q. unfold exec, step.
  rewrite (playAudio_plays buf now p x data E). simpl.
  rewrite scheduled_app. simpl.
  unfold cursor_at_end in Hp. rewrite <- Hp in *.
  eexists. eexists. split; [reflexivity|].
  assert (Hstart : Qmax now (nextStartTimeRef p) == nextStartTimeRef p)
    by (apply Qmax_ahead; exact Hnow).
  split; [exact Hstart|].
  rewrite Hstart. unfold duration. simpl channelData. simpl bufferRate.
  rewrite Hlen'. reflexivity.
Qed.

(** Two payloads of one sample each, both processed at time 0: the
    second starts where the first ends. *)
Lemma back_to_back_witness :
  exists start finish,
    scheduled (trace (exec sample_parse (AudioReady [x00; x40] 0)
                        (run sample_parse [AudioReady [x00; x40] 0]
                           (mount 0 true))))
    = scheduled (trace (run sample_parse [AudioReady [x00; x40] 0]
                          (mount 0 true)))
        ++ [(start, finish)]
    /\ start == inject_Z 1 / 24000.
Proof.
  destruct (timely_audio_plays_back_to_back sample_parse
              [AudioReady [x00; x40] 0] 0 true [x00; x40] 0 0)
    as [_ H].
  destruct H as (start & finish & Ht & Hs & _);
    [reflexivity | vm_compute; discriminate |].
  exists start, finish. split; [exact Ht|].
  rewrite Hs. vm_compute. reflexivity.
Defined.

(** ** The conversion loses nothing *)

Lemma byte_val_inj (a b : byte) : byte_val a = byte_val b -> a = b.
Proof.
  unfold byte_val. intro H. apply N2Z.inj in H.
  pose proof (Byte.of_to_N a) as Ha. pose proof (Byte.of_to_N b) as Hb.
  rewrite H in Ha. congruence.
Qed.

Lemma int16_of_bytes_inj (lo hi lo' hi' : byte) :
  int16_of_bytes lo hi = int16_of_bytes lo' hi' -> lo = lo' /\ hi = hi'.
Proof.
  unfold int16_of_bytes. cbv zeta.
  pose proof (byte_val_range lo) as R1. pose proof (byte_val_range hi) as R2.
  pose proof (byte_val_range lo') as R3. pose proof (byte_val_range hi') as R4.
  intro H.
  assert (E : byte_val lo = byte_val lo' /\ byte_val hi = byte_val hi').
  { destruct (byte_val lo + 256 * byte_val hi <? 32768)%Z eqn:E1;
      destruct (byte_val lo' + 256 * byte_val hi' <? 32768)%Z eqn:E2;
      try apply Z.ltb_lt in E1; try apply Z.ltb_ge in E1;
      try apply Z.ltb_lt in E2; try apply Z.ltb_ge in E2; lia. }
  destruct E as [E1 E2]. split; apply byte_val_inj; assumption.
Qed.

Lemma Int16Array_cases (a : list byte) (pcm : list Z) :
  Int16Array a = inr pcm ->
  (a = [] /\ pcm = [])
  \/ exists lo hi rest l,
      a = lo :: hi :: rest /\ pcm = int16_of_bytes lo hi :: l
      /\ Int16Array rest = inr l.
Proof.
  destruct a as [|lo [|hi rest]]; intro H.
  - simpl in H. injection H as <-. left. split; reflexivity.
  - discriminate H.
  - simpl in H. destruct (Int16Array rest) as [e|l] eqn:E; [discriminate H|].
    injection H as <-. right. exists lo, hi, rest, l.
    split; [reflexivity | split; [reflexivity | exact E]].
Qed.

Lemma Int16Array_inj (pcm : list Z) :
  forall a b, Int16Array a = inr pcm -> Int16Array b = inr pcm -> a = b.
Proof.
  induction pcm as [|v pcm IH]; intros a b Ha Hb;
    destruct (Int16Array_cases a _ Ha)
      as [[-> Ea] | (lo & hi & ra & la & -> & Ea & Hra)];
    destruct (Int16Array_cases b _ Hb)
      as [[-> Eb] | (lo' & hi' & rb & lb & -> & Eb & Hrb)];
    try discriminate Ea; try discriminate Eb; [reflexivity|].
  injection Ea as Hv ->. injection Eb as Hv' ->.
  rewrite Hv in Hv'.
  destruct (int16_of_bytes_inj lo hi lo' hi' Hv') as [-> ->].
  f_equal. f_equal. apply IH; assumption.
Qed.

(** X11. The PCM16 to Float32 conversion loses nothing: two payloads
    that convert to the same samples are the same bytes.  With the sample
    count fixed by the byte count, each sample list comes from exactly
    one payload. *)
Theorem conversion_is_injective (a b : list byte) (samples : list Q) :
  pcm16_to_float32 a = inr samples ->
  pcm16_to_float32 b = inr samples ->
  a = b.
Proof.
  unfold pcm16_to_float32. intros Ha Hb.
  destruct (Int16Array a) as [e|pa] eqn:Ea; [discriminate Ha|].
  destruct (Int16Array b) as [e|pb] eqn:Eb; [discriminate Hb|].
  injection Ha as Ha. injection Hb as Hb.
  rewrite to_float32_map in Ha, Hb.
  assert (E : pa = pb).
  { subst samples. clear Ea Eb. revert pb Hb.
    induction pa as [|x pa IH]; intros [|y pb] H; simpl in H;
      try discriminate H; [reflexivity|].
    injection H as Hx Hrest.
    f_equal; [lia | apply IH; exact Hrest]. }
  subst pb. apply (Int16Array_inj pa a b Ea Eb).
Qed.

(** Two payloads with the samples -1 and 32767/32768. *)
Lemma conversion_is_injective_witness :
  [x00; x80; xff; x7f] = app [x00; x80] [xff; x7f].
Proof.
  apply (conversion_is_injective [x00; x80; xff; x7f]
           (app [x00; x80] [xff; x7f])
           [inject_Z (-32768) / 32768; inject_Z 32767 / 32768]);
    reflexivity.
Defined.

(* ------------------------------------------------------------------ *)
(** * Further properties of the control messages and report responses *)

Lemma set_transcript_twice (a b : list JsVal) (p : Page) :
  set_transcript a (set_transcript b p) = set_transcript a p.
Proof. destruct p; reflexivity. Qed.

Lemma set_transcript_same (p : Page) : set_transcript (transcript p) p = p.
Proof. destruct p; reflexivity. Qed.

(** One [transcript] message on an open socket appends its text and does
    nothing else. *)
Lemma transcript_message (JSON_parse : string -> option Json)
  (s : string) (txt : JsVal) (p : Page) :
  socket_open p -> transcript_of JSON_parse s = Some txt ->
  exec JSON_parse (text_message s) p
  = set_transcript (transcript p ++ [txt]) p.
Proof.
  unfold socket_open, socket_state, transcript_of, text_message, exec.
  intros Hopen Ht. simpl. unfold socket_event, fire, bind, gets. simpl.
  destruct (wsRef p) as [c|] eqn:Hc; [|discriminate Hopen].
  simpl in Hopen. injection Hopen as Hopen. simpl. rewrite Hopen.
  unfold onmessage, try_catch, bind, parse, lift, ret.
  destruct (JSON_parse s) as [data|]; [|discriminate Ht].
  unfold parsed_type in Ht.
  destruct data; simpl in Ht; try discriminate Ht. simpl.
  destruct (lookup "type" fields) as [[| | |t| |]|]; try discriminate Ht.
  destruct (String.eqb t "transcript") eqn:Et; [|discriminate Ht].
  apply String.eqb_eq in Et. subst t. injection Ht as <-.
  reflexivity.
Qed.

Lemma spoken_lines_render (texts : list string) :
  forallb text_renders (map spoken texts) = true.
Proof. induction texts as [|t texts IH]; simpl; auto. Qed.

(** A render that does not throw leaves the socket and the transcript
    alone. *)
Lemma render_shown (p : Page) :
  renders p = true ->
  wsRef (fst (render p)) = wsRef p
  /\ transcript (fst (render p)) = transcript p.
Proof.
  intro H. unfold render, effects, bind, read, modify. simpl.
  change (renders (set_seenTerminated (shownTerminated p) p)) with (renders p).
  rewrite H. simpl. split; reflexivity.
Qed.

(** X12. Transcript lines reach the page in the order the messages
    arrive.  A run of [transcript] control messages whose texts are
    strings, on an open socket, appends their texts to the transcript,
    one per message and in order, and changes nothing else on the page:
    state, refs, socket and trace are as they were, so the socket is
    still open.  If the page rendered before, it renders with the new
    lines too, and the render leaves the socket open and the transcript
    as it is.  (A text that is not a string is outside this statement:
    the next render throws on it and the page is unmounted.) *)
Theorem transcripts_are_appended_in_order
  (JSON_parse : string -> option Json) (messages : list string)
  (texts : list string) (p : Page) :
  socket_open p ->
  map (transcript_of JSON_parse) messages
  = map (fun t => Some (spoken t)) texts ->
  let q := run JSON_parse (map text_message messages) p in
  q = set_transcript (transcript p ++ map spoken texts) p
  /\ socket_open q
  /\ (renders p = true ->
      renders q = true
      /\ socket_open (exec JSON_parse Render q)
      /\ transcript (exec JSON_parse Render q)
         = transcript p ++ map spoken texts).
Proof.
  intros Hopen Hmap q.
  assert (Hq : q = set_transcript (transcript p ++ map spoken texts) p).
  { subst q. revert texts p Hopen Hmap.
    induction messages as [|s rest IH]; intros texts p Hopen Hmap; simpl.
    - destruct texts; [|discriminate Hmap]. simpl. rewrite app_nil_r.
      symmetry. apply set_transcript_same.
    - destruct texts as [|txt texts]; [discriminate Hmap|].
      simpl in Hmap. injection Hmap as Hs Hrest.
      change (run JSON_parse (map text_message rest)
                (exec JSON_parse (text_message s) p)
              = set_transcript (transcript p ++ map spoken (txt :: texts)) p).
      rewrite (transcript_message JSON_parse s (spoken txt) p Hopen Hs).
      rewrite (IH texts (set_transcript (transcript p ++ [spoken txt]) p)
                 Hopen Hrest).
      rewrite set_transcript_twice. simpl. rewrite <- app_assoc. reflexivity. }
  assert (Hopen' : socket_open q) by (rewrite Hq; exact Hopen).
  split; [exact Hq | split; [exact Hopen'|]].
  intro Hr.
  assert (Hr' : renders q = true).
  { rewrite Hq. unfold renders in *. simpl.
    apply andb_true_iff in Hr. destruct Hr as [H1 H2].
    rewrite forallb_app, H1, H2, spoken_lines_render. reflexivity. }
  destruct (render_shown q Hr') as [Hws Htr].
  split; [exact Hr'|]. unfold exec. simpl. split.
  - unfold socket_open, socket_state in *. rewrite Hws. exact Hopen'.
  - rewrite Htr, Hq. reflexivity.
Qed.

(** Two transcript lines on the socket of a recording page. *)
Lemma transcripts_in_order_witness :
  transcript (run line_parse
                (map text_message
                   [line_text "Hello"; line_text "Tell me about yourself"])
                recording_page)
  = [spoken "Hello"; spoken "Tell me about yourself"]
  /\ socket_state
       (run line_parse
          (map text_message
             [line_text "Hello"; line_text "Tell me about yourself"]
             ++ [Render])
          recording_page)
     = Some OPEN.
Proof.
  destruct (transcripts_are_appended_in_order line_parse
              [line_text "Hello"; line_text "Tell me about yourself"]
              ["Hello"; "Tell me about yourself"]
              recording_page)
    as (Hq & _ & Hr); [reflexivity | reflexivity |].
  split; [rewrite Hq; reflexivity|].
  destruct (Hr eq_refl) as (_ & Hopen & _).
  unfold run. rewrite fold_left_app. exact Hopen.
Defined.

(** A [transcript] message without a text: the line is appended, the
    next render throws on it, and the unmounted page has closed its
    socket. *)
Example transcript_without_text_unmounts :
  let q := exec line_parse (text_message bare_line) recording_page in
  transcript q = [None]
  /\ socket_state q = Some OPEN
  /\ socket_state (exec line_parse Render q) = Some CLOSING.
Proof. vm_compute. repeat split. Qed.




(* ------------------------------------------------------------------ *)
(** * Properties of the REST helpers *)

Lemma guarded_checks (fallback : string) (r : Api.Response) :
  (Api.ok r = false -> exists f, Api.guarded fallback (inr r) = inl f)
  /\ (Api.ok r = true -> Api.guarded fallback (inr r) = Api.json r)
  /\ (forall fetched m,
         Api.guarded fallback fetched = inl (Api.Failed m) ->
         fallback <> "" -> truthy (Some m) = true).
Proof.
  unfold Api.guarded. split; [|split].
  - intros ->. simpl. destruct (Api.json r); eexists; reflexivity.
  - intros ->. reflexivity.
  - intros [e|resp] m H Hfb; [discriminate H|].
    destruct (negb (Api.ok resp)).
    + destruct (Api.json resp) as [f|error] eqn:Ej.
      * unfold Api.json in Ej. destruct (Api.body resp); discriminate || (injection Ej as <-; discriminate H).
      * unfold Api.error_or in H.
        destruct (get_prop error "error") as [e|[v|]]; try discriminate H.
        -- destruct (truthy (Some v)) eqn:Ev; injection H as <-; [exact Ev|].
           simpl. apply negb_true_iff. apply String.eqb_neq. exact Hfb.
        -- injection H as <-. simpl. apply negb_true_iff.
           apply String.eqb_neq. exact Hfb.
    + unfold Api.json in H. destruct (Api.body resp); discriminate H.
Qed.

Lemma plain_checks (message : string) (r : Api.Response) :
  (Api.ok r = false -> exists f, Api.plain message (inr r) = inl f)
  /\ (Api.ok r = true -> Api.plain message (inr r) = Api.json r)
  /\ (forall fetched m,
         Api.plain message fetched = inl (Api.Failed m) ->
         message <> "" -> truthy (Some m) = true).
Proof.
  unfold Api.plain. split; [|split].
  - intros ->. simpl. eexists. reflexivity.
  - intros ->. reflexivity.
  - intros [e|resp] m H Hm; [discriminate H|].
    destruct (negb (Api.ok resp)).
    + injection H as <-. simpl. apply negb_true_iff.
      apply String.eqb_neq. exact Hm.
    + unfold Api.json in H. destruct (Api.body resp); discriminate H.
Qed.

(** X14. None of the six helpers that check [response.ok]
    ([uploadResume], [getResume], [startInterview], [getInterviewStatus],
    [endInterview], [reportCheating]) ever returns data from a response
    that is not ok: each throws; on an ok response each returns the
    parsed body as it is; a rejected fetch is passed on; and the value
    an [Error] is built from is never falsy (the server's [error] field
    when that is truthy, the helper's own message otherwise).
    [healthCheck] alone returns the body whatever the status. *)
Theorem helpers_check_the_status (h : Exn + Api.Response -> Api.Outcome) :
  In h Api.checking_helpers ->
  (forall r, Api.ok r = false -> exists f, h (inr r) = inl f)
  /\ (forall r, Api.ok r = true -> h (inr r) = Api.json r)
  /\ (forall e, h (inl e) = inl (Api.Raised e))
  /\ (forall fetched m,
         h fetched = inl (Api.Failed m) -> truthy (Some m) = true)
  /\ (forall r, Api.healthCheck (inr r) = Api.json r).
Proof.
  intro Hin. simpl in Hin.
  assert (Hcases :
            (exists fb, fb <> "" /\ h = Api.guarded fb)
            \/ (exists msg, msg <> "" /\ h = Api.plain msg)).
  { destruct Hin as [<-|[<-|[<-|[<-|[<-|[<-|[]]]]]]];
      (left; eexists; split; [|reflexivity]; discriminate)
      || (right; eexists; split; [|reflexivity]; discriminate). }
  destruct Hcases as [(fb & Hfb & ->) | (msg & Hmsg & ->)].
  - split; [|split; [|split; [|split]]].
    + intros r Hr. apply (guarded_checks fb r). exact Hr.
    + intros r Hr. apply (guarded_checks fb r). exact Hr.
    + reflexivity.
    + intros fetched m H.
      apply (proj2 (proj2 (guarded_checks fb {| Api.ok := true; Api.body := None |}))
               fetched m H Hfb).
    + reflexivity.
  - split; [|split; [|split; [|split]]].
    + intros r Hr. apply (plain_checks msg r). exact Hr.
    + intros r Hr. apply (plain_checks msg r). exact Hr.
    + reflexivity.
    + intros fetched m H.
      apply (proj2 (proj2 (plain_checks msg {| Api.ok := true; Api.body := None |}))
               fetched m H Hmsg).
    + reflexivity.
Qed.

(** [endInterview] on a 500 response whose body has no [error] field. *)
Lemma helpers_check_the_status_witness :
  exists f,
    Api.endInterview
      (inr {| Api.ok := false; Api.body := Some (JObj [("detail", JStr "x")]) |})
    = inl f.
Proof.
  assert (Hin : In Api.endInterview Api.checking_helpers)
    by (simpl; tauto).
  destruct (helpers_check_the_status Api.endInterview Hin) as (H & _).
  apply H. reflexivity.
Defined.

(** X15. A report that fails on the way (the fetch is rejected, the
    response is not ok, or its body is not JSON or is null) changes
    nothing on the page: the strike count, the warning, the terminated
    flag and the socket are untouched and no teardown starts; one error
    is written to the console. *)
Theorem failed_report_only_logs (JSON_parse : string -> option Json)
  (eventType : string) (fetched : Exn + Api.Response) (p : Page) :
  unusable fetched ->
  exec JSON_parse
    (ReportSettled eventType (Api.settle (Api.reportCheating fetched))) p
  = set_trace (trace p ++ [Log LError "Cheating report error:"]) p.
Proof.
  intro H.
  assert (Hr : (exists e, Api.settle (Api.reportCheating fetched) = inl e)
               \/ Api.settle (Api.reportCheating fetched) = inr JNull).
  { destruct fetched as [e|r]; simpl in *.
    - left. eexists. reflexivity.
    - unfold Api.reportCheating, Api.guarded, Api.json.
      destruct (Api.ok r) eqn:Hok; simpl.
      + destruct H as [H|[H|H]]; [discriminate H| |]; rewrite H.
        * left. eexists. reflexivity.
        * right. reflexivity.
      + left. destruct (Api.body r) as [v|]; simpl; [|eexists; reflexivity].
        unfold Api.error_or.
        destruct (get_prop v "error") as [e|[w|]]; simpl; eexists; reflexivity. }
  unfold exec, step, reportCheating_settled, try_catch, bind, lift.
  destruct Hr as [(e & ->) | ->]; reflexivity.
Qed.

(** A report answered with status 500. *)
Lemma failed_report_witness :
  strikes (exec sample_parse
             (ReportSettled "copy_attempt"
                (Api.settle
                   (Api.reportCheating
                      (inr {| Api.ok := false;
                              Api.body := Some (JObj [("strikes", JNum 2);
                                                      ("terminated", JBool true)]) |}))))
             recording_page)
  = strikes recording_page.
Proof.
  rewrite (failed_report_only_logs sample_parse "copy_attempt"
             (inr {| Api.ok := false;
                     Api.body := Some (JObj [("strikes", JNum 2);
                                             ("terminated", JBool true)]) |})
             recording_page).
  - reflexivity.
  - left. reflexivity.
Defined.

(* ------------------------------------------------------------------ *)
(** * What the results page is given, and what it shows *)



(** ** Which strikes are handed over *)

#[local] Instance no_new_handover_preorder : PreOrder no_new_handover.
Proof.
  split.
  - intro p. split; [|split]; intros; auto.
  - intros p q r (H1 & H2 & H3) (H4 & H5 & H6). split; [|split].
    + intros w s Hin. destruct (H4 w s Hin) as [H|H]; auto.
    + intros x w s Hin. destruct (H5 x w s Hin) as [H|[H|H]]; auto.
    + intros s Hin. auto.
Qed.




















(* ------------------------------------------------------------------ *)
(** * The application shell *)






(* ------------------------------------------------------------------ *)
(** * The upload page *)

Lemma upload_run_snoc (evs : list UploadPage.Event) (e : UploadPage.Event)
  (s : UploadPage.State) :
  UploadPage.run (evs ++ [e]) s = UploadPage.step e (UploadPage.run evs s).
Proof. unfold UploadPage.run. rewrite fold_left_app. reflexivity. Qed.

Lemma remove_nth_short {A} (i : nat) (l : list A) :
  (List.length l <= 1)%nat -> nth_error l i <> None ->
  UploadPage.remove_nth i l = [].
Proof.
  destruct l as [|x [|y rest]]; simpl; intros Hl Hn.
  - destruct i; reflexivity.
  - destruct i as [|i]; [reflexivity|]. destruct i; simpl in Hn; congruence.
  - lia.
Qed.

Lemma loading_idle (s : UploadPage.State) :
  UploadPage.orderly s -> UploadPage.loading s = false ->
  UploadPage.inflight s = [].
Proof.
  intros (_ & Hl & _) H. destruct (UploadPage.inflight s) as [|w rest];
    [reflexivity|].
  assert (UploadPage.loading s = true) by (apply Hl; discriminate).
  congruence.
Qed.

Lemma upload_step_orderly (e : UploadPage.Event) (s : UploadPage.State) :
  UploadPage.orderly s -> UploadPage.orderly (UploadPage.step e s).
Proof.
  intro O. pose proof O as (Hn & Hl & Hp & Ht).
  destruct e as [selectedFile|value| | | |i fetched]; simpl.
  - destruct (UploadPage.resume_card s); [exact O|].
    destruct selectedFile; [|exact O]. exact O.
  - exact O.
  - destruct (UploadPage.resume_card s); [exact O|].
    destruct (UploadPage.file s) as [f|] eqn:Ef; [|exact O].
    destruct (UploadPage.loading s) eqn:El; [exact O|].
    unfold UploadPage.handleUpload. rewrite Ef.
    rewrite (loading_idle s O El) in *.
    unfold UploadPage.orderly; simpl.
    split; [lia | split; [split; [discriminate | reflexivity] | split]].
    + constructor; [exact I | constructor].
    + apply Forall_app. split; [exact Ht | constructor; [exact I | constructor]].
  - destruct (UploadPage.resume_card s) eqn:Ec; [|exact O].
    destruct (UploadPage.loading s) eqn:El; [exact O|].
    unfold UploadPage.handleStartInterview.
    unfold UploadPage.resume_card in Ec. rewrite Ec. simpl.
    rewrite (loading_idle s O El) in *.
    unfold UploadPage.orderly; simpl.
    split; [lia | split; [split; [discriminate | reflexivity] | split]].
    + constructor; [exact Ec | constructor].
    + apply Forall_app. split; [exact Ht | constructor; [exact I | constructor]].
  - destruct (UploadPage.resume_card s); exact O.
  - destruct (nth_error (UploadPage.inflight s) i) as [what|] eqn:En; [|exact O].
    assert (Hw : UploadPage.pending_truthy what).
    { rewrite Forall_forall in Hp. apply Hp. eapply nth_error_In. exact En. }
    assert (Hr : UploadPage.remove_nth i (UploadPage.inflight s) = []).
    { apply remove_nth_short; [exact Hn | congruence]. }
    rewrite Hr. unfold UploadPage.settled, UploadPage.set_inflight.
    destruct what as [|resume level].
    + destruct (Api.uploadResume fetched) as [f|v];
        unfold UploadPage.orderly; simpl;
        (split; [lia | split; [split; [discriminate | congruence] | split]]);
        [constructor | exact Ht | constructor | exact Ht].
    + destruct (Api.startInterview fetched) as [f|v];
        unfold UploadPage.orderly; simpl;
        (split; [lia | split; [split; [discriminate | congruence] | split]]);
        [constructor | exact Ht | constructor |].
      apply Forall_app. split; [exact Ht | constructor; [exact Hw | constructor]].
Qed.

(** X19. The upload page never awaits two helper calls at once, and its
    buttons are disabled ([loading]) exactly while one is awaited,
    whatever the user does and however the calls are settled.  What is
    handed to [onResumeUploaded] always has a truthy [resume]: an
    interview is started only for a parsed resume, also when the user
    went back to upload a different one while the start was awaited. *)
Theorem upload_page_awaits_one_call (evs : list UploadPage.Event) :
  let s := UploadPage.run evs UploadPage.init in
  (List.length (UploadPage.inflight s) <= 1)%nat
  /\ (UploadPage.loading s = true <-> UploadPage.inflight s <> [])
  /\ (forall resume interview,
         In (UploadPage.Uploaded resume interview) (UploadPage.trace s) ->
         truthy (Some resume) = true).
Proof.
  intro s. subst s.
  assert (O : UploadPage.orderly (UploadPage.run evs UploadPage.init)).
  { induction evs as [|e evs IH] using rev_ind.
    - unfold UploadPage.orderly; simpl.
      split; [lia | split; [split; [discriminate | congruence] | split]];
        constructor.
    - rewrite upload_run_snoc. apply upload_step_orderly. exact IH. }
  destruct O as (Hn & Hl & _ & Ht).
  split; [exact Hn | split; [exact Hl|]].
  intros resume interview H. rewrite Forall_forall in Ht.
  exact (Ht _ H).
Qed.

(** A resume is parsed, the interview is started, and the user goes back
    to upload a different resume before the start is answered: the
    hand-over still carries the parsed resume. *)
Lemma upload_page_witness :
  truthy (Some (JObj [("id", JNum 7)])) = true.
Proof.
  destruct (upload_page_awaits_one_call
              [UploadPage.FileChosen (Some "cv.pdf");
               UploadPage.ClickAnalyze;
               UploadPage.Settled 0
                 (inr {| Api.ok := true;
                         Api.body := Some (JObj [("id", JNum 7)]) |});
               UploadPage.ClickStart;
               UploadPage.ClickUploadDifferent;
               UploadPage.Settled 0
                 (inr {| Api.ok := true;
                         Api.body := Some (JObj [("interview_id", JNum 1)]) |})])
    as (_ & _ & H).
  apply (H (JObj [("id", JNum 7)]) (JObj [("interview_id", JNum 1)])).
  vm_compute. right. right. left. reflexivity.
Defined.
